(** * Retrieval and ranking core of the contract RAG system

    A shallow embedding of the retrieval core:
    - [src/embeddings/vector_store.py]  (class [VectorStore], FAISS backend),
    - [src/retrieval/hybrid_search.py]  (class [HybridSearchEngine]),
    - [src/retrieval/reranker.py]       (class [AdvancedReranker]),
    followed by the properties of rank fusion, reranking, caching, filtering
    and lexical search established on it.

    Conventions of the embedding.
    - Python [float] scores are exact rationals ([Q]); the BM25 scorer, which
      takes a logarithm, lives over the reals ([R]).  Numeric equality of
      scores is [Qeq] ([==]); structural equality is Leibniz.
    - Text is ASCII [string]; [str.lower], [str.split], the [in] substring
      test and the tokenizer's regular expression are written out on it.
    - A Python dict whose iteration order is observable (the fusion
      accumulators, the rerank cache) is an association list in insertion
      order; metadata dicts and filter dicts, only ever looked up, are
      [gmap]s.
    - A Python exception is the result [None] of an [option]-valued
      function; state (the rerank cache, the BM25 statistics) is passed
      explicitly.
    - The external services are parameters: the embedding provider, the
      FAISS inner-product index ([index_search]) and the cross-encoder
      ([predict]). *)

From Stdlib Require Import ZArith QArith Qminmax Reals Lra Lia.
From Stdlib Require Import String Ascii List Permutation Sorted DecimalString.
From stdpp Require Import base option list gmap strings.

Local Open Scope string_scope.
Local Open Scope list_scope.

(** ** Python builtins used by the three modules *)

Module Py.

(** Values stored in metadata dicts: [None], strings and integers. *)
Inductive pyval : Type :=
| PNone : pyval
| PStr : string -> pyval
| PInt : Z -> pyval.

#[export] Instance pyval_eq_dec : EqDecision pyval.
Proof. solve_decision. Defined.

(** [str(i)] for a list position. *)
Definition str_of_nat (n : nat) : string :=
  NilEmpty.string_of_uint (Nat.to_uint n).

(** *** Strings *)

Definition is_upper (c : ascii) : bool :=
  let n := nat_of_ascii c in (65 <=? n)%nat && (n <=? 90)%nat.

Definition lower_ascii (c : ascii) : ascii :=
  if is_upper c then ascii_of_nat (nat_of_ascii c + 32) else c.

(** [s.lower()] *)
Fixpoint lower (s : string) : string :=
  match s with
  | EmptyString => EmptyString
  | String c s' => String (lower_ascii c) (lower s')
  end.

(** [c.isspace()], also the class [\s] of [re]: TAB..CR, FS..US, space. *)
Definition is_space (c : ascii) : bool :=
  let n := nat_of_ascii c in
  ((9 <=? n)%nat && (n <=? 13)%nat) || ((28 <=? n)%nat && (n <=? 32)%nat).

(** The class [\w] of [re]: letters, digits, underscore; bytes above 127
    (letters of non-ASCII alphabets) count as word characters. *)
Definition is_word (c : ascii) : bool :=
  let n := nat_of_ascii c in
  ((48 <=? n)%nat && (n <=? 57)%nat) || ((65 <=? n)%nat && (n <=? 90)%nat)
  || ((97 <=? n)%nat && (n <=? 122)%nat) || (n =? 95)%nat || (128 <=? n)%nat.

Definition str_is_empty (s : string) : bool :=
  match s with EmptyString => true | _ => false end.

Fixpoint split_go (s cur : string) : list string :=
  match s with
  | EmptyString => if str_is_empty cur then [] else [cur]
  | String c s' =>
      if is_space c
      then (if str_is_empty cur then split_go s' "" else cur :: split_go s' "")
      else split_go s' (cur ++ String c "")
  end.

(** [s.split()]: maximal runs of non-whitespace characters. *)
Definition split (s : string) : list string := split_go s "".

(** [a in b] on strings: [a] occurs in [b] as a contiguous substring. *)
Fixpoint contains (a b : string) : bool :=
  String.prefix a b ||
  match b with
  | EmptyString => false
  | String _ b' => contains a b'
  end.

(** [s[:n]] *)
Fixpoint str_take (n : nat) (s : string) : string :=
  match n, s with
  | S n', String c s' => String c (str_take n' s')
  | _, _ => EmptyString
  end.

(** [x in l] on a list of strings. *)
Definition mem (x : string) (l : list string) : bool :=
  existsb (String.eqb x) l.

(** [set(l)]: the distinct elements; only its size and a count over it are
    ever observed, so the iteration order chosen here is immaterial. *)
Fixpoint dedup (l : list string) : list string :=
  match l with
  | [] => []
  | x :: l' => if mem x l' then dedup l' else x :: dedup l'
  end.

(** [sum(1 for x in l if p x)] *)
Definition count {A} (p : A -> bool) (l : list A) : nat :=
  length (List.filter p l).

(** *** Sequences *)

(** [l[i]] with Python's negative indices; [None] is [IndexError]. *)
Definition index {A} (l : list A) (i : Z) : option A :=
  if (0 <=? i)%Z then l !! Z.to_nat i
  else if (- Z.of_nat (length l) <=? i)%Z then l !! Z.to_nat (Z.of_nat (length l) + i)
  else None.

(** [enumerate(l)], counting from [i]. *)
Fixpoint enumerate_from {A} (i : nat) (l : list A) : list (nat * A) :=
  match l with
  | [] => []
  | x :: l' => (i, x) :: enumerate_from (S i) l'
  end.

Definition enumerate {A} (l : list A) : list (nat * A) := enumerate_from 0 l.

(** *** Stable sorting, descending

    [l.sort(key=key, reverse=True)] and [sorted(l, key=key, reverse=True)]:
    descending by key, elements with equal keys in their original order.
    [leb] is the order of the keys. *)
Section Sort.
Context {A K : Type}.
Variable leb : K -> K -> bool.
Variable key : A -> K.

Fixpoint insert_desc (x : A) (l : list A) : list A :=
  match l with
  | [] => [x]
  | y :: l' => if leb (key y) (key x) then x :: y :: l' else y :: insert_desc x l'
  end.

Definition sort_desc (l : list A) : list A := foldr insert_desc [] l.

(** [a] may stand before [b] in a descending list. *)
Definition before (a b : A) : Prop := leb (key b) (key a) = true.

(** ... and, on equal keys, only if it was before [b] originally
    ([lt] is the original order). *)
Definition before_stable (lt : A -> A -> Prop) (a b : A) : Prop :=
  before a b /\ (leb (key a) (key b) = true -> lt a b).
End Sort.

Definition Rleb (x y : R) : bool := if Rle_dec x y then true else false.

(** *** Insertion-ordered dicts *)
Section ODict.
Context {K V : Type} `{EqDecision K}.

(** [d.get(k)] / [k in d] *)
Fixpoint od_get (d : list (K * V)) (k : K) : option V :=
  match d with
  | [] => None
  | (k', v) :: d' => if decide (k = k') then Some v else od_get d' k
  end.

(** [d[k] = v]: an existing key keeps its position, a new one goes last. *)
Fixpoint od_set (d : list (K * V)) (k : K) (v : V) : list (K * V) :=
  match d with
  | [] => [(k, v)]
  | (k', v') :: d' =>
      if decide (k = k') then (k', v) :: d' else (k', v') :: od_set d' k v
  end.

(** [del d[k]] *)
Fixpoint od_del (d : list (K * V)) (k : K) : list (K * V) :=
  match d with
  | [] => []
  | (k', v') :: d' => if decide (k = k') then d' else (k', v') :: od_del d' k
  end.

(** [list(d.keys())] *)
Definition od_keys (d : list (K * V)) : list K := map fst d.
End ODict.

End Py.

(** ** The accumulation loop of the fusion routines

    The three fusion routines ([VectorStore._reciprocal_rank_fusion],
    [HybridSearchEngine._reciprocal_rank_fusion] and
    [HybridSearchEngine._weighted_fusion]) run the same loop body over the
    results of all input lists, in scan order (list by list, then by
    position):
<<
      if chunk_id in fused_scores:
          fused_scores[chunk_id] += s
      else:
          fused_scores[chunk_id] = s
          all_results[chunk_id] = result
>>
    An entry [(chunk_id, s, result)] is one iteration. *)

Module Fusion.
Import Py.

Section Accumulate.
Context {T : Type}.

Definition accumulate_step
    (acc : list (pyval * Q) * list (pyval * T)) (e : pyval * Q * T)
  : list (pyval * Q) * list (pyval * T) :=
  let '(fused_scores, all_results) := acc in
  let '(chunk_id, s, result) := e in
  match od_get fused_scores chunk_id with
  | Some old => (od_set fused_scores chunk_id (old + s)%Q, all_results)
  | None => (od_set fused_scores chunk_id s, od_set all_results chunk_id result)
  end.

Definition accumulate (entries : list (pyval * Q * T))
  : list (pyval * Q) * list (pyval * T) :=
  fold_left accumulate_step entries ([], []).
End Accumulate.

(** [sum(...)] of rationals. *)
Definition Qsum (l : list Q) : Q := foldr Qplus 0%Q l.


(** *** Vocabulary of the properties *)

Section Vocabulary.
Context {T : Type}.

(** The scores the loop adds up for [c], and the result it keeps for [c]:
    the one of the first iteration on [c]. *)
Definition contributions (c : pyval) (entries : list (pyval * Q * T)) : list Q :=
  map (fun e => e.1.2) (List.filter (fun e => bool_decide (e.1.1 = c)) entries).

Definition first_result (c : pyval) (entries : list (pyval * Q * T)) : option T :=
  (fun e => e.2) <$> List.find (fun e => bool_decide (e.1.1 = c)) entries.

(** The first result with chunk id [c] in scan order. *)
Definition first_occurrence (cid : T -> pyval) (c : pyval)
    (result_lists : list (list T)) : option T :=
  List.find (fun x => bool_decide (cid x = c)) (concat result_lists).

(** The iterations for one input list when the rank of a result is its
    position, counted from one: [1 / (k + position + 1)]. *)
Definition positional_entries (cid : T -> pyval) (k : nat) (result_list : list T)
  : list (pyval * Q * T) :=
  map (fun ir => (cid ir.2, 1 / inject_Z (Z.of_nat (k + ir.1 + 1)), ir.2)%Q)
      (enumerate result_list).

(** The same, the first position being [i]. *)
Definition entries_from (cid : T -> pyval) (k : nat) (i : nat) (l : list T)
  : list (pyval * Q * T) :=
  map (fun ir => (cid ir.2, 1 / inject_Z (Z.of_nat (k + ir.1 + 1)), ir.2)%Q)
      (enumerate_from i l).

(** What the loop leaves behind: one key per chunk id met, the sum of its
    contributions, and its first result. *)
Definition accumulated (entries : list (pyval * Q * T))
    (acc : list (pyval * Q) * list (pyval * T)) : Prop :=
  NoDup (od_keys acc.1)
  /\ (forall c, od_get acc.2 c = first_result c entries)
  /\ (forall c, od_get acc.1 c = None <-> first_result c entries = None)
  /\ (forall c s, od_get acc.1 c = Some s -> (s == Qsum (contributions c entries))%Q).
End Vocabulary.

(** The 1-based rank of [c] in a list of chunk ids, the first position being
    rank [i + 1]. *)
Fixpoint rank_from (i : nat) (c : pyval) (ids : list pyval) : option nat :=
  match ids with
  | [] => None
  | x :: ids' => if decide (x = c) then Some (i + 1) else rank_from (S i) c ids'
  end.

Definition rank_in (c : pyval) (ids : list pyval) : option nat := rank_from 0 c ids.

(** The contribution of one ranked list to the fused score of [c]:
    [1 / (k + rank)] if the list holds [c], nothing otherwise. *)
Definition rrf_contribution (k : nat) (c : pyval) (ids : list pyval) : Q :=
  match rank_in c ids with
  | Some r => 1 / inject_Z (Z.of_nat (k + r))
  | None => 0
  end.

(** The reciprocal-rank-fusion score of [c]: the sum of the contributions of
    the input lists. *)
Definition fusion_score (k : nat) (c : pyval) (id_lists : list (list pyval)) : Q :=
  Qsum (map (rrf_contribution k c) id_lists).

(** Descending by score, read by positions. *)
Definition descending {A} (score : A -> Q) (out : list A) : Prop :=
  forall i j a b, out !! i = Some a -> out !! j = Some b -> (i < j)%nat ->
    (score b <= score a)%Q.
End Fusion.

(** ** [src/embeddings/vector_store.py]: class [VectorStore], FAISS backend *)

Module VectorStore.
Import Py Fusion.

(** [settings.search] *)
Record SearchConfig : Type := {
  top_k_vector : nat;
  top_k_keyword : nat;
  top_k_final : nat;
  similarity_threshold : Q
}.

Definition default_settings : SearchConfig :=
  {| top_k_vector := 50; top_k_keyword := 50; top_k_final := 20;
     similarity_threshold := 15 # 100 |}.

(** A chunk handed over by ingestion. *)
Record Chunk : Type := {
  c_content : string;
  c_metadata : gmap string pyval;
  c_chunk_id : string
}.

(** A search result: a dict with the keys below; the optional keys are the
    ones only some producers set. *)
Record Result : Type := {
  chunk_id : pyval;
  content : string;
  metadata : gmap string pyval;
  score : Q;
  rank : option nat;
  match_count : option nat;
  original_score : option Q;
  rerank_score : option Q;
  rrf_score : option Q
}.

(** The cross-encoder: [reranker.predict(pairs)]; [None] when it raises. *)
Definition Predictor : Type := list (string * string) -> option (list Q).

(** The store: the FAISS index (its vectors, in insertion order) and the
    two parallel lists kept next to it. *)
Record Store (Vec : Type) : Type := {
  faiss_index : list Vec;
  faiss_metadata : list (gmap string pyval);
  faiss_documents : list string;
  reranker : option Predictor;
  total_chunks : nat
}.
Arguments faiss_index {Vec} _.
Arguments faiss_metadata {Vec} _.
Arguments faiss_documents {Vec} _.
Arguments reranker {Vec} _.
Arguments total_chunks {Vec} _.

(** [top_k or default] *)
Definition or_default (top_k : option nat) (d : nat) : nat :=
  match top_k with
  | Some (S n) => S n
  | _ => d
  end.

(** [all(metadata.get(key) == value for key, value in filter_dict.items())] *)
Definition filter_match (filter_dict metadata : gmap string pyval) : bool :=
  forallb (fun kv => bool_decide (default PNone (metadata !! kv.1) = kv.2))
          (map_to_list filter_dict).

(** [if filter_dict:] — a filter that is given and not empty. *)
Definition filter_given (filter_dict : option (gmap string pyval)) : bool :=
  match filter_dict with
  | Some f => negb (bool_decide (f = ∅))
  | None => false
  end.

Definition passes (filter_dict : option (gmap string pyval))
    (metadata : gmap string pyval) : bool :=
  match filter_dict with
  | Some f => if filter_given filter_dict then filter_match f metadata else true
  | None => true
  end.

Section Backend.
Context {Vec : Type}.

(** [OpenAIEmbeddings.embed_documents] and [embed_query], each followed by
    [faiss.normalize_L2]. *)
Variable embed_documents : list string -> list Vec.
Variable embed_query : string -> Vec.

(** [faiss_index.search(query_vec, k)]: the [k] pairs (similarity, index)
    of the nearest entries, nearest first; index [-1] pads the answer. *)
Variable index_search : list Vec -> Vec -> nat -> list (Q * Z).

Variable settings : SearchConfig.

(** [_add_to_faiss]; [None] is the [IndexError] of [faiss.normalize_L2]:
    called with no texts, the provider returns no embeddings,
    [np.array(embeddings)] has shape [(0,)] and the normalisation raises
    before anything is added. *)
Definition _add_to_faiss (st : Store Vec) (texts : list string)
    (embeddings : list Vec) (metadatas : list (gmap string pyval))
    (ids : list string) : option (Store Vec) :=
  match texts with
  | [] => None
  | _ :: _ =>
      let rows := zip (zip texts metadatas) ids in
      Some {| faiss_index := faiss_index st ++ embeddings;
              faiss_documents := faiss_documents st ++ map (fun row => row.1.1) rows;
              faiss_metadata :=
                faiss_metadata st
                ++ map (fun row => <["chunk_id" := PStr row.2]> row.1.2) rows;
              reranker := reranker st;
              total_chunks := total_chunks st |}
  end.

(** [add_chunks]: the store as the call leaves it and the count
    [chunks_added] it returns; [None] when [_add_to_faiss] raises, which
    happens before the statistics are touched. *)
Definition add_chunks (st : Store Vec) (chunks : list Chunk)
  : Store Vec * option nat :=
  let texts := map c_content chunks in
  let metadatas := map c_metadata chunks in
  let ids := map c_chunk_id chunks in
  let embeddings := embed_documents texts in
  match _add_to_faiss st texts embeddings metadatas ids with
  | None => (st, None)
  | Some st' =>
      ({| faiss_index := faiss_index st';
          faiss_metadata := faiss_metadata st';
          faiss_documents := faiss_documents st';
          reranker := reranker st';
          total_chunks := total_chunks st + length chunks |},
       Some (length chunks))
  end.

(** The loop of [_search_faiss] over [enumerate(zip(distances, indices))]:
    [break] at index [-1], [continue] on a filter mismatch. *)
Fixpoint format_hits (st : Store Vec) (filter_dict : option (gmap string pyval))
    (hits : list (nat * (Q * Z))) : option (list Result) :=
  match hits with
  | [] => Some []
  | (i, (dist, idx)) :: rest =>
      if (idx =? -1)%Z then Some []
      else
        md ← index (faiss_metadata st) idx;
        if negb (passes filter_dict md) then format_hits st filter_dict rest
        else
          doc ← index (faiss_documents st) idx;
          tl ← format_hits st filter_dict rest;
          Some ({| chunk_id := default PNone (md !! "chunk_id");
                   content := doc;
                   metadata := md;
                   score := dist;
                   rank := Some (i + 1);
                   match_count := None;
                   original_score := None;
                   rerank_score := None;
                   rrf_score := None |} :: tl)
  end.

(** The number of neighbours asked of the index. *)
Definition window (st : Store Vec) (top_k : nat) : nat :=
  Nat.min (Nat.max (top_k * 2) 1) (length (faiss_index st)).

(** [_search_faiss] *)
Definition _search_faiss (st : Store Vec) (query_embedding : Vec) (top_k : nat)
    (filter_dict : option (gmap string pyval)) : option (list Result) :=
  if (length (faiss_index st) =? 0)%nat then Some []
  else
    let k := window st top_k in
    format_hits st filter_dict
      (enumerate (index_search (faiss_index st) query_embedding k)).

(** The first loop of [_rerank_results]; [false] when [rerank_scores[i]]
    runs out (the exception leaves the remaining results untouched). *)
Fixpoint combine_loop (results : list Result) (rerank_scores : list Q)
  : list Result * bool :=
  match results with
  | [] => ([], true)
  | r :: rs =>
      match rerank_scores with
      | [] => (r :: rs, false)
      | s :: ss =>
          let '(rs', ok) := combine_loop rs ss in
          ({| chunk_id := chunk_id r;
              content := content r;
              metadata := metadata r;
              score := ((7 # 10) * s + (3 # 10) * score r)%Q;
              rank := rank r;
              match_count := match_count r;
              original_score := Some (score r);
              rerank_score := Some s;
              rrf_score := rrf_score r |} :: rs', ok)
      end
  end.

Definition set_rank (i : nat) (r : Result) : Result :=
  {| chunk_id := chunk_id r; content := content r; metadata := metadata r;
     score := score r; rank := Some (i + 1); match_count := match_count r;
     original_score := original_score r; rerank_score := rerank_score r;
     rrf_score := rrf_score r |}.

(** [for i, result in enumerate(results): result["rank"] = i + 1] *)
Definition renumber (results : list Result) : list Result :=
  map (fun ir => set_rank ir.1 ir.2) (enumerate results).

(** [_rerank_results]: any exception is caught and the list returned as
    it stands. *)
Definition _rerank_results (st : Store Vec) (query : string)
    (results : list Result) : list Result :=
  match reranker st, results with
  | None, _ => results
  | _, [] => results
  | Some predict, _ =>
      match predict (map (fun r => (query, content r)) results) with
      | None => results
      | Some rerank_scores =>
          match combine_loop results rerank_scores with
          | (results', false) => results'
          | (results', true) => renumber (sort_desc Qle_bool score results')
          end
      end
  end.

(** [search] *)
Definition search (st : Store Vec) (query : string) (top_k : option nat)
    (filter_dict : option (gmap string pyval)) : option (list Result) :=
  let top_k := or_default top_k (top_k_final settings) in
  let query_embedding := embed_query query in
  results ← _search_faiss st query_embedding top_k filter_dict;
  let results :=
    match reranker st, results with
    | Some _, _ :: _ => _rerank_results st query results
    | _, _ => results
    end in
  let threshold := similarity_threshold settings in
  let results := List.filter (fun r => Qle_bool threshold (score r)) results in
  Some (take top_k results).

(** [_keyword_search], FAISS branch. *)
Definition _keyword_search (st : Store Vec) (query : string) (top_k : nat)
  : list Result :=
  let query_terms := split (lower query) in
  let results :=
    flat_map
      (fun dm : string * gmap string pyval =>
         let doc_lower := lower dm.1 in
         let matches := count (fun term => contains term doc_lower) query_terms in
         if (0 <? matches)%nat
         then [ {| chunk_id := default PNone (dm.2 !! "chunk_id");
                   content := dm.1;
                   metadata := dm.2;
                   score := Z.of_nat matches # Pos.of_nat (length query_terms);
                   rank := None;
                   match_count := Some matches;
                   original_score := None;
                   rerank_score := None;
                   rrf_score := None |} ]
         else [])
      (zip (faiss_documents st) (faiss_metadata st)) in
  take top_k (sort_desc Qle_bool score results).

(** The iterations of the fusion loop for one input list:
    [rrf_score = 1 / (k + rank + 1)] with [rank] from [enumerate]. *)
Definition rrf_entries (k : nat) (result_list : list Result)
  : list (pyval * Q * Result) :=
  map (fun ir => (chunk_id ir.2, 1 / inject_Z (Z.of_nat (k + ir.1 + 1)), ir.2)%Q)
      (enumerate result_list).

Definition set_rrf (s : Q) (r : Result) : Result :=
  {| chunk_id := chunk_id r; content := content r; metadata := metadata r;
     score := s; rank := rank r; match_count := match_count r;
     original_score := original_score r; rerank_score := rerank_score r;
     rrf_score := Some s |}.

(** The second loop: one fused copy per key of [fused_scores];
    [None] is the [KeyError] of [all_results[chunk_id]]. *)
Fixpoint fused_copies (fused_scores : list (pyval * Q))
    (all_results : list (pyval * Result)) : option (list Result) :=
  match fused_scores with
  | [] => Some []
  | (cid, s) :: rest =>
      r ← od_get all_results cid;
      tl ← fused_copies rest all_results;
      Some (set_rrf s r :: tl)
  end.

(** [_reciprocal_rank_fusion] *)
Definition _reciprocal_rank_fusion (result_lists : list (list Result)) (k : nat)
  : option (list Result) :=
  let '(fused_scores, all_results) :=
    accumulate (concat (map (rrf_entries k) result_lists)) in
  fused_results ← fused_copies fused_scores all_results;
  Some (sort_desc Qle_bool (fun r => default 0%Q (rrf_score r)) fused_results).

(** [hybrid_search] *)
Definition hybrid_search (st : Store Vec) (query : string) (top_k : option nat)
  : option (list Result) :=
  let top_k := or_default top_k (top_k_final settings) in
  vector_results ← search st query (Some (top_k_vector settings)) None;
  let keyword_results := _keyword_search st query (top_k_keyword settings) in
  fused_results ← _reciprocal_rank_fusion [vector_results; keyword_results] 60;
  let fused_results :=
    match reranker st with
    | Some _ => _rerank_results st query fused_results
    | None => fused_results
    end in
  Some (take top_k fused_results).

End Backend.

(** *** Sample data *)

Definition sample_result (cid text : string) (s : Q) (n : nat) : Result :=
  {| chunk_id := PStr cid; content := text; metadata := ∅; score := s;
     rank := Some n; match_count := None; original_score := None;
     rerank_score := None; rrf_score := None |}.

Definition sample_lists : list (list Result) :=
  [ [ sample_result "c-renta" "La renta mensual es de 3000 euros" (9 # 10) 1;
      sample_result "c-duracion" "La duracion es de 5 anos" (5 # 10) 2 ];
    [ sample_result "c-duracion" "duracion (copia lexica)" (1 # 1) 1;
      sample_result "c-penal" "Penalizacion del 10% de interes" (1 # 2) 2 ] ].

(** *** Vocabulary of the properties *)

(** The results of [search] before the threshold is applied. *)
Definition candidates {Vec} (embed_query : string -> Vec)
    (index_search : list Vec -> Vec -> nat -> list (Q * Z)) (settings : SearchConfig)
    (st : Store Vec) (query : string) (top_k : option nat)
    (filter_dict : option (gmap string pyval)) : option (list Result) :=
  results ← _search_faiss index_search st (embed_query query)
                          (or_default top_k (top_k_final settings)) filter_dict;
  Some (match reranker st, results with
        | Some _, _ :: _ => _rerank_results st query results
        | _, _ => results
        end).

(** [r] clears the similarity threshold. *)
Definition above_threshold (settings : SearchConfig) (r : Result) : bool :=
  Qle_bool (similarity_threshold settings) (score r).

(** The search of the specification: the whole index is ranked, the entries
    failing the filter are excluded, and only then is the list cut to the
    [k] that [_search_faiss] asks of the index. *)
Definition filter_then_truncate {Vec}
    (index_search : list Vec -> Vec -> nat -> list (Q * Z))
    (st : Store Vec) (query_embedding : Vec) (top_k : nat)
    (filter_dict : option (gmap string pyval)) : option (list Result) :=
  if (length (faiss_index st) =? 0)%nat then Some []
  else
    survivors ← format_hits st filter_dict
                  (enumerate (index_search (faiss_index st) query_embedding
                                           (length (faiss_index st))));
    Some (take (window st top_k) survivors).

(** The number of indexed entries that carry chunk id [cid]. *)
Definition entries_with_id {Vec} (st : Store Vec) (cid : string) : nat :=
  length (List.filter (fun md => bool_decide (md !! "chunk_id" = Some (PStr cid)))
                      (faiss_metadata st)).

(** The pipeline of the specification for hybrid search: fuse, rerank, drop
    what is below the threshold, cut to [top_k]. *)
Definition hybrid_filter_then_truncate {Vec} (embed_query : string -> Vec)
    (index_search : list Vec -> Vec -> nat -> list (Q * Z)) (settings : SearchConfig)
    (st : Store Vec) (query : string) (top_k : option nat) : option (list Result) :=
  vector_results ← search embed_query index_search settings st query
                      (Some (top_k_vector settings)) None;
  fused_results ← _reciprocal_rank_fusion
                    [vector_results; _keyword_search st query (top_k_keyword settings)] 60;
  let fused_results :=
    match reranker st with
    | Some _ => _rerank_results st query fused_results
    | None => fused_results
    end in
  Some (take (or_default top_k (top_k_final settings))
             (List.filter (above_threshold settings) fused_results)).

(** *** Sample backend and data

    An exact inner-product index over rational vectors and a three-way
    embedding stand in for FAISS and the embedding provider. *)

Definition dot (u v : list Q) : Q := Qsum (zip_with Qmult u v).

Definition flat_ip_search (index : list (list Q)) (q : list Q) (k : nat)
  : list (Q * Z) :=
  take k (sort_desc Qle_bool fst
            (map (fun iv => (dot q iv.2, Z.of_nat iv.1)) (enumerate index))).

Definition sample_embed (text : string) : list Q :=
  if contains "penal" (lower text) then [0; 1]%Q
  else if contains "renta" (lower text) then [1; 0]%Q
  else [3 # 5; 4 # 5].

Definition sample_embed_documents (texts : list string) : list (list Q) :=
  map sample_embed texts.

Definition empty_store : Store (list Q) :=
  {| faiss_index := []; faiss_metadata := []; faiss_documents := [];
     reranker := None; total_chunks := 0 |}.

Definition chunk_renta : Chunk :=
  {| c_content := "La renta mensual es de 3000 euros";
     c_metadata := {[ "contract_type" := PStr "arrendamiento" ]};
     c_chunk_id := "c-renta" |}.

Definition chunk_revision : Chunk :=
  {| c_content := "La renta anual se revisa cada ano";
     c_metadata := {[ "contract_type" := PStr "arrendamiento" ]};
     c_chunk_id := "c-revision" |}.

Definition chunk_servicio : Chunk :=
  {| c_content := "El servicio dura 5 anos";
     c_metadata := {[ "contract_type" := PStr "servicios" ]};
     c_chunk_id := "c-servicio" |}.

Definition chunk_penal : Chunk :=
  {| c_content := "Penalizacion por impago de la renta";
     c_metadata := {[ "contract_type" := PStr "arrendamiento" ]};
     c_chunk_id := "c-penal" |}.

Definition store_of (chunks : list Chunk) : Store (list Q) :=
  (add_chunks sample_embed_documents empty_store chunks).1.

Definition sample_filter : option (gmap string pyval) :=
  Some {[ "contract_type" := PStr "servicios" ]}.

Definition store_three : Store (list Q) :=
  store_of [chunk_renta; chunk_revision; chunk_servicio].

Definition store_penal : Store (list Q) := store_of [chunk_penal].

Definition store_twice : Store (list Q) :=
  (add_chunks sample_embed_documents (store_of [chunk_renta]) [chunk_renta]).1.

(** *** Further vocabulary *)

(** The three parallel structures of the store have one entry per vector. *)
Definition aligned {Vec} (st : Store Vec) : Prop :=
  length (faiss_metadata st) = length (faiss_index st)
  /\ length (faiss_documents st) = length (faiss_index st).

(** The index answers with entry numbers of the store, or the padding [-1]. *)
Definition in_range {Vec} (st : Store Vec) (hits : list (Q * Z)) : Prop :=
  forall dist idx, In (dist, idx) hits ->
    (-1 <= idx < Z.of_nat (length (faiss_index st)))%Z.

(** What reranking leaves alone in a result. *)
Definition identity (r : Result) : pyval * string * gmap string pyval :=
  (chunk_id r, content r, metadata r).

(** A cross-encoder that favours the texts mentioning a yearly term. *)
Definition sample_predictor : Predictor :=
  fun pairs => Some (map (fun p => if contains "anual" (lower p.2) then 1%Q else 0%Q) pairs).

Definition store_cross_encoder : Store (list Q) :=
  {| faiss_index := faiss_index store_three;
     faiss_metadata := faiss_metadata store_three;
     faiss_documents := faiss_documents store_three;
     reranker := Some sample_predictor;
     total_chunks := total_chunks store_three |}.

Definition sample_hits : list Result :=
  default [] (_search_faiss flat_ip_search store_three (sample_embed "renta") 2 None).

(** The keys of a result dict other than [score] and [rank]: what the
    fused result [r] would share with its first occurrence [x] if fusion
    rewrote the score and the rank only (the dicts carry no source label). *)
Definition only_score_and_rank_rewritten (x r : Result) : Prop :=
  chunk_id r = chunk_id x /\ content r = content x /\ metadata r = metadata x
  /\ match_count r = match_count x /\ original_score r = original_score x
  /\ rerank_score r = rerank_score x /\ rrf_score r = rrf_score x.
End VectorStore.

(** ** [src/retrieval/hybrid_search.py]: class [HybridSearchEngine] *)

Module HybridSearch.
Import Py Fusion.

(** [SearchResult]; [Sc] is the type of the score, [D] the type of the
    [match_details] dict (fusion never looks inside it). *)
Record SearchResult (Sc D : Type) : Type := {
  chunk_id : pyval;
  content : string;
  metadata : gmap string pyval;
  score : Sc;
  rank : nat;
  source : string;
  match_details : option D
}.
Arguments chunk_id {Sc D} _.
Arguments content {Sc D} _.
Arguments metadata {Sc D} _.
Arguments score {Sc D} _.
Arguments rank {Sc D} _.
Arguments source {Sc D} _.
Arguments match_details {Sc D} _.

(** The [match_details] written by [_keyword_search]. *)
Record KeywordDetails : Type := {
  bm25_score : R;
  matched_terms : list string
}.

(** A document as [_get_all_documents] returns it. *)
Record Doc : Type := {
  d_chunk_id : pyval;
  d_content : string;
  d_metadata : gmap string pyval
}.

(** The engine: its vector store and the BM25 statistics it mutates. *)
Record Engine (Vec : Type) : Type := {
  vector_store : option (VectorStore.Store Vec);
  bm25_k1 : R;
  bm25_b : R;
  avg_doc_length : R;
  total_docs : nat;
  idf_cache : list (string * R)
}.
Arguments vector_store {Vec} _.
Arguments bm25_k1 {Vec} _.
Arguments bm25_b {Vec} _.
Arguments avg_doc_length {Vec} _.
Arguments total_docs {Vec} _.
Arguments idf_cache {Vec} _.

(** [__init__] *)
Definition init {Vec} (vs : option (VectorStore.Store Vec)) : Engine Vec :=
  {| vector_store := vs; bm25_k1 := 12 / 10; bm25_b := 75 / 100;
     avg_doc_length := 100; total_docs := 0; idf_cache := [] |}.

(** *** Tokenizer *)

Definition stopwords : list string :=
  ["el"; "la"; "de"; "que"; "y"; "a"; "en"; "un"; "por"; "con";
   "para"; "es"; "se"; "del"; "al"; "los"; "las"; "una"; "su"].

(** [re.sub(r'[^\w\s]', ' ', text)] *)
Fixpoint strip_punct (text : string) : string :=
  match text with
  | EmptyString => EmptyString
  | String c t =>
      String (if is_word c || is_space c then c else " "%char) (strip_punct t)
  end.

(** [_tokenize] *)
Definition _tokenize (text : string) : list string :=
  let tokens := split (strip_punct text) in
  List.filter (fun t => negb (str_is_empty t) && negb (mem t stopwords)) tokens.

(** [_get_matched_terms] *)
Definition _get_matched_terms (query_tokens : list string) (content : string)
  : list string :=
  let content_lower := lower content in
  List.filter (fun term => contains term content_lower) query_tokens.

Section Lexical.
Context {Vec : Type}.

Definition with_stats (e : Engine Vec) (avg : R) (n : nat) : Engine Vec :=
  {| vector_store := vector_store e; bm25_k1 := bm25_k1 e; bm25_b := bm25_b e;
     avg_doc_length := avg; total_docs := n; idf_cache := idf_cache e |}.

Definition with_idf (e : Engine Vec) (c : list (string * R)) : Engine Vec :=
  {| vector_store := vector_store e; bm25_k1 := bm25_k1 e; bm25_b := bm25_b e;
     avg_doc_length := avg_doc_length e; total_docs := total_docs e;
     idf_cache := c |}.

(** [_get_all_documents], FAISS branch. *)
Definition _get_all_documents (e : Engine Vec)
    (filters : option (gmap string pyval)) : list Doc :=
  match vector_store e with
  | None => []
  | Some vs =>
      flat_map
        (fun row : nat * (string * gmap string pyval) =>
           let '(i, (doc, meta)) := row in
           if VectorStore.passes filters meta
           then [ {| d_chunk_id := default (PStr (str_of_nat i)) (meta !! "chunk_id");
                     d_content := doc;
                     d_metadata := meta |} ]
           else [])
        (enumerate (zip (VectorStore.faiss_documents vs)
                        (VectorStore.faiss_metadata vs)))
  end.

(** [_update_doc_stats] *)
Definition _update_doc_stats (e : Engine Vec) (docs : list Doc) : Engine Vec :=
  let n := length docs in
  if (0 <? n)%nat
  then
    let total_length :=
      list_sum (map (fun d => length (_tokenize (d_content d))) docs) in
    with_stats e (INR total_length / INR n)%R n
  else with_stats e 100%R n.

(** [_get_idf] *)
Definition _get_idf (e : Engine Vec) (term : string) : R * Engine Vec :=
  match od_get (idf_cache e) term with
  | Some idf => (idf, e)
  | None =>
      let idf :=
        if (0 <? total_docs e)%nat
        then ln ((INR (total_docs e) + 1) / 2)%R
        else 2%R in
      (idf, with_idf e (od_set (idf_cache e) term idf))
  end.

(** The loop over [query_tokens] in [_calculate_bm25_score]. *)
Fixpoint bm25_terms (e : Engine Vec) (doc_tokens : list string)
    (query_tokens : list string) (score : R) : R * Engine Vec :=
  match query_tokens with
  | [] => (score, e)
  | term :: rest =>
      if negb (mem term doc_tokens) then bm25_terms e doc_tokens rest score
      else
        let tf := INR (count (String.eqb term) doc_tokens) in
        let '(idf, e') := _get_idf e term in
        let numerator := (idf * tf * (bm25_k1 e' + 1))%R in
        let denominator :=
          (tf + bm25_k1 e'
                * (1 - bm25_b e'
                   + bm25_b e' * (INR (length doc_tokens) / avg_doc_length e')))%R in
        if Rlt_dec 0 denominator
        then bm25_terms e' doc_tokens rest (score + numerator / denominator)%R
        else bm25_terms e' doc_tokens rest score
  end.

(** [_calculate_bm25_score] *)
Definition _calculate_bm25_score (e : Engine Vec) (query_tokens : list string)
    (document : Doc) : R * Engine Vec :=
  let doc_tokens := _tokenize (lower (d_content document)) in
  let doc_length := length doc_tokens in
  let e :=
    if Req_dec_T (avg_doc_length e) 0
    then with_stats e (Rmax (INR doc_length) 100) (total_docs e)
    else e in
  bm25_terms e doc_tokens query_tokens 0%R.

(** The scoring loop of [_keyword_search]: keeps the documents whose
    score is positive. *)
Fixpoint score_docs (e : Engine Vec) (query_tokens : list string)
    (docs : list Doc) : list (Doc * R) * Engine Vec :=
  match docs with
  | [] => ([], e)
  | doc :: rest =>
      let '(s, e') := _calculate_bm25_score e query_tokens doc in
      let '(tl, e'') := score_docs e' query_tokens rest in
      (if Rlt_dec 0 s then (doc, s) :: tl else tl, e'')
  end.

(** [_keyword_search] *)
Definition _keyword_search (e : Engine Vec) (query : string) (top_k : nat)
    (filters : option (gmap string pyval)) (boost_keywords : option (list string))
  : list (SearchResult R KeywordDetails) * Engine Vec :=
  match vector_store e with
  | None => ([], e)
  | Some _ =>
      let all_docs := _get_all_documents e filters in
      match all_docs with
      | [] => ([], e)
      | _ :: _ =>
          let e := _update_doc_stats e all_docs in
          let query_tokens := _tokenize (lower query) in
          let query_tokens :=
            match boost_keywords with
            | Some (kw :: kws) => query_tokens ++ map lower (kw :: kws)
            | _ => query_tokens
            end in
          let '(scores, e) := score_docs e query_tokens all_docs in
          let scores := sort_desc Rleb snd scores in
          (map (fun ids : nat * (Doc * R) =>
                  let '(i, (doc, s)) := ids in
                  {| chunk_id := d_chunk_id doc;
                     content := d_content doc;
                     metadata := d_metadata doc;
                     score := s;
                     rank := i + 1;
                     source := "keyword";
                     match_details :=
                       Some {| bm25_score := s;
                               matched_terms :=
                                 _get_matched_terms query_tokens (d_content doc) |} |})
               (enumerate (take top_k scores)),
           e)
      end
  end.
End Lexical.

(** *** Rank fusion *)

Section RankFusion.
Context {D : Type}.

(** One iteration of the first loop of [_reciprocal_rank_fusion]:
    [rrf_score = 1 / (k + result.rank)]; [None] is [ZeroDivisionError]. *)
Definition rrf_entry {Sc} (k : nat) (result : SearchResult Sc D)
  : option (pyval * Q * SearchResult Sc D) :=
  if (k + rank result =? 0)%nat then None
  else Some (chunk_id result, 1 / inject_Z (Z.of_nat (k + rank result)), result)%Q.

Definition fused {Sc} (result : SearchResult Sc D) (s : Q) (n : nat)
  : SearchResult Q D :=
  {| chunk_id := chunk_id result; content := content result;
     metadata := metadata result; score := s; rank := n + 1;
     source := "hybrid"; match_details := match_details result |}.

(** The final loop of both fusion routines, over the sorted items;
    [n] is [len(fused_results)], [None] the [KeyError] of
    [all_results[chunk_id]]. *)
Fixpoint fuse_loop {Sc} (items : list (pyval * Q))
    (all_results : list (pyval * SearchResult Sc D)) (n : nat)
  : option (list (SearchResult Q D)) :=
  match items with
  | [] => Some []
  | (cid, s) :: rest =>
      result ← od_get all_results cid;
      tl ← fuse_loop rest all_results (S n);
      Some (fused result s n :: tl)
  end.

(** [_reciprocal_rank_fusion] *)
Definition _reciprocal_rank_fusion {Sc} (result_lists : list (list (SearchResult Sc D)))
    (k : nat) : option (list (SearchResult Q D)) :=
  entries ← mapM (rrf_entry k) (concat result_lists);
  let '(fused_scores, all_results) := accumulate entries in
  fuse_loop (sort_desc Qle_bool snd fused_scores) all_results 0.

Definition list_max (x : Q) (l : list Q) : Q := foldl Qmax x l.
Definition list_min (x : Q) (l : list Q) : Q := foldl Qmin x l.

Definition rescaled (min_score range_score : Q) (r : SearchResult Q D)
  : SearchResult Q D :=
  {| chunk_id := chunk_id r; content := content r; metadata := metadata r;
     score := ((score r - min_score) / range_score)%Q; rank := rank r;
     source := source r; match_details := match_details r |}.

(** The body of the normalisation loop of [_weighted_fusion] for one
    input list. *)
Definition normalize (result_list : list (SearchResult Q D))
  : list (SearchResult Q D) :=
  match result_list with
  | [] => []
  | r :: rs =>
      let max_score := list_max (score r) (map score rs) in
      let min_score := list_min (score r) (map score rs) in
      let range_score := (max_score - min_score)%Q in
      if Qlt_le_dec 0 range_score
      then map (rescaled min_score range_score) result_list
      else result_list
  end.

(** [if not weights: weights = [1.0 / len(result_lists)] * len(result_lists)] *)
Definition default_weights (n : nat) (weights : option (list Q))
  : option (list Q) :=
  match weights with
  | Some (w :: ws) => Some (w :: ws)
  | _ =>
      if (n =? 0)%nat then None
      else Some (replicate n (1 / inject_Z (Z.of_nat n))%Q)
  end.

(** [_weighted_fusion] *)
Definition _weighted_fusion (result_lists : list (list (SearchResult Q D)))
    (weights : option (list Q)) : option (list (SearchResult Q D)) :=
  weights ← default_weights (length result_lists) weights;
  let normalized_lists := map normalize result_lists in
  let entries :=
    concat
      (map (fun lw : list (SearchResult Q D) * Q =>
              map (fun result => (chunk_id result, (score result * lw.2)%Q, result))
                  lw.1)
           (zip normalized_lists weights)) in
  let '(combined_scores, all_results) := accumulate entries in
  fuse_loop (sort_desc Qle_bool snd combined_scores) all_results 0.

(** [_fuse_results]; [None] also for the [ValueError] of an unknown
    method. *)
Definition _fuse_results (result_lists : list (list (SearchResult Q D)))
    (weights : option (list Q)) (fusion_method : string)
  : option (list (SearchResult Q D)) :=
  if String.eqb fusion_method "rrf" then _reciprocal_rank_fusion result_lists 60
  else if String.eqb fusion_method "weighted"
       then _weighted_fusion result_lists weights
       else None.
End RankFusion.

(** *** Vocabulary of the properties *)

(** A ranked list: the [rank] of each result is its position, from one. *)
Definition ranked {Sc D} (l : list (SearchResult Sc D)) : Prop :=
  forall i x, l !! i = Some x -> rank x = i + 1.

(** The chunk ids of the input lists. *)
Definition id_lists {Sc D} (result_lists : list (list (SearchResult Sc D)))
  : list (list pyval) :=
  map (map chunk_id) result_lists.

(** *** Sample data *)

Definition sample_result (cid text src : string) (s : Q) (n : nat)
  : SearchResult Q string :=
  {| chunk_id := PStr cid; content := text; metadata := ∅; score := s;
     rank := n; source := src; match_details := Some src |}.

Definition sample_lists : list (list (SearchResult Q string)) :=
  [ [ sample_result "c-renta" "La renta mensual es de 3000 euros" "vector" (9 # 10) 1;
      sample_result "c-duracion" "La duracion es de 5 anos" "vector" (5 # 10) 2 ];
    [ sample_result "c-duracion" "duracion (copia lexica)" "keyword" (3 # 1) 1;
      sample_result "c-penal" "Penalizacion del 10% de interes" "keyword" (2 # 1) 2 ] ].

Definition sample_constant_list : list (SearchResult Q string) :=
  [ sample_result "c-renta" "La renta mensual es de 3000 euros" "keyword" (1 # 2) 1;
    sample_result "c-penal" "Penalizacion del 10% de interes" "keyword" (2 # 4) 2 ].

(** Every word of the query (lower-cased, punctuation stripped) is a
    stopword; an empty query has no words. *)
Definition only_stopwords (query : string) : Prop :=
  Forall (fun w => mem w stopwords = true) (split (strip_punct (lower query))).

(** No boost keywords: the argument is absent or an empty list. *)
Definition no_boost (boost_keywords : option (list string)) : Prop :=
  boost_keywords = None \/ boost_keywords = Some [].

Definition sample_engine : Engine (list Q) :=
  init (Some (VectorStore.store_of [VectorStore.chunk_renta; VectorStore.chunk_servicio])).

(** *** Vector search and reranking *)

(** The [match_details] written by [_vector_search] and by
    [_rerank_results]. *)
Record VectorDetails : Type := { vector_score : Q }.

Record RerankDetails : Type := {
  rd_original_score : option Q;
  rd_rerank_score : option Q
}.

Section VectorMode.
Context {Vec : Type}.
Variable embed_query : string -> Vec.
Variable index_search : list Vec -> Vec -> nat -> list (Q * Z).
Variable settings : VectorStore.SearchConfig.

(** [_vector_search]; [None] when [vector_store.search] raises. *)
Definition _vector_search (e : Engine Vec) (query : string) (top_k : nat)
    (filters : option (gmap string pyval))
  : option (list (SearchResult Q VectorDetails)) :=
  match vector_store e with
  | None => Some []
  | Some vs =>
      raw_results ← VectorStore.search embed_query index_search settings vs query
                                       (Some (top_k * 2)) filters;
      Some (map (fun ir : nat * VectorStore.Result =>
                   {| chunk_id := VectorStore.chunk_id ir.2;
                      content := VectorStore.content ir.2;
                      metadata := VectorStore.metadata ir.2;
                      score := VectorStore.score ir.2;
                      rank := ir.1 + 1;
                      source := "vector";
                      match_details :=
                        Some {| vector_score := VectorStore.score ir.2 |} |})
                (enumerate (take top_k raw_results)))
  end.
End VectorMode.

(** [docs_for_rerank]: the dict handed to the store's reranker. *)
Definition doc_for_rerank {D} (r : SearchResult Q D) : VectorStore.Result :=
  {| VectorStore.chunk_id := chunk_id r;
     VectorStore.content := content r;
     VectorStore.metadata := metadata r;
     VectorStore.score := score r;
     VectorStore.rank := None;
     VectorStore.match_count := None;
     VectorStore.original_score := None;
     VectorStore.rerank_score := None;
     VectorStore.rrf_score := None |}.

(** [_rerank_results]; [None] is the [AttributeError] of a missing store. *)
Definition _rerank_results {Vec D} (e : Engine Vec) (query : string)
    (results : list (SearchResult Q D))
  : option (list (SearchResult Q RerankDetails)) :=
  match results with
  | [] => Some []
  | _ :: _ =>
      vs ← vector_store e;
      let docs_for_rerank := map doc_for_rerank results in
      let reranked := VectorStore._rerank_results vs query docs_for_rerank in
      Some (map (fun idoc : nat * VectorStore.Result =>
                   {| chunk_id := VectorStore.chunk_id idoc.2;
                      content := VectorStore.content idoc.2;
                      metadata := VectorStore.metadata idoc.2;
                      score := VectorStore.score idoc.2;
                      rank := idoc.1 + 1;
                      source := "hybrid-reranked";
                      match_details :=
                        Some {| rd_original_score := VectorStore.original_score idoc.2;
                                rd_rerank_score := VectorStore.rerank_score idoc.2 |} |})
                (enumerate reranked))
  end.

(** *** Further vocabulary *)

(** The characters of a string. *)
Definition chars (s : string) : list ascii := list_ascii_of_string s.

(** The document [_get_all_documents] builds for a chunk added through
    [VectorStore.add_chunks]. *)
Definition doc_of_chunk (c : VectorStore.Chunk) : Doc :=
  {| d_chunk_id := PStr (VectorStore.c_chunk_id c);
     d_content := VectorStore.c_content c;
     d_metadata :=
       <["chunk_id" := PStr (VectorStore.c_chunk_id c)]> (VectorStore.c_metadata c) |}.

(** The tokens [_keyword_search] scores with. *)
Definition search_tokens (query : string) (boost_keywords : option (list string))
  : list string :=
  match boost_keywords with
  | Some (kw :: kws) => _tokenize (lower query) ++ map lower (kw :: kws)
  | _ => _tokenize (lower query)
  end.

(** What fusion and reranking leave alone in a result. *)
Definition identity {Sc D} (r : SearchResult Sc D) : pyval * string * gmap string pyval :=
  (chunk_id r, content r, metadata r).

Definition with_store {Vec} (e : Engine Vec) (vs : VectorStore.Store Vec) : Engine Vec :=
  {| vector_store := Some vs; bm25_k1 := bm25_k1 e; bm25_b := bm25_b e;
     avg_doc_length := avg_doc_length e; total_docs := total_docs e;
     idf_cache := idf_cache e |}.

(** The IDF cache holds [v] for [t]. *)
Definition cached {Vec} (e : Engine Vec) (t : string) (v : R) : Prop :=
  od_get (idf_cache e) t = Some v.

(** *** Vocabulary of weighted fusion *)

(** Min-max scaling of a score between [lo] and [hi]. *)
Definition min_max (lo hi x : Q) : Q := ((x - lo) / (hi - lo))%Q.

(** [lo] and [hi] are the smallest and the largest score of [L]. *)
Definition score_range {D} (L : list (SearchResult Q D)) (lo hi : Q) : Prop :=
  (forall r, r ∈ L -> (lo <= score r)%Q /\ (score r <= hi)%Q)
  /\ (exists r, r ∈ L /\ (score r == lo)%Q)
  /\ (exists r, r ∈ L /\ (score r == hi)%Q).

(** [r] is [x] with the score [s] in place of its own. *)
Definition rescored {D} (s : Q) (x r : SearchResult Q D) : Prop :=
  chunk_id r = chunk_id x /\ content r = content x /\ metadata r = metadata x
  /\ rank r = rank x /\ source r = source x /\ match_details r = match_details x
  /\ score r = s.

(** The weights in force for [n] lists: the ones given, or [1 / n] each. *)
Definition weights_in_force (n : nat) (weights : option (list Q)) (ws : list Q)
  : Prop :=
  match weights with
  | Some (w :: ws') => ws = w :: ws'
  | _ => ws = replicate n (1 / inject_Z (Z.of_nat n))%Q
  end.

(** The weighted combination for chunk id [c]: over the lists paired with
    their weights, the sum of [score * weight] of the results with that id. *)
Definition weighted_score {D} (c : pyval)
    (scored_lists : list (list (SearchResult Q D))) (ws : list Q) : Q :=
  Qsum (map (fun lw : list (SearchResult Q D) * Q =>
               Qsum (map (fun x => (score x * lw.2)%Q)
                         (List.filter (fun x => bool_decide (chunk_id x = c)) lw.1)))
            (zip scored_lists ws)).

Definition sample_spread_list : list (SearchResult Q string) :=
  [ sample_result "c-renta" "La renta mensual es de 3000 euros" "keyword" (3 # 1) 1;
    sample_result "c-penal" "Penalizacion del 10% de interes" "keyword" (1 # 1) 2 ].
End HybridSearch.

(** ** [src/retrieval/reranker.py]: class [AdvancedReranker] *)

Module Reranker.
Import Py.

(** A candidate document: a dict with a mandatory ['content'] and optional
    ['score'], ['chunk_id'] and ['metadata']. *)
Record Document : Type := {
  d_content : string;
  d_score : option Q;
  d_chunk_id : option pyval;
  d_metadata : option (gmap string pyval)
}.

Record RerankResult : Type := {
  chunk_id : pyval;
  content : string;
  metadata : gmap string pyval;
  original_score : Q;
  rerank_score : Q;
  combined_score : Q;
  original_rank : nat;
  new_rank : nat
}.

(** Cache keys: the string [f"{hash(query)}_{hash(content_preview)}"],
    determined by the two hash values. *)
Definition CacheKey : Type := (Z * Z)%type.

Record AdvancedReranker : Type := {
  model : option VectorStore.Predictor;
  batch_size : nat;
  max_length : nat;
  combine_method : string;
  weight_original : Q;
  weight_rerank : Q;
  cache : list (CacheKey * Q);
  max_cache_size : nat
}.

(** [__init__], after [_load_model] produced [m]. *)
Definition init (m : option VectorStore.Predictor) : AdvancedReranker :=
  {| model := m; batch_size := 32; max_length := 512;
     combine_method := "weighted";
     weight_original := 3 # 10; weight_rerank := 7 # 10;
     cache := []; max_cache_size := 1000 |}.

Definition with_cache (st : AdvancedReranker) (c : list (CacheKey * Q))
  : AdvancedReranker :=
  {| model := model st; batch_size := batch_size st; max_length := max_length st;
     combine_method := combine_method st;
     weight_original := weight_original st; weight_rerank := weight_rerank st;
     cache := c; max_cache_size := max_cache_size st |}.

(** [1 / x]; [None] is [ZeroDivisionError]. *)
Definition recip (x : Q) : option Q :=
  if Qeq_bool x 0 then None else Some (1 / x)%Q.

(** [_combine_scores] *)
Definition _combine_scores (st : AdvancedReranker) (original_score rerank_score : Q)
  : option Q :=
  if String.eqb (combine_method st) "weighted"
  then Some (weight_original st * original_score + weight_rerank st * rerank_score)%Q
  else if String.eqb (combine_method st) "multiply"
  then Some (original_score * rerank_score)%Q
  else if String.eqb (combine_method st) "rrf"
  then
    io ← recip original_score;
    a ← recip (60 + io)%Q;
    ir ← recip rerank_score;
    b ← recip (60 + ir)%Q;
    Some (a + b)%Q
  else Some rerank_score.

Definition set_new_rank (n : nat) (r : RerankResult) : RerankResult :=
  {| chunk_id := chunk_id r; content := content r; metadata := metadata r;
     original_score := original_score r; rerank_score := rerank_score r;
     combined_score := combined_score r; original_rank := original_rank r;
     new_rank := n |}.

(** [results.sort(key=lambda x: x.combined_score, reverse=True)] followed by
    [for i, result in enumerate(results): result.new_rank = i + 1]. *)
Definition sort_and_rank (results : list RerankResult) : list RerankResult :=
  map (fun ir => set_new_rank (ir.1 + 1) ir.2)
      (enumerate (sort_desc Qle_bool combined_score results)).

(** The score of [_fallback_rerank] for one document. *)
Definition fallback_score (query : string) (query_terms : list string)
    (content : string) : Q :=
  let content_lower := lower content in
  let matches := count (fun term => contains term content_lower) query_terms in
  let matches := if contains (lower query) content_lower then matches * 2 else matches in
  match query_terms with
  | [] => 0
  | _ :: _ => Z.of_nat matches # Pos.of_nat (length query_terms)
  end.

(** The loop of [_fallback_rerank] over [enumerate(documents)]. *)
Fixpoint fallback_loop (st : AdvancedReranker) (query : string)
    (query_terms : list string) (docs : list (nat * Document))
  : option (list RerankResult) :=
  match docs with
  | [] => Some []
  | (i, doc) :: rest =>
      let rerank_score := fallback_score query query_terms (d_content doc) in
      combined ← _combine_scores st (default 0%Q (d_score doc)) rerank_score;
      tl ← fallback_loop st query query_terms rest;
      Some ({| chunk_id := default (PStr (str_of_nat i)) (d_chunk_id doc);
               content := d_content doc;
               metadata := default ∅ (d_metadata doc);
               original_score := default 0%Q (d_score doc);
               rerank_score := rerank_score;
               combined_score := combined;
               original_rank := i + 1;
               new_rank := 0 |} :: tl)
  end.

(** [if top_k: results = results[:top_k]] *)
Definition truncate {A} (top_k : option nat) (l : list A) : list A :=
  match top_k with
  | Some (S n) => take (S n) l
  | _ => l
  end.

(** [_fallback_rerank] *)
Definition _fallback_rerank (st : AdvancedReranker) (query : string)
    (documents : list Document) (top_k : option nat) : option (list RerankResult) :=
  let query_terms := dedup (split (lower query)) in
  results ← fallback_loop st query query_terms (enumerate documents);
  Some (truncate top_k (sort_and_rank results)).

Section Cache.
(** Python's [hash] on strings. *)
Variable hash : string -> Z.

(** [_get_cache_key] *)
Definition _get_cache_key (query content : string) : CacheKey :=
  (hash query, hash (str_take 100 content)).

(** [_update_cache]; [int(self.max_cache_size * 0.2)] is
    [max_cache_size / 5] rounded down. *)
Definition _update_cache (st : AdvancedReranker) (key : CacheKey) (score : Q)
  : AdvancedReranker :=
  let c :=
    if (max_cache_size st <=? length (cache st))%nat
    then
      let keys_to_remove := take (max_cache_size st / 5) (od_keys (cache st)) in
      foldl od_del (cache st) keys_to_remove
    else cache st in
  with_cache st (od_set c key score).

(** The first loop of [rerank]: the cached scores by position, the pairs
    to score and their positions. *)
Fixpoint scan (st : AdvancedReranker) (query : string) (use_cache : bool)
    (docs : list (nat * Document))
  : list (nat * Q) * list (string * string) * list nat :=
  match docs with
  | [] => ([], [], [])
  | (i, doc) :: rest =>
      let '(cached_scores, pairs, uncached_indices) := scan st query use_cache rest in
      match (if use_cache
             then od_get (cache st) (_get_cache_key query (d_content doc))
             else None) with
      | Some s => ((i, s) :: cached_scores, pairs, uncached_indices)
      | None =>
          (cached_scores,
           (query, str_take (max_length st * 2) (d_content doc)) :: pairs,
           i :: uncached_indices)
      end
  end.

Fixpoint batches_fuel {A} (fuel n : nat) (l : list A) : list (list A) :=
  match fuel with
  | 0 => []
  | S fuel' =>
      match l with
      | [] => []
      | _ :: _ => take n l :: batches_fuel fuel' n (drop n l)
      end
  end.

(** [[pairs[i:i + n] for i in range(0, len(pairs), n)]], for [n >= 1]. *)
Definition batches {A} (n : nat) (l : list A) : list (list A) :=
  batches_fuel (length l) n l.

(** The batch loop: [None] when a [predict] call raises. *)
Fixpoint predict_batches (predict : VectorStore.Predictor)
    (bs : list (list (string * string))) : option (list Q) :=
  match bs with
  | [] => Some []
  | b :: rest =>
      batch_scores ← predict b;
      tl ← predict_batches predict rest;
      Some (batch_scores ++ tl)
  end.

(** [for idx, score in zip(uncached_indices, all_scores)]: the cache
    writes; [false] is the [IndexError] of [documents[idx]], which leaves
    the cache as written so far. *)
Fixpoint store_scores (st : AdvancedReranker) (query : string) (use_cache : bool)
    (documents : list Document) (todo : list (nat * Q)) : AdvancedReranker * bool :=
  match todo with
  | [] => (st, true)
  | (idx, s) :: rest =>
      match documents !! idx with
      | None => (st, false)
      | Some doc =>
          let st' :=
            if use_cache
            then _update_cache st (_get_cache_key query (d_content doc)) s
            else st in
          store_scores st' query use_cache documents rest
      end
  end.

(** [l.index(x)]; [None] is [ValueError]. *)
Fixpoint index_of (x : nat) (l : list nat) : option nat :=
  match l with
  | [] => None
  | y :: l' => if (x =? y)%nat then Some 0 else S <$> index_of x l'
  end.

(** The loop of [rerank] that builds the [RerankResult]s. *)
Fixpoint build (st : AdvancedReranker) (cached_scores : list (nat * Q))
    (uncached_indices : list nat) (all_scores : list Q)
    (docs : list (nat * Document)) : option (list RerankResult) :=
  match docs with
  | [] => Some []
  | (i, doc) :: rest =>
      rerank_score ←
        match od_get cached_scores i with
        | Some s => Some s
        | None => idx_in_scores ← index_of i uncached_indices;
                  all_scores !! idx_in_scores
        end;
      combined ← _combine_scores st (default 0%Q (d_score doc)) rerank_score;
      tl ← build st cached_scores uncached_indices all_scores rest;
      Some ({| chunk_id := default (PStr (str_of_nat i)) (d_chunk_id doc);
               content := d_content doc;
               metadata := default ∅ (d_metadata doc);
               original_score := default 0%Q (d_score doc);
               rerank_score := rerank_score;
               combined_score := combined;
               original_rank := i + 1;
               new_rank := 0 |} :: tl)
  end.

(** [rerank]: the result ([None] when an exception escapes) and the
    reranker with its cache as the call leaves it. *)
Definition rerank (st : AdvancedReranker) (query : string)
    (documents : list Document) (top_k : option nat)
    (return_all use_cache : bool)
  : option (list RerankResult) * AdvancedReranker :=
  match model st, documents with
  | None, _ | _, [] => (_fallback_rerank st query documents top_k, st)
  | Some predict, _ :: _ =>
      let '(cached_scores, pairs, uncached_indices) :=
        scan st query use_cache (enumerate documents) in
      let scored : option (list Q) * AdvancedReranker :=
        match pairs with
        | [] => (Some [], st)
        | _ :: _ =>
            if (batch_size st =? 0)%nat then (None, st)
            else
              match predict_batches predict (batches (batch_size st) pairs) with
              | None => (None, st)
              | Some all_scores =>
                  let '(st', ok) :=
                    store_scores st query use_cache documents
                                 (zip uncached_indices all_scores) in
                  (if ok then Some all_scores else None, st')
              end
        end in
      match scored with
      | (None, st') => (_fallback_rerank st' query documents top_k, st')
      | (Some all_scores, st') =>
          match build st' cached_scores uncached_indices all_scores
                      (enumerate documents) with
          | None => (None, st')
          | Some rerank_results =>
              let rerank_results := sort_and_rank rerank_results in
              (Some (if return_all then rerank_results
                     else truncate top_k rerank_results), st')
          end
      end
  end.
End Cache.

(** *** Vocabulary of the properties *)

(** What the two building loops have in common: the result at position
    [j] comes from the document at position [j]. *)
Definition made_from (st : AdvancedReranker) (id : nat * Document) (r : RerankResult)
  : Prop :=
  original_rank r = id.1 + 1
  /\ chunk_id r = default (PStr (str_of_nat id.1)) (d_chunk_id id.2)
  /\ content r = d_content id.2
  /\ metadata r = default ∅ (d_metadata id.2)
  /\ original_score r = default 0%Q (d_score id.2)
  /\ _combine_scores st (original_score r) (rerank_score r) = Some (combined_score r).

Definition by_original_rank (a b : RerankResult) : Prop :=
  (original_rank a < original_rank b)%nat.

(** The order invariant of a ranked list, by positions. *)
Definition rank_order (out : list RerankResult) : Prop :=
  (forall i a, out !! i = Some a -> new_rank a = i + 1)
  /\ forall i j a b, out !! i = Some a -> out !! j = Some b -> (i < j)%nat ->
       (combined_score b <= combined_score a)%Q
       /\ ((combined_score a == combined_score b)%Q ->
           (original_rank a < original_rank b)%nat).

(** The distinct terms of a query, how many of them occur in a content,
    and the fraction they make. *)
Definition query_terms (query : string) : list string := dedup (split (lower query)).



(** The exact query phrase occurs in the content. *)
Definition phrase_contained (query content : string) : bool :=
  contains (lower query) (lower content).

(** The cache holds at most [n] entries, [n] being its configured size. *)
Definition cache_ok (n : nat) (st : AdvancedReranker) : Prop :=
  max_cache_size st = n /\ (length (cache st) <= n)%nat.

(** One call of [rerank], and a sequence of calls on one reranker. *)
Record Call : Type := {
  call_query : string;
  call_documents : list Document;
  call_top_k : option nat;
  call_return_all : bool;
  call_use_cache : bool
}.

Definition rerank_calls (hash : string -> Z) (st : AdvancedReranker)
    (calls : list Call) : AdvancedReranker :=
  foldl (fun st c =>
           (rerank hash st (call_query c) (call_documents c) (call_top_k c)
                   (call_return_all c) (call_use_cache c)).2)
        st calls.

(** *** Sample data *)

Definition sample_hash (s : string) : Z := Z.of_nat (String.length s).

Definition sample_model : VectorStore.Predictor :=
  fun pairs => Some (map (fun p => Z.of_nat (String.length p.2) # 100) pairs).

Definition sample_documents : list Document :=
  [ {| d_content := "La duracion es de 5 anos"; d_score := Some (4 # 10);
       d_chunk_id := Some (PStr "c-duracion"); d_metadata := None |};
    {| d_content := "La renta mensual es de 3000 euros"; d_score := Some (3 # 10);
       d_chunk_id := Some (PStr "c-renta"); d_metadata := None |};
    {| d_content := "Penalizacion del 10% de interes"; d_score := None;
       d_chunk_id := None; d_metadata := None |} ].

Definition sample_call : Call :=
  {| call_query := "renta mensual"; call_documents := sample_documents;
     call_top_k := Some 2; call_return_all := false; call_use_cache := true |}.

Definition sample_reranker : AdvancedReranker := init (Some sample_model).

Definition sample_reranked : option (list RerankResult) * AdvancedReranker :=
  rerank sample_hash sample_reranker "renta mensual" sample_documents (Some 2)
         false true.

(** A reranker switched to the reciprocal combination, and one with a cache
    of four entries that is full. *)
Definition reciprocal_reranker : AdvancedReranker :=
  {| model := None; batch_size := 32; max_length := 512; combine_method := "rrf";
     weight_original := 3 # 10; weight_rerank := 7 # 10;
     cache := []; max_cache_size := 1000 |}.

Definition small_full_reranker : AdvancedReranker :=
  {| model := None; batch_size := 32; max_length := 512; combine_method := "weighted";
     weight_original := 3 # 10; weight_rerank := 7 # 10;
     cache := [((1, 1)%Z, 0%Q); ((2, 2)%Z, 0%Q); ((3, 3)%Z, 0%Q); ((4, 4)%Z, 0%Q)];
     max_cache_size := 4 |}.

(** *** Batches of queries and feature scores *)

Section Batch.
Variable hash : string -> Z.

(** The loop of [batch_rerank] over [zip(queries, document_lists)]; an
    exception of [rerank] escapes and leaves the cache as it is by then. *)
Fixpoint batch_loop (st : AdvancedReranker)
    (todo : list (string * list Document)) (top_k : option nat)
  : option (list (list RerankResult)) * AdvancedReranker :=
  match todo with
  | [] => (Some [], st)
  | (query, docs) :: rest =>
      match rerank hash st query docs top_k false true with
      | (None, st') => (None, st')
      | (Some reranked, st') =>
          let '(results, st'') := batch_loop st' rest top_k in
          (cons reranked <$> results, st'')
      end
  end.

(** [batch_rerank] *)
Definition batch_rerank (st : AdvancedReranker) (queries : list string)
    (document_lists : list (list Document)) (top_k : option nat)
  : option (list (list RerankResult)) * AdvancedReranker :=
  batch_loop st (zip queries document_lists) top_k.
End Batch.

(** [b.find(a)]: the first position at which [a] occurs in [b]; [None]
    stands for [-1]. *)
Fixpoint find (a b : string) : option nat :=
  if String.prefix a b then Some 0
  else match b with
       | EmptyString => None
       | String _ b' => S <$> find a b'
       end.

(** The dict [get_feature_scores] returns. *)
Record Features : Type := {
  length_ratio : Q;
  term_overlap : Q;
  first_match_position : Q;
  exact_match : Q
}.

(** The loop over the query terms that keeps the smallest position found;
    [None] is [float('inf')]. *)
Definition first_match_step (document_lower : string) (first_match : option nat)
    (term : string) : option nat :=
  match find term document_lower with
  | Some pos =>
      match first_match with
      | Some m => if (pos <? m)%nat then Some pos else Some m
      | None => Some pos
      end
  | None => first_match
  end.

(** [get_feature_scores] *)
Definition get_feature_scores (query document : string) : Features :=
  let query_terms := dedup (split (lower query)) in
  let doc_terms := dedup (split (lower document)) in
  let first_match := foldl (first_match_step (lower document)) None query_terms in
  {| length_ratio := Z.of_nat (String.length document) # 1000;
     term_overlap :=
       match query_terms with
       | [] => 0
       | _ :: _ => Z.of_nat (count (fun term => mem term doc_terms) query_terms)
                   # Pos.of_nat (length query_terms)
       end;
     first_match_position :=
       match first_match with
       | Some pos => 1 # Pos.of_nat (pos + 1)
       | None => 0
       end;
     exact_match := if contains (lower query) (lower document) then 1 else 0 |}.

(** *** Further vocabulary *)

(** Every document of the list has a cached score for the query. *)
Definition all_cached (hash : string -> Z) (st : AdvancedReranker) (query : string)
    (documents : list Document) : Prop :=
  forall doc, doc ∈ documents ->
    is_Some (od_get (cache st) (_get_cache_key hash query (d_content doc))).

(** The result [r] presents the document at its original rank. *)
Definition presents (st : AdvancedReranker) (documents : list Document)
    (r : RerankResult) : Prop :=
  exists doc,
    documents !! (original_rank r - 1) = Some doc
    /\ (1 <= original_rank r)%nat
    /\ chunk_id r = default (PStr (str_of_nat (original_rank r - 1))) (d_chunk_id doc)
    /\ content r = d_content doc
    /\ metadata r = default ∅ (d_metadata doc)
    /\ original_score r = default 0%Q (d_score doc)
    /\ _combine_scores st (original_score r) (rerank_score r) = Some (combined_score r).

(** A document that carries no score, or the score zero. *)
Definition scoreless (doc : Document) : Prop := (default 0%Q (d_score doc) == 0)%Q.

Definition with_method (st : AdvancedReranker) (m : string) : AdvancedReranker :=
  {| model := model st; batch_size := batch_size st; max_length := max_length st;
     combine_method := m;
     weight_original := weight_original st; weight_rerank := weight_rerank st;
     cache := cache st; max_cache_size := max_cache_size st |}.

Definition with_model (st : AdvancedReranker) (m : option VectorStore.Predictor)
  : AdvancedReranker :=
  {| model := m; batch_size := batch_size st; max_length := max_length st;
     combine_method := combine_method st;
     weight_original := weight_original st; weight_rerank := weight_rerank st;
     cache := cache st; max_cache_size := max_cache_size st |}.

(** A model that is never reached. *)
Definition failing_model : VectorStore.Predictor := fun _ => None.

(** A reranker holding the scores of the sample documents for the sample
    query. *)
Definition warm_reranker : AdvancedReranker :=
  (rerank sample_hash (init (Some sample_model)) "renta mensual" sample_documents
          None false true).2.

(** The score the cache holds for a content ([0] when it holds none). *)
Definition cached_score (hash : string -> Z) (st : AdvancedReranker)
    (query content : string) : Q :=
  default 0%Q (od_get (cache st) (_get_cache_key hash query content)).
End Reranker.

(** * Properties *)

(** ** The builtins *)

Module PyFacts.
Import Py.

Section SortFacts.
Context {A K : Type} (leb : K -> K -> bool) (key : A -> K).
Hypothesis leb_total : forall a b, leb a b = true \/ leb b a = true.
Hypothesis leb_trans :
  forall a b c, leb a b = true -> leb b c = true -> leb a c = true.

Lemma insert_desc_perm x l : Permutation (insert_desc leb key x l) (x :: l).
Proof.
  induction l as [|y l IH]; simpl; [reflexivity|].
  destruct (leb (key y) (key x)); [reflexivity|].
  rewrite IH. apply perm_swap.
Qed.

Lemma sort_desc_perm l : Permutation (sort_desc leb key l) l.
Proof.
  induction l as [|x l IH]; simpl; [reflexivity|].
  rewrite insert_desc_perm. now constructor.
Qed.

Lemma sort_desc_length l : length (sort_desc leb key l) = length l.
Proof. apply Permutation_length, sort_desc_perm. Qed.

Lemma insert_desc_stable (lt : A -> A -> Prop) x l :
  Forall (lt x) l ->
  StronglySorted (before_stable leb key lt) l ->
  StronglySorted (before_stable leb key lt) (insert_desc leb key x l).
Proof.
  intros Hx Hs. induction Hs as [|y l Hs IH Hy]; simpl.
  - repeat constructor.
  - destruct (leb (key y) (key x)) eqn:E.
    + constructor; [now constructor|].
      constructor.
      * split; [exact E | intros _; now inversion Hx].
      * inversion Hx as [|? ? _ Hxl]; subst.
        rewrite Forall_forall in Hy, Hxl |- *. intros z Hz. split.
        -- unfold before. destruct (Hy z Hz) as [Hyz _].
           exact (leb_trans _ _ _ Hyz E).
        -- intros _. now apply Hxl.
    + inversion Hx as [|? ? _ Hxl]; subst.
      constructor; [now apply IH|].
      rewrite Forall_forall. intros z Hz.
      rewrite insert_desc_perm in Hz.
      apply elem_of_cons in Hz as [->|Hz].
      * split; [|intros E'; congruence].
        unfold before. destruct (leb_total (key y) (key x)); congruence.
      * rewrite Forall_forall in Hy. now apply Hy.
Qed.

(** A stable descending sort: descending by key, and where keys tie, in
    the order [lt] the input was in. *)
Lemma sort_desc_stable (lt : A -> A -> Prop) l :
  StronglySorted lt l ->
  StronglySorted (before_stable leb key lt) (sort_desc leb key l).
Proof.
  induction 1 as [|x l Hs IH Hx]; simpl; [constructor|].
  apply insert_desc_stable; [|exact IH].
  rewrite Forall_forall in Hx |- *. intros z Hz. apply Hx.
  now rewrite sort_desc_perm in Hz.
Qed.

Lemma sort_desc_sorted l : StronglySorted (before leb key) (sort_desc leb key l).
Proof.
  induction l as [|x l IH]; simpl; [constructor|].
  set (s := sort_desc leb key l) in *. clearbody s.
  induction IH as [|y s Hs IHs Hy]; simpl.
  - repeat constructor.
  - destruct (leb (key y) (key x)) eqn:E.
    + constructor; [now constructor|].
      constructor; [exact E|].
      rewrite Forall_forall in Hy |- *. intros z Hz.
      exact (leb_trans _ _ _ (Hy z Hz) E).
    + constructor; [exact IHs|].
      rewrite Forall_forall. intros z Hz.
      rewrite insert_desc_perm in Hz.
      apply elem_of_cons in Hz as [->|Hz].
      * unfold before. destruct (leb_total (key y) (key x)); congruence.
      * rewrite Forall_forall in Hy. now apply Hy.
Qed.
End SortFacts.

Lemma Qle_bool_total a b : Qle_bool a b = true \/ Qle_bool b a = true.
Proof.
  rewrite !Qle_bool_iff. destruct (Qlt_le_dec a b) as [H|H]; [left|right]; trivial.
  now apply Qlt_le_weak.
Qed.

Lemma Qle_bool_trans a b c :
  Qle_bool a b = true -> Qle_bool b c = true -> Qle_bool a c = true.
Proof. rewrite !Qle_bool_iff. apply Qle_trans. Qed.

(** [StronglySorted] read by positions. *)
Lemma StronglySorted_lookup {A} (R : A -> A -> Prop) (l : list A) i j a b :
  StronglySorted R l -> l !! i = Some a -> l !! j = Some b -> (i < j)%nat -> R a b.
Proof.
  intros Hs. revert i j. induction Hs as [|x l Hs IH Hx]; intros i j Hi Hj Hij.
  - discriminate.
  - destruct j as [|j]; [lia|]. simpl in Hj.
    destruct i as [|i]; simpl in Hi.
    + injection Hi as <-. rewrite Forall_forall in Hx. apply Hx.
      eapply list_elem_of_lookup_2; eauto.
    + apply (IH i j); trivial. lia.
Qed.

Lemma StronglySorted_take {A} (R : A -> A -> Prop) (l : list A) n :
  StronglySorted R l -> StronglySorted R (take n l).
Proof.
  intros Hs. revert n. induction Hs as [|x l Hs IH Hx]; intros [|n]; simpl;
    try constructor; auto.
  rewrite Forall_forall in Hx |- *. intros z Hz. apply Hx.
  apply elem_of_take in Hz as (i & Hi & _).
  eapply list_elem_of_lookup_2; eauto.
Qed.

Section Enumerate.
Context {A : Type}.

Lemma enumerate_from_lookup (l : list A) i j :
  enumerate_from i l !! j = (fun x => (i + j, x)) <$> l !! j.
Proof.
  revert i j. induction l as [|x l IH]; intros i [|j]; simpl; trivial.
  - now rewrite Nat.add_0_r.
  - rewrite IH. destruct (l !! j); simpl; trivial. do 2 f_equal. lia.
Qed.

Lemma enumerate_lookup (l : list A) j :
  enumerate l !! j = (fun x => (j, x)) <$> l !! j.
Proof. apply enumerate_from_lookup. Qed.

Lemma enumerate_from_length (l : list A) i :
  length (enumerate_from i l) = length l.
Proof. revert i. induction l; intros; simpl; auto. Qed.

Lemma enumerate_from_snd (l : list A) i : map snd (enumerate_from i l) = l.
Proof. revert i. induction l; intros; simpl; f_equal; auto. Qed.


Lemma enumerate_from_app (l1 l2 : list A) i :
  enumerate_from i (l1 ++ l2)
  = enumerate_from i l1 ++ enumerate_from (i + length l1) l2.
Proof.
  revert i. induction l1 as [|x l1 IH]; intros i; simpl.
  - now rewrite Nat.add_0_r.
  - rewrite IH. do 3 f_equal. lia.
Qed.
End Enumerate.

Section ODictFacts.
Context {K V : Type} `{EqDecision K}.
Implicit Types d : list (K * V).

Lemma od_get_set d k v k' :
  od_get (od_set d k v) k' = if decide (k' = k) then Some v else od_get d k'.
Proof.
  induction d as [|[k0 v0] d IH]; simpl.
  - destruct (decide (k' = k)); trivial.
  - destruct (decide (k = k0)) as [->|Hne]; simpl.
    + destruct (decide (k' = k0)); trivial.
    + destruct (decide (k' = k0)) as [->|Hne'].
      * destruct (decide (k0 = k)); [congruence|trivial].
      * exact IH.
Qed.

Lemma od_set_length_le d k v : (length (od_set d k v) <= S (length d))%nat.
Proof.
  induction d as [|[k0 v0] d IH]; simpl; [lia|].
  destruct (decide (k = k0)); simpl; lia.
Qed.

Lemma od_get_None_keys d k : od_get d k = None <-> ~ In k (od_keys d).
Proof.
  induction d as [|[k0 v0] d IH]; simpl; [tauto|].
  destruct (decide (k = k0)) as [->|Hne].
  - split; [discriminate|]. intros H. exfalso. apply H. now left.
  - rewrite IH. split; [intros H [E|E]; [congruence|tauto] | tauto].
Qed.

Lemma od_keys_set d k v :
  od_keys (od_set d k v)
  = match od_get d k with Some _ => od_keys d | None => od_keys d ++ [k] end.
Proof.
  induction d as [|[k0 v0] d IH]; simpl; trivial.
  destruct (decide (k = k0)) as [->|Hne]; simpl; trivial.
  rewrite IH. now destruct (od_get d k).
Qed.

Lemma od_keys_set_NoDup d k v : NoDup (od_keys d) -> NoDup (od_keys (od_set d k v)).
Proof.
  intros Hd. rewrite od_keys_set. destruct (od_get d k) eqn:E; trivial.
  apply NoDup_app. split; [exact Hd|]. split.
  - intros x Hx Hx'. apply list_elem_of_In in Hx, Hx'.
    destruct Hx' as [<-|[]]. apply od_get_None_keys in E. tauto.
  - apply NoDup_singleton.
Qed.

Lemma od_get_In d k v : NoDup (od_keys d) -> In (k, v) d -> od_get d k = Some v.
Proof.
  induction d as [|[k0 v0] d IH]; simpl; [tauto|].
  intros Hd [E|Hin].
  - injection E as -> ->. now destruct (decide (k = k)).
  - apply NoDup_cons in Hd as [Hk Hd].
    destruct (decide (k = k0)) as [->|Hne]; [|auto].
    exfalso. apply Hk. apply list_elem_of_In.
    change k0 with (fst (k0, v)). now apply in_map.
Qed.

Lemma od_get_Some_In d k v : od_get d k = Some v -> In (k, v) d.
Proof.
  induction d as [|[k0 v0] d IH]; simpl; [discriminate|].
  destruct (decide (k = k0)) as [->|Hne]; [|auto].
  intros [= ->]. now left.
Qed.

(** Deleting the first [n] keys, one after the other, drops the first
    [n] entries. *)
Lemma od_del_first_keys d n : foldl od_del d (take n (od_keys d)) = drop n d.
Proof.
  revert n. induction d as [|[k0 v0] d IH]; intros [|n]; simpl; trivial.
  destruct (decide (k0 = k0)); [|congruence]. apply IH.
Qed.
End ODictFacts.
End PyFacts.

(** ** The reranker *)

Module RerankerFacts.
Import Py PyFacts Reranker.

Lemma combine_scores_total st o r :
  combine_method st <> "rrf" -> exists c, _combine_scores st o r = Some c.
Proof.
  intros Hm. unfold _combine_scores.
  destruct (String.eqb (combine_method st) "weighted"); [eauto|].
  destruct (String.eqb (combine_method st) "multiply"); [eauto|].
  destruct (String.eqb_spec (combine_method st) "rrf"); [contradiction|eauto].
Qed.

Lemma fallback_loop_made st query terms docs rs :
  fallback_loop st query terms docs = Some rs ->
  Forall2 (fun id r => made_from st id r
                       /\ rerank_score r = fallback_score query terms (d_content id.2))
          docs rs.
Proof.
  revert rs. induction docs as [|[i doc] docs IH]; simpl; intros rs H.
  - injection H as <-. constructor.
  - destruct (_combine_scores st _ _) as [c|] eqn:Ec; [|discriminate]. simpl in H.
    destruct (fallback_loop st query terms docs) as [tl|]; [|discriminate].
    simpl in H. injection H as <-. constructor; [|now apply IH].
    unfold made_from; simpl. repeat split; trivial.
Qed.

Lemma fallback_loop_total st query terms docs :
  combine_method st <> "rrf" -> exists rs, fallback_loop st query terms docs = Some rs.
Proof.
  intros Hm. induction docs as [|[i doc] docs [tl IH]]; simpl; [eauto|].
  destruct (combine_scores_total st (default 0%Q (d_score doc))
              (fallback_score query terms (d_content doc)) Hm) as [c ->].
  rewrite IH. simpl. eauto.
Qed.

Lemma build_made st cs us scores docs rs :
  build st cs us scores docs = Some rs -> Forall2 (made_from st) docs rs.
Proof.
  revert rs. induction docs as [|[i doc] docs IH]; simpl; intros rs H.
  - injection H as <-. constructor.
  - destruct (match od_get cs i with Some s => Some s | None => _ end) as [s|];
      [|discriminate]. simpl in H.
    destruct (_combine_scores st _ _) as [c|] eqn:Ec; [|discriminate]. simpl in H.
    destruct (build st cs us scores docs) as [tl|]; [|discriminate].
    simpl in H. injection H as <-. constructor; [|now apply IH].
    unfold made_from; simpl. repeat split; trivial.
Qed.

Lemma made_from_sorted st (P : nat * Document -> RerankResult -> Prop) documents rs :
  (forall id r, P id r -> made_from st id r) ->
  Forall2 P (enumerate documents) rs ->
  StronglySorted by_original_rank rs.
Proof.
  intros HP. unfold enumerate. generalize 0%nat as i.
  revert rs. induction documents as [|d ds IH]; intros rs i H; simpl in H.
  - inversion H. constructor.
  - inversion H as [|? r ? rs' Hr Hrs]; subst. constructor; [eapply IH; eauto|].
    apply HP in Hr. destruct Hr as [Hr _]. simpl in Hr.
    assert (Hall : Forall (fun r' => (S i < original_rank r')%nat) rs').
    { clear -HP Hrs. revert Hrs. generalize (S i) as j. revert rs'.
      induction ds as [|d ds IH]; intros rs' j H; simpl in H; inversion H; subst;
        constructor.
      - match goal with Hm : P _ _ |- _ => apply HP in Hm as [Hm _]; simpl in Hm end.
        lia.
      - eapply Forall_impl; [eapply IH; eassumption|]. simpl. intros; lia. }
    eapply Forall_impl; [exact Hall|]. unfold by_original_rank. simpl. intros; lia.
Qed.

Lemma sort_and_rank_lookup rs i a :
  sort_and_rank rs !! i = Some a ->
  exists a0, sort_desc Qle_bool combined_score rs !! i = Some a0
             /\ a = set_new_rank (i + 1) a0.
Proof.
  unfold sort_and_rank. rewrite list_lookup_fmap, enumerate_lookup.
  destruct (sort_desc Qle_bool combined_score rs !! i) as [a0|]; simpl; [|discriminate].
  intros [= <-]. eauto.
Qed.

Lemma sort_and_rank_order rs :
  StronglySorted by_original_rank rs -> rank_order (sort_and_rank rs).
Proof.
  intros Hs. split.
  - intros i a Ha. apply sort_and_rank_lookup in Ha as (a0 & Ha & ->). reflexivity.
  - intros i j a b Ha Hb Hij.
    apply sort_and_rank_lookup in Ha as (a0 & Ha & ->).
    apply sort_and_rank_lookup in Hb as (b0 & Hb & ->). simpl.
    pose proof (sort_desc_stable Qle_bool combined_score Qle_bool_total Qle_bool_trans
                  by_original_rank rs Hs) as Hst.
    destruct (StronglySorted_lookup _ _ _ _ _ _ Hst Ha Hb Hij) as [Hd Ht].
    unfold before in Hd. apply Qle_bool_iff in Hd.
    split; trivial.
    intros E. apply Ht. apply Qle_bool_iff. rewrite E. apply Qle_refl.
Qed.

Lemma rank_order_take out n : rank_order out -> rank_order (take n out).
Proof.
  intros [H1 H2]. split.
  - intros i a Ha. apply lookup_take_Some in Ha as [Ha _]. eauto.
  - intros i j a b Ha Hb Hij.
    apply lookup_take_Some in Ha as [Ha _]. apply lookup_take_Some in Hb as [Hb _].
    eapply H2; eauto.
Qed.

Lemma rank_order_truncate out top_k : rank_order out -> rank_order (truncate top_k out).
Proof.
  intros H. destruct top_k as [[|n]|]; simpl; trivial. now apply rank_order_take.
Qed.

Lemma fallback_rerank_order st query documents top_k out :
  _fallback_rerank st query documents top_k = Some out -> rank_order out.
Proof.
  unfold _fallback_rerank. intros H.
  destruct (fallback_loop st query _ (enumerate documents)) as [rs|] eqn:E;
    [|discriminate].
  simpl in H. injection H as <-.
  apply rank_order_truncate, sort_and_rank_order.
  eapply (made_from_sorted st); [|eapply fallback_loop_made; exact E].
  simpl. intros id r [Hm _]. exact Hm.
Qed.

Lemma rerank_order hash st query documents top_k return_all use_cache out st' :
  rerank hash st query documents top_k return_all use_cache = (Some out, st') ->
  rank_order out.
Proof.
  unfold rerank. intros H.
  destruct (model st) as [predict|];
    [|apply (f_equal fst) in H; cbn [fst] in H; eapply fallback_rerank_order; eauto].
  destruct documents as [|d ds];
    [apply (f_equal fst) in H; cbn [fst] in H; eapply fallback_rerank_order; eauto|].
  destruct (scan hash st query use_cache (enumerate (d :: ds))) as [[cs ps] us].
  match type of H with
  | (match ?scored with _ => _ end) = _ => destruct scored as [[scores|] st1]
  end.
  - destruct (build st1 cs us scores (enumerate (d :: ds))) as [rs|] eqn:E;
      [|discriminate].
    apply (f_equal fst) in H; cbn [fst] in H. injection H as <-.
    assert (Hr : rank_order (sort_and_rank rs)).
    { apply sort_and_rank_order.
      eapply (made_from_sorted st1 (made_from st1));
        [trivial | eapply build_made; exact E]. }
    destruct return_all; [exact Hr | now apply rank_order_truncate].
  - apply (f_equal fst) in H; cbn [fst] in H. eapply fallback_rerank_order; eauto.
Qed.
End RerankerFacts.

Module RerankerClaims.
Import Py PyFacts Reranker RerankerFacts.





(** C6.  In every list [rerank] returns, through the model or through the
    fallback, the result at position [i] has [new_rank = i + 1], and for any
    two results: the one with the larger [combined_score] has the smaller
    [new_rank], and of two with equal [combined_score] the one with the
    smaller [original_rank] has the smaller [new_rank]. *)
Theorem rerank_new_rank_follows_combined_score
    (hash : string -> Z) (st st' : AdvancedReranker) (query : string)
    (documents : list Document) (top_k : option nat) (return_all use_cache : bool)
    (out : list RerankResult) :
  rerank hash st query documents top_k return_all use_cache = (Some out, st') ->
  (forall i a, out !! i = Some a -> new_rank a = i + 1)
  /\ forall a b, a ∈ out -> b ∈ out ->
       ((combined_score b < combined_score a)%Q -> (new_rank a < new_rank b)%nat)
       /\ ((combined_score a == combined_score b)%Q ->
           (original_rank a < original_rank b)%nat ->
           (new_rank a < new_rank b)%nat).
Proof.
  intros H. apply rerank_order in H. destruct H as [Hpos H].
  split; [exact Hpos|].
  intros a b Ha Hb.
  apply list_elem_of_lookup in Ha as [i Hi]. apply list_elem_of_lookup in Hb as [j Hj].
  rewrite (Hpos _ _ Hi), (Hpos _ _ Hj).
  destruct (lt_eq_lt_dec i j) as [[Hij|Hij]|Hij].
  - split; intros; lia.
  - subst j. rewrite Hi in Hj. injection Hj as <-. split.
    + intros Hlt. exfalso. eapply Qlt_irrefl; eauto.
    + intros; lia.
  - destruct (H j i b a Hj Hi Hij) as (Hle & Htie). split.
    + intros Hlt. exfalso. eapply Qlt_not_le; eauto.
    + intros E Hlt. symmetry in E. specialize (Htie E). lia.
Qed.
Lemma rerank_new_rank_follows_combined_score_witness :
  rerank sample_hash sample_reranker "renta mensual" sample_documents (Some 2)
         false true
    = (Some (default [] sample_reranked.1), sample_reranked.2)
  /\ (forall i a, default [] sample_reranked.1 !! i = Some a -> new_rank a = i + 1)
  /\ forall a b, a ∈ default [] sample_reranked.1 -> b ∈ default [] sample_reranked.1 ->
       ((combined_score b < combined_score a)%Q -> (new_rank a < new_rank b)%nat)
       /\ ((combined_score a == combined_score b)%Q ->
           (original_rank a < original_rank b)%nat ->
           (new_rank a < new_rank b)%nat).
Proof.
  split; [vm_compute; reflexivity|].
  apply (rerank_new_rank_follows_combined_score sample_hash sample_reranker
           sample_reranked.2 "renta mensual" sample_documents (Some 2) false true).
  vm_compute; reflexivity.
Defined.

(** *** The cache *)

Lemma update_cache_max st key score :
  max_cache_size (_update_cache st key score) = max_cache_size st.
Proof. reflexivity. Qed.

Lemma update_cache_evicts st key score :
  (max_cache_size st <= length (cache st))%nat ->
  cache (_update_cache st key score)
  = od_set (drop (max_cache_size st / 5) (cache st)) key score.
Proof.
  intros H. unfold _update_cache. apply Nat.leb_le in H. rewrite H. simpl.
  now rewrite od_del_first_keys.
Qed.

Lemma update_cache_keeps st key score :
  (length (cache st) < max_cache_size st)%nat ->
  cache (_update_cache st key score) = od_set (cache st) key score.
Proof.
  intros H. unfold _update_cache. apply Nat.leb_gt in H. now rewrite H.
Qed.

Lemma update_cache_bounded st key score :
  (5 <= max_cache_size st)%nat ->
  (length (cache st) <= max_cache_size st)%nat ->
  (length (cache (_update_cache st key score)) <= max_cache_size st)%nat.
Proof.
  intros H5 Hlen.
  destruct (le_lt_dec (max_cache_size st) (length (cache st))) as [Hfull|Hroom].
  - rewrite update_cache_evicts by exact Hfull.
    pose proof (od_set_length_le (drop (max_cache_size st / 5) (cache st)) key score).
    rewrite length_drop in H.
    assert (1 <= max_cache_size st / 5)%nat.
    { apply Nat.div_le_lower_bound; lia. }
    lia.
  - rewrite update_cache_keeps by exact Hroom.
    pose proof (od_set_length_le (cache st) key score). lia.
Qed.

Lemma store_scores_bounded hash n st query use_cache documents todo :
  (5 <= n)%nat -> cache_ok n st ->
  cache_ok n (store_scores hash st query use_cache documents todo).1.
Proof.
  intros H5. revert st. induction todo as [|[idx s] todo IH]; intros st Hst; simpl.
  - exact Hst.
  - destruct (documents !! idx) as [doc|]; [|exact Hst].
    apply IH. destruct use_cache; [|exact Hst].
    destruct Hst as [Hmax Hlen]. split.
    + now rewrite update_cache_max.
    + rewrite <- Hmax. apply update_cache_bounded; lia.
Qed.

Lemma rerank_bounded hash n st query documents top_k return_all use_cache :
  (5 <= n)%nat -> cache_ok n st ->
  cache_ok n (rerank hash st query documents top_k return_all use_cache).2.
Proof.
  intros H5 Hst. unfold rerank.
  destruct (model st) as [predict|]; [|exact Hst].
  destruct documents as [|d ds]; [exact Hst|].
  destruct (scan hash st query use_cache (enumerate (d :: ds))) as [[cs ps] us].
  set (scored := match ps with [] => _ | _ :: _ => _ end).
  assert (Hscored : cache_ok n scored.2).
  { unfold scored. destruct ps as [|p ps]; [exact Hst|].
    destruct (batch_size st =? 0)%nat; [exact Hst|].
    destruct (predict_batches predict _) as [all_scores|]; [|exact Hst].
    pose proof (store_scores_bounded hash n st query use_cache (d :: ds)
                  (zip us all_scores) H5 Hst) as Hb.
    destruct (store_scores hash st query use_cache (d :: ds) (zip us all_scores))
      as [st1 ok]. exact Hb. }
  destruct scored as [[all_scores|] st1]; simpl in Hscored; [|exact Hscored].
  destruct (build st1 cs us all_scores (enumerate (d :: ds))); exact Hscored.
Qed.

Lemma rerank_calls_bounded hash n st calls :
  (5 <= n)%nat -> cache_ok n st -> cache_ok n (rerank_calls hash st calls).
Proof.
  intros H5. revert st. induction calls as [|c calls IH]; intros st Hst; simpl.
  - exact Hst.
  - apply IH. now apply rerank_bounded.
Qed.

(** C7.  The score cache is bounded.  For a reranker whose cache holds at
    most [max_cache_size] entries (and [max_cache_size] is at least 5, as
    the constructor's 1000 is): every insertion leaves at most
    [max_cache_size] entries; an insertion that finds the cache full first
    drops the [max_cache_size / 5] oldest entries (the first fifth in
    insertion order) and then stores the new one; and the bound holds after
    any sequence of [rerank] calls. *)
Theorem cache_never_exceeds_max_size (hash : string -> Z) (st : AdvancedReranker) :
  (5 <= max_cache_size st)%nat ->
  (length (cache st) <= max_cache_size st)%nat ->
  (forall key score,
      (length (cache (_update_cache st key score)) <= max_cache_size st)%nat
      /\ ((max_cache_size st <= length (cache st))%nat ->
          cache (_update_cache st key score)
          = od_set (drop (max_cache_size st / 5) (cache st)) key score)
      /\ ((length (cache st) < max_cache_size st)%nat ->
          cache (_update_cache st key score) = od_set (cache st) key score))
  /\ forall calls,
       (length (cache (rerank_calls hash st calls)) <= max_cache_size st)%nat.
Proof.
  intros H5 Hlen. split.
  - intros key score. split; [now apply update_cache_bounded|]. split.
    + apply update_cache_evicts.
    + apply update_cache_keeps.
  - intros calls.
    destruct (rerank_calls_bounded hash (max_cache_size st) st calls H5) as [_ H];
      [now split|exact H].
Qed.

Lemma cache_never_exceeds_max_size_witness :
  (5 <= max_cache_size sample_reranker)%nat
  /\ (length (cache sample_reranker) <= max_cache_size sample_reranker)%nat
  /\ (length (cache (rerank_calls sample_hash sample_reranker
                                  [sample_call; sample_call]))
      <= max_cache_size sample_reranker)%nat.
Proof.
  split; [simpl; lia|]. split; [simpl; lia|].
  apply (cache_never_exceeds_max_size sample_hash sample_reranker); simpl; lia.
Defined.

(** Why C5 and C7 carry their side conditions.  In the reciprocal
    combination a fallback score of zero is divided by, and the call fails;
    with a maximum below five the eviction count [max_cache_size / 5] is zero
    and an insertion into a full cache makes it larger than the maximum. *)
Remark fallback_fails_in_reciprocal_mode :
  (rerank sample_hash reciprocal_reranker "renta mensual" sample_documents None
          false true).1 = None.
Proof. vm_compute. reflexivity. Qed.

Remark small_cache_exceeds_its_maximum :
  length (cache small_full_reranker) = max_cache_size small_full_reranker
  /\ length (cache (_update_cache small_full_reranker (5, 5)%Z 0%Q)) = 5.
Proof. split; reflexivity. Qed.
End RerankerClaims.

(** ** The accumulation loop *)

Module FusionFacts.
Import Py PyFacts Fusion.

Lemma Qsum_app l1 l2 : (Qsum (l1 ++ l2) == Qsum l1 + Qsum l2)%Q.
Proof.
  induction l1 as [|x l1 IH]; simpl.
  - now rewrite Qplus_0_l.
  - rewrite IH. apply Qplus_assoc.
Qed.

Lemma sorted_descending_key {A} (key f : A -> Q) (l : list A) :
  StronglySorted (before Qle_bool key) l ->
  (forall x, x ∈ l -> key x = f x) ->
  descending f l.
Proof.
  intros Hs Hk i j a b Ha Hb Hij.
  pose proof (StronglySorted_lookup _ _ _ _ _ _ Hs Ha Hb Hij) as H.
  unfold before in H. apply Qle_bool_iff in H.
  rewrite <- (Hk a), <- (Hk b); trivial; eapply list_elem_of_lookup_2; eauto.
Qed.

Section AccumulateFacts.
Context {T : Type}.
Implicit Types (es : list (pyval * Q * T)) (c : pyval).

Lemma contributions_app c es1 es2 :
  contributions c (es1 ++ es2) = contributions c es1 ++ contributions c es2.
Proof. unfold contributions. now rewrite List.filter_app, map_app. Qed.

Lemma first_result_app c es1 es2 :
  first_result c (es1 ++ es2)
  = match first_result c es1 with
    | Some r => Some r
    | None => first_result c es2
    end.
Proof.
  unfold first_result. induction es1 as [|e es1 IH]; simpl; trivial.
  destruct (bool_decide (e.1.1 = c)); simpl; trivial.
Qed.

Lemma first_result_None_contributions c es :
  first_result c es = None -> contributions c es = [].
Proof.
  unfold first_result, contributions. induction es as [|e es IH]; simpl; trivial.
  destruct (bool_decide (e.1.1 = c)); simpl; [discriminate|exact IH].
Qed.

Lemma first_result_Some_In c es r :
  first_result c es = Some r -> exists s, In (c, s, r) es.
Proof.
  unfold first_result. induction es as [|[[c0 s0] r0] es IH]; simpl; [discriminate|].
  destruct (bool_decide_reflect (c0 = c)) as [->|Hne]; simpl.
  - intros [= <-]. eauto.
  - intros H. destruct (IH H) as [s Hs]. eauto.
Qed.

Lemma first_result_None_iff c es :
  first_result c es = None <-> forall e, In e es -> e.1.1 <> c.
Proof.
  unfold first_result. induction es as [|e es IH]; simpl.
  - split; [intros _ e []|trivial].
  - destruct (bool_decide_reflect (e.1.1 = c)) as [E|Hne]; simpl.
    + split; [discriminate|]. intros H. exfalso. apply (H e); auto.
    + rewrite IH. split.
      * intros H e' [<-|He']; auto.
      * intros H e' He'. apply H. auto.
Qed.

Lemma accumulated_nil : accumulated ([] : list (pyval * Q * T)) ([], []).
Proof.
  repeat split; simpl; trivial; try discriminate. constructor.
Qed.

Lemma accumulated_step es acc e :
  accumulated es acc -> accumulated (es ++ [e]) (accumulate_step acc e).
Proof.
  destruct acc as [fs ar]. destruct e as [[c0 s0] r0].
  intros (Hnd & Har & Hnone & Hsum). simpl in *.
  assert (Hfirst : forall c, first_result c [(c0, s0, r0)]
                             = if decide (c = c0) then Some r0 else None).
  { intros c. unfold first_result. simpl.
    destruct (bool_decide_reflect (c0 = c)) as [->|Hne]; simpl.
    - now destruct (decide (c = c)).
    - destruct (decide (c = c0)); [congruence|trivial]. }
  assert (Hcontr : forall c, contributions c [(c0, s0, r0)]
                             = if decide (c = c0) then [s0] else []).
  { intros c. unfold contributions. simpl.
    destruct (bool_decide_reflect (c0 = c)) as [->|Hne]; simpl.
    - now destruct (decide (c = c)).
    - destruct (decide (c = c0)); [congruence|trivial]. }
  destruct (od_get fs c0) as [old|] eqn:Eold; simpl.
  - assert (Hc0 : exists r, first_result c0 es = Some r).
    { destruct (first_result c0 es) eqn:E; [eauto|].
      apply Hnone in E. congruence. }
    destruct Hc0 as [r1 Hr1].
    repeat split; cbn [fst snd].
    + now apply od_keys_set_NoDup.
    + intros c. rewrite first_result_app, Har, Hfirst.
      destruct (first_result c es) eqn:E; trivial.
      destruct (decide (c = c0)) as [->|]; [congruence|trivial].
    + rewrite od_get_set, first_result_app, Hfirst.
      destruct (decide (c = c0)) as [->|Hne]; [discriminate|].
      intros H. apply Hnone in H. now rewrite H.
    + rewrite od_get_set, first_result_app, Hfirst.
      destruct (decide (c = c0)) as [->|Hne].
      * rewrite Hr1. discriminate.
      * destruct (first_result c es) eqn:E; [discriminate|]. intros _.
        now apply Hnone.
    + intros c s. rewrite od_get_set, contributions_app, Hcontr, Qsum_app.
      destruct (decide (c = c0)) as [->|Hne].
      * intros [= <-]. rewrite (Hsum c0 old Eold). simpl. now rewrite Qplus_0_r.
      * intros H. rewrite (Hsum c s H). simpl. now rewrite Qplus_0_r.
  - assert (Hc0 : first_result c0 es = None) by now apply Hnone.
    repeat split; cbn [fst snd].
    + now apply od_keys_set_NoDup.
    + intros c. rewrite od_get_set, first_result_app, Har, Hfirst.
      destruct (decide (c = c0)) as [->|Hne].
      * now rewrite Hc0.
      * now destruct (first_result c es).
    + rewrite od_get_set, first_result_app, Hfirst.
      destruct (decide (c = c0)) as [->|Hne]; [discriminate|].
      intros H. apply Hnone in H. now rewrite H.
    + rewrite od_get_set, first_result_app, Hfirst.
      destruct (decide (c = c0)) as [->|Hne].
      * rewrite Hc0. discriminate.
      * destruct (first_result c es) eqn:E; [discriminate|]. intros _.
        now apply Hnone.
    + intros c s. rewrite od_get_set, contributions_app, Hcontr, Qsum_app.
      destruct (decide (c = c0)) as [->|Hne].
      * intros [= <-]. rewrite (first_result_None_contributions _ _ Hc0). simpl.
        now rewrite Qplus_0_l, Qplus_0_r.
      * intros H. rewrite (Hsum c s H). simpl. now rewrite Qplus_0_r.
Qed.

Lemma accumulate_accumulated es : accumulated es (accumulate es).
Proof.
  unfold accumulate. induction es as [|e es IH] using rev_ind.
  - apply accumulated_nil.
  - rewrite fold_left_app. simpl. now apply accumulated_step.
Qed.

(** Every key of the score dict has its score and its first result. *)
Lemma accumulated_item es acc c s :
  accumulated es acc -> In (c, s) acc.1 ->
  exists r, od_get acc.2 c = Some r /\ first_result c es = Some r
            /\ (s == Qsum (contributions c es))%Q.
Proof.
  intros (Hnd & Har & Hnone & Hsum) Hin.
  pose proof (od_get_In _ _ _ Hnd Hin) as Hget.
  destruct (first_result c es) as [r|] eqn:E.
  - exists r. rewrite Har. auto.
  - apply Hnone in E. congruence.
Qed.

Lemma accumulated_key es acc c :
  accumulated es acc ->
  (In c (od_keys acc.1) <-> exists e, In e es /\ e.1.1 = c).
Proof.
  intros (Hnd & Har & Hnone & Hsum). split.
  - intros Hin. destruct (first_result c es) as [r|] eqn:E.
    + destruct (first_result_Some_In _ _ _ E) as [s Hs]. now exists (c, s, r).
    + apply Hnone in E. apply od_get_None_keys in E. contradiction.
  - intros (e & He & Hc).
    destruct (od_get acc.1 c) eqn:E.
    + apply od_get_Some_In in E. change c with (fst (c, q)). now apply in_map.
    + apply Hnone in E. rewrite first_result_None_iff in E.
      exfalso. exact (E e He Hc).
Qed.
End AccumulateFacts.

Lemma Qsum_concat (ls : list (list Q)) : (Qsum (concat ls) == Qsum (map Qsum ls))%Q.
Proof.
  induction ls as [|l ls IH]; simpl; [reflexivity|].
  now rewrite Qsum_app, IH.
Qed.

Lemma Qsum_pointwise {A} (f g : A -> Q) (l : list A) :
  (forall x, In x l -> (f x == g x)%Q) -> (Qsum (map f l) == Qsum (map g l))%Q.
Proof.
  induction l as [|x l IH]; simpl; intros H; [reflexivity|].
  rewrite (H x) by auto. rewrite IH by auto. reflexivity.
Qed.

Lemma find_app_first {A} (f : A -> bool) (l1 l2 : list A) :
  List.find f (l1 ++ l2)
  = match List.find f l1 with Some x => Some x | None => List.find f l2 end.
Proof.
  induction l1 as [|x l1 IH]; simpl; trivial. now destruct (f x).
Qed.

Section PositionalFacts.
Context {T : Type} (cid : T -> pyval) (k : nat).

Lemma positional_entries_from (l : list T) : positional_entries cid k l = entries_from cid k 0 l.
Proof. reflexivity. Qed.

Lemma first_result_entries_from c i (l : list T) :
  first_result c (entries_from cid k i l) = List.find (fun x => bool_decide (cid x = c)) l.
Proof.
  unfold first_result, entries_from. revert i.
  induction l as [|x l IH]; intros i; simpl; trivial.
  destruct (bool_decide (cid x = c)); simpl; trivial.
Qed.

Lemma contributions_entries_absent c i (l : list T) :
  ~ In c (map cid l) -> contributions c (entries_from cid k i l) = [].
Proof.
  intros H. apply first_result_None_contributions.
  rewrite first_result_entries_from.
  destruct (List.find _ l) as [x|] eqn:E; trivial.
  apply find_some in E as [Hin Hc]. apply bool_decide_eq_true in Hc.
  exfalso. apply H. rewrite <- Hc. now apply in_map.
Qed.

Lemma contributions_entries_from c i (l : list T) :
  NoDup (map cid l) ->
  (Qsum (contributions c (entries_from cid k i l))
   == match rank_from i c (map cid l) with
      | Some r => 1 / inject_Z (Z.of_nat (k + r))
      | None => 0
      end)%Q.
Proof.
  revert i. induction l as [|x l IH]; intros i Hnd; simpl; [reflexivity|].
  apply NoDup_cons in Hnd as [Hx Hnd].
  unfold contributions, entries_from. simpl.
  destruct (bool_decide_reflect (cid x = c)) as [E|Hne]; simpl.
  - destruct (decide (cid x = c)); [|contradiction].
    fold (entries_from cid k (S i) l). fold (contributions c (entries_from cid k (S i) l)).
    rewrite contributions_entries_absent.
    + simpl. rewrite Qplus_0_r. now rewrite Nat.add_assoc.
    + rewrite <- E. intros Hin. apply Hx. now apply list_elem_of_In.
  - destruct (decide (cid x = c)); [contradiction|].
    apply (IH (S i) Hnd).
Qed.

Lemma contributions_concat c (ess : list (list (pyval * Q * T))) :
  contributions c (concat ess) = concat (map (contributions c) ess).
Proof.
  induction ess as [|es ess IH]; simpl; trivial.
  now rewrite contributions_app, IH.
Qed.

Lemma first_result_concat c (lists : list (list T)) :
  first_result c (concat (map (positional_entries cid k) lists))
  = first_occurrence cid c lists.
Proof.
  unfold first_occurrence. induction lists as [|l lists IH]; simpl; trivial.
  rewrite first_result_app, IH, positional_entries_from, first_result_entries_from.
  rewrite find_app_first. now destruct (List.find _ l).
Qed.

(** The sum the loop computes for [c] is the fusion score of [c]. *)
Lemma positional_sum c (lists : list (list T)) :
  Forall (fun l => NoDup (map cid l)) lists ->
  (Qsum (contributions c (concat (map (positional_entries cid k) lists)))
   == fusion_score k c (map (map cid) lists))%Q.
Proof.
  intros Hnd. rewrite contributions_concat, Qsum_concat, !map_map.
  unfold fusion_score. rewrite map_map. apply Qsum_pointwise.
  intros l Hl. rewrite positional_entries_from.
  rewrite contributions_entries_from.
  - reflexivity.
  - rewrite Forall_forall in Hnd. apply Hnd. now apply list_elem_of_In.
Qed.

Lemma positional_key c (lists : list (list T)) :
  (exists e, In e (concat (map (positional_entries cid k) lists)) /\ e.1.1 = c)
  <-> exists l, In l lists /\ In c (map cid l).
Proof.
  split.
  - intros (e & He & Hc). apply in_concat in He as (es & Hes & He).
    apply in_map_iff in Hes as (l & <- & Hl).
    exists l. split; trivial.
    unfold positional_entries in He. apply in_map_iff in He as ([i x] & <- & Hix).
    simpl in Hc. subst c. simpl. apply in_map.
    assert (Hsnd : In (snd (i, x)) (map snd (enumerate l))) by now apply in_map.
    unfold enumerate in Hsnd. now rewrite enumerate_from_snd in Hsnd.
  - intros (l & Hl & Hc). apply in_map_iff in Hc as (x & <- & Hx).
    assert (Hsnd : In x (map snd (enumerate l))).
    { unfold enumerate. now rewrite enumerate_from_snd. }
    apply in_map_iff in Hsnd as ([i y] & Hy & Hiy). simpl in Hy. subst y.
    exists (cid x, 1 / inject_Z (Z.of_nat (k + i + 1)), x)%Q. split; trivial.
    apply in_concat. exists (positional_entries cid k l). split.
    + now apply in_map.
    + unfold positional_entries.
      change (cid x, 1 / inject_Z (Z.of_nat (k + i + 1)), x)%Q
        with ((fun ir : nat * T =>
                 (cid ir.2, 1 / inject_Z (Z.of_nat (k + ir.1 + 1)), ir.2)%Q) (i, x)).
      now apply in_map.
Qed.

Lemma first_occurrence_cid c (lists : list (list T)) x :
  first_occurrence cid c lists = Some x -> cid x = c.
Proof.
  unfold first_occurrence. intros H. apply find_some in H as [_ H].
  now apply bool_decide_eq_true in H.
Qed.
End PositionalFacts.
End FusionFacts.

(** ** Rank fusion in [HybridSearchEngine] *)

Module HybridFusionFacts.
Import Py PyFacts Fusion FusionFacts HybridSearch.

Section FuseLoop.
Context {Sc D : Type}.
Implicit Types (items : list (pyval * Q)) (ar : list (pyval * SearchResult Sc D)).

Lemma fuse_loop_total items ar n :
  (forall c s, In (c, s) items -> exists r, od_get ar c = Some r) ->
  exists out, fuse_loop items ar n = Some out.
Proof.
  revert n. induction items as [|[c s] items IH]; intros n H; simpl; [eauto|].
  destruct (H c s) as [r ->]; [now left|]. simpl.
  destruct (IH (S n)) as [tl ->]; [intros; apply (H c0 s0); now right|].
  simpl. eauto.
Qed.

Lemma fuse_loop_lookup items ar n out :
  fuse_loop items ar n = Some out ->
  length out = length items
  /\ forall j, j < length items ->
       exists c s r,
         items !! j = Some (c, s) /\ od_get ar c = Some r
         /\ out !! j = Some (fused r s (n + j)).
Proof.
  revert n out. induction items as [|[c s] items IH]; intros n out H; simpl in H.
  - injection H as <-. split; [reflexivity|]. simpl; intros; lia.
  - destruct (od_get ar c) as [r|] eqn:Er; [|discriminate]. simpl in H.
    destruct (fuse_loop items ar (S n)) as [tl|] eqn:Etl; [|discriminate].
    simpl in H. injection H as <-.
    destruct (IH _ _ Etl) as [Hlen Hlk]. split; [simpl; now rewrite Hlen|].
    intros [|j] Hj; simpl in *.
    + exists c, s, r. rewrite Nat.add_0_r. auto.
    + destruct (Hlk j ltac:(lia)) as (c' & s' & r' & H1 & H2 & H3).
      exists c', s', r'. repeat split; trivial.
      rewrite H3. do 2 f_equal. lia.
Qed.

(** The last two steps of both fusion routines, on what the loop left:
    the items are sorted by score and one result is built for each. *)
Lemma fuse_accumulated (es : list (pyval * Q * SearchResult Sc D)) :
  (forall e, In e es -> e.1.1 = chunk_id e.2) ->
  exists out,
    fuse_loop (sort_desc Qle_bool snd (accumulate es).1) (accumulate es).2 0 = Some out
    /\ descending score out
    /\ Permutation (map chunk_id out) (od_keys (accumulate es).1)
    /\ forall j r', out !! j = Some r' ->
         exists s r,
           first_result (chunk_id r') es = Some r
           /\ (s == Qsum (contributions (chunk_id r') es))%Q
           /\ r' = fused r s j.
Proof.
  intros Hcons.
  pose proof (accumulate_accumulated es) as Hacc.
  set (fs := (accumulate es).1) in *. set (ar := (accumulate es).2) in *.
  set (items := sort_desc Qle_bool snd fs).
  assert (Hperm : Permutation items fs) by apply sort_desc_perm.
  assert (Hitem : forall c s, In (c, s) items ->
            exists r, od_get ar c = Some r /\ first_result c es = Some r
                      /\ (s == Qsum (contributions c es))%Q /\ chunk_id r = c).
  { intros c s Hin.
    destruct (accumulated_item es (accumulate es) c s Hacc) as (r & H1 & H2 & H3).
    { fold fs. eapply Permutation_in; eauto. }
    exists r. repeat split; trivial.
    destruct (first_result_Some_In _ _ _ H2) as [s' Hs'].
    symmetry. exact (Hcons _ Hs'). }
  destruct (fuse_loop_total items ar 0) as [out Hout].
  { intros c s Hin. destruct (Hitem c s Hin) as (r & Hr & _). eauto. }
  destruct (fuse_loop_lookup _ _ _ _ Hout) as [Hlen Hlk].
  exists out. split; [exact Hout|].
  assert (Hchar : forall j r', out !! j = Some r' ->
            exists c s r, items !! j = Some (c, s) /\ od_get ar c = Some r
                          /\ first_result c es = Some r
                          /\ (s == Qsum (contributions c es))%Q
                          /\ chunk_id r = c /\ r' = fused r s j).
  { intros j r' Hj.
    assert (Hjl : j < length items).
    { rewrite <- Hlen. eapply lookup_lt_Some; eauto. }
    destruct (Hlk j Hjl) as (c & s & r & H1 & H2 & H3).
    rewrite Hj in H3. injection H3 as ->.
    destruct (Hitem c s) as (r0 & Hr0 & Hf & Hs & Hc).
    { apply list_elem_of_In. eapply list_elem_of_lookup_2; eauto. }
    assert (r0 = r) as -> by congruence.
    exists c, s, r. auto 10. }
  split; [|split].
  - intros i j a b Ha Hb Hij.
    destruct (Hchar _ _ Ha) as (ca & sa & ra & Hia & _ & _ & _ & _ & ->).
    destruct (Hchar _ _ Hb) as (cb & sb & rb & Hib & _ & _ & _ & _ & ->). simpl.
    pose proof (sort_desc_sorted Qle_bool snd Qle_bool_total Qle_bool_trans fs) as Hs.
    pose proof (StronglySorted_lookup _ _ _ _ _ _ Hs Hia Hib Hij) as H.
    unfold before in H. now apply Qle_bool_iff in H.
  - assert (E : map chunk_id out = od_keys items).
    { apply list_eq. intros j. unfold od_keys. rewrite !list_lookup_fmap.
      destruct (out !! j) as [r'|] eqn:Ej; simpl.
      - destruct (Hchar _ _ Ej) as (c & s & r & Hi & _ & _ & _ & Hc & ->).
        rewrite Hi. simpl. now rewrite Hc.
      - apply lookup_ge_None in Ej. rewrite Hlen in Ej.
        apply lookup_ge_None in Ej. now rewrite Ej. }
    rewrite E. unfold od_keys. now apply Permutation_map.
  - intros j r' Hj. destruct (Hchar _ _ Hj) as (c & s & r & Hi & Hr & Hf & Hs & Hc & ->).
    exists s, r. simpl. rewrite Hc. auto.
Qed.
End FuseLoop.

Section HybridRRF.
Context {Sc D : Type}.
Implicit Types (l : list (SearchResult Sc D)) (lists : list (list (SearchResult Sc D))).

Lemma rrf_entry_ranked_from k i l :
  (forall j x, l !! j = Some x -> rank x = i + j + 1) ->
  mapM (rrf_entry k) l = Some (entries_from chunk_id k i l).
Proof.
  revert i. induction l as [|x l IH]; intros i H; [reflexivity|].
  unfold mapM. fold (mapM (rrf_entry k) l).
  rewrite (IH (S i)).
  - unfold rrf_entry. specialize (H 0 x eq_refl).
    destruct (k + rank x =? 0)%nat eqn:E; [apply Nat.eqb_eq in E; lia|].
    simpl. unfold entries_from. simpl. do 4 f_equal.
    rewrite H. do 3 f_equal. lia.
  - intros j y Hy. rewrite (H (S j) y Hy). lia.
Qed.

Lemma rrf_entries_ranked k lists :
  Forall ranked lists ->
  mapM (rrf_entry k) (concat lists)
  = Some (concat (map (positional_entries chunk_id k) lists)).
Proof.
  induction 1 as [|l lists Hl _ IH]; [reflexivity|]. simpl.
  apply mapM_Some. apply Forall2_app.
  - apply mapM_Some. rewrite positional_entries_from.
    apply rrf_entry_ranked_from. intros j x Hx. now rewrite (Hl j x Hx).
  - now apply mapM_Some.
Qed.

Lemma positional_consistent k lists e :
  In e (concat (map (positional_entries (@chunk_id Sc D) k) lists)) ->
  e.1.1 = chunk_id e.2.
Proof.
  intros He. apply in_concat in He as (es & Hes & He).
  apply in_map_iff in Hes as (l & <- & _).
  unfold positional_entries in He. apply in_map_iff in He as (ir & <- & _).
  reflexivity.
Qed.

(** What [_reciprocal_rank_fusion] returns on ranked lists. *)
Lemma reciprocal_rank_fusion_spec lists k :
  Forall ranked lists ->
  exists out,
    _reciprocal_rank_fusion lists k = Some out
    /\ descending score out
    /\ NoDup (map chunk_id out)
    /\ (forall c, In c (map chunk_id out)
                  <-> exists l, In l lists /\ In c (map chunk_id l))
    /\ forall j r', out !! j = Some r' ->
         exists s x,
           first_occurrence chunk_id (chunk_id r') lists = Some x
           /\ r' = fused x s j
           /\ (Forall (fun l => NoDup (map chunk_id l)) lists ->
               (s == fusion_score k (chunk_id r') (id_lists lists))%Q).
Proof.
  intros Hranked. unfold _reciprocal_rank_fusion.
  rewrite (rrf_entries_ranked k lists Hranked). simpl.
  set (es := concat (map (positional_entries chunk_id k) lists)).
  destruct (fuse_accumulated es (positional_consistent k lists))
    as (out & Hout & Hdesc & Hperm & Hchar).
  pose proof (accumulate_accumulated es) as Hacc.
  destruct (accumulate es) as [fs ar] eqn:Eacc. simpl in *.
  exists out. split; [exact Hout|]. split; [exact Hdesc|]. split; [|split].
  - rewrite Hperm. apply Hacc.
  - intros c. transitivity (In c (od_keys fs)).
    { split; apply Permutation_in; [exact Hperm | symmetry; exact Hperm]. }
    rewrite (accumulated_key es (fs, ar) c Hacc). apply positional_key.
  - intros j r' Hj. destruct (Hchar j r' Hj) as (s & x & Hx & Hs & ->).
    exists s, x. unfold es in Hx. rewrite first_result_concat in Hx.
    repeat split; trivial.
    intros Hnd. etransitivity; [exact Hs|].
    apply (positional_sum chunk_id k _ lists Hnd).
Qed.
End HybridRRF.

Section HybridRRFGeneral.
Context {Sc D : Type}.
Implicit Types (xs : list (SearchResult Sc D)) (lists : list (list (SearchResult Sc D))).

Lemma mapM_rrf_entry_inv k xs es :
  mapM (rrf_entry k) xs = Some es ->
  (forall e, In e es -> e.1.1 = chunk_id e.2)
  /\ forall c, first_result c es = List.find (fun x => bool_decide (chunk_id x = c)) xs.
Proof.
  intros H. apply mapM_Some in H.
  induction H as [|x e xs es Hx _ [Hc Hf]].
  - split; [intros e []|reflexivity].
  - unfold rrf_entry in Hx.
    destruct (k + rank x =? 0)%nat; [discriminate|]. injection Hx as <-. split.
    + intros e [<-|He]; [reflexivity|auto].
    + intros c. unfold first_result. simpl.
      destruct (bool_decide (chunk_id x = c)); simpl; [reflexivity|]. apply Hf.
Qed.

(** What [_reciprocal_rank_fusion] returns whenever it returns. *)
Lemma reciprocal_rank_fusion_first lists k out :
  _reciprocal_rank_fusion lists k = Some out ->
  forall j r', out !! j = Some r' ->
    exists s x, first_occurrence chunk_id (chunk_id r') lists = Some x
                /\ r' = fused x s j.
Proof.
  unfold _reciprocal_rank_fusion. intros H.
  destruct (mapM (rrf_entry k) (concat lists)) as [es|] eqn:Ees; [|discriminate].
  simpl in H. destruct (mapM_rrf_entry_inv _ _ _ Ees) as [Hcons Hfirst].
  destruct (fuse_accumulated es Hcons) as (out' & Hout & _ & _ & Hchar).
  destruct (accumulate es) as [fs ar]. simpl in *.
  rewrite Hout in H. injection H as <-.
  intros j r' Hj. destruct (Hchar j r' Hj) as (s & x & Hx & _ & ->).
  exists s, x. split; [|reflexivity]. rewrite Hfirst in Hx. exact Hx.
Qed.
End HybridRRFGeneral.

(** *** Weighted fusion *)

Lemma list_max_ge x l :
  (x <= list_max x l)%Q /\ forall y, In y l -> (y <= list_max x l)%Q.
Proof.
  revert x. induction l as [|z l IH]; intros x; simpl.
  - split; [apply Qle_refl|intros y []].
  - destruct (IH (Qmax x z)) as [H1 H2]. split.
    + eapply Qle_trans; [apply Q.le_max_l|exact H1].
    + intros y [<-|Hy]; [|auto].
      eapply Qle_trans; [apply Q.le_max_r|exact H1].
Qed.

Lemma list_min_le x l :
  (list_min x l <= x)%Q /\ forall y, In y l -> (list_min x l <= y)%Q.
Proof.
  revert x. induction l as [|z l IH]; intros x; simpl.
  - split; [apply Qle_refl|intros y []].
  - destruct (IH (Qmin x z)) as [H1 H2]. split.
    + eapply Qle_trans; [exact H1|apply Q.le_min_l].
    + intros y [<-|Hy]; [|auto].
      eapply Qle_trans; [exact H1|apply Q.le_min_r].
Qed.

Lemma list_max_const v x l :
  (x == v)%Q -> (forall y, In y l -> (y == v)%Q) -> (list_max x l == v)%Q.
Proof.
  revert x. induction l as [|z l IH]; intros x Hx Hl; simpl; [exact Hx|].
  apply IH; [|intros y Hy; apply Hl; now right].
  rewrite Q.max_l; [exact Hx|]. rewrite Hx, (Hl z) by now left. apply Qle_refl.
Qed.

Lemma list_min_const v x l :
  (x == v)%Q -> (forall y, In y l -> (y == v)%Q) -> (list_min x l == v)%Q.
Proof.
  revert x. induction l as [|z l IH]; intros x Hx Hl; simpl; [exact Hx|].
  apply IH; [|intros y Hy; apply Hl; now right].
  rewrite Q.min_l; [exact Hx|]. rewrite Hx, (Hl z) by now left. apply Qle_refl.
Qed.

Section WeightedFusion.
Context {D : Type}.
Implicit Types (L : list (SearchResult Q D)) (lists : list (list (SearchResult Q D))).

(** A list whose scores are all equal is left as it is. *)
Lemma normalize_constant L v :
  (forall r, r ∈ L -> (score r == v)%Q) -> normalize L = L.
Proof.
  destruct L as [|r rs]; [reflexivity|]. intros H. unfold normalize.
  destruct (Qlt_le_dec 0 _) as [Hlt|_]; [|reflexivity].
  exfalso.
  assert (Hr : (score r == v)%Q) by (apply H; left).
  assert (Hrs : forall y, In y (map score rs) -> (y == v)%Q).
  { intros y Hy. apply in_map_iff in Hy as (r' & <- & Hr').
    apply H. right. now apply list_elem_of_In. }
  rewrite (list_max_const v _ _ Hr Hrs), (list_min_const v _ _ Hr Hrs) in Hlt.
  unfold Qminus in Hlt. rewrite Qplus_opp_r in Hlt. exact (Qlt_irrefl _ Hlt).
Qed.

(** A list with two different scores is rescaled into [0, 1]. *)
Lemma normalize_range L a b :
  a ∈ L -> b ∈ L -> (score a < score b)%Q ->
  length (normalize L) = length L
  /\ forall r, r ∈ normalize L -> (0 <= score r)%Q /\ (score r <= 1)%Q.
Proof.
  destruct L as [|r0 rs]; [intros Ha; inversion Ha|]. intros Ha Hb Hab.
  unfold normalize.
  set (mx := list_max (score r0) (map score rs)).
  set (mn := list_min (score r0) (map score rs)).
  assert (Hbounds : forall r, r ∈ r0 :: rs -> (mn <= score r)%Q /\ (score r <= mx)%Q).
  { intros r Hr. destruct (list_max_ge (score r0) (map score rs)) as [M1 M2].
    destruct (list_min_le (score r0) (map score rs)) as [N1 N2].
    apply elem_of_cons in Hr as [->|Hr]; [split; assumption|].
    apply list_elem_of_In in Hr.
    split; [apply N2|apply M2]; now apply in_map. }
  assert (Hpos : (0 < mx - mn)%Q).
  { destruct (Hbounds a Ha) as [Ha1 _]. destruct (Hbounds b Hb) as [_ Hb2].
    apply (Qlt_minus_iff mn mx).
    eapply Qle_lt_trans; [exact Ha1|]. eapply Qlt_le_trans; eauto. }
  destruct (Qlt_le_dec 0 (mx - mn)) as [_|Hle];
    [|exfalso; exact (Qlt_not_le _ _ Hpos Hle)].
  split; [now rewrite length_map|].
  intros r Hr. apply list_elem_of_fmap in Hr as (r' & -> & Hr').
  destruct (Hbounds r' Hr') as [H1 H2]. simpl. split.
  - apply Qle_shift_div_l; [exact Hpos|]. rewrite Qmult_0_l.
    unfold Qminus. rewrite <- Qle_minus_iff. exact H1.
  - apply Qle_shift_div_r; [exact Hpos|]. rewrite Qmult_1_l.
    unfold Qminus. apply Qplus_le_l. exact H2.
Qed.

(** Weighted fusion fails only for no lists and no weights. *)
Lemma weighted_fusion_total lists weights :
  lists <> [] -> exists out, _weighted_fusion lists weights = Some out.
Proof.
  intros Hne. unfold _weighted_fusion.
  assert (Hw : exists ws, default_weights (length lists) weights = Some ws).
  { unfold default_weights. destruct lists as [|l lists]; [contradiction|].
    destruct weights as [[|w ws]|]; simpl; eauto. }
  destruct Hw as [ws ->]. simpl.
  set (es := concat _).
  assert (Hcons : forall e, In e es -> e.1.1 = chunk_id e.2).
  { intros e He. unfold es in He. apply in_concat in He as (l & Hl & He).
    apply in_map_iff in Hl as (lw & <- & _).
    apply in_map_iff in He as (r & <- & _). reflexivity. }
  destruct (fuse_accumulated es Hcons) as (out & Hout & _).
  destruct (accumulate es) as [fs ar]. simpl in *. eauto.
Qed.

Lemma weighted_fusion_no_lists : _weighted_fusion ([] : list (list (SearchResult Q D))) None = None.
Proof. reflexivity. Qed.
End WeightedFusion.
End HybridFusionFacts.

(** ** Rank fusion in [VectorStore] *)

Module VectorStoreFusionFacts.
Import Py PyFacts Fusion FusionFacts VectorStore.

Lemma fused_copies_total fs (ar : list (pyval * Result)) :
  (forall c s, In (c, s) fs -> exists r, od_get ar c = Some r) ->
  exists copies, fused_copies fs ar = Some copies.
Proof.
  induction fs as [|[c s] fs IH]; intros H; simpl; [eauto|].
  destruct (H c s) as [r ->]; [now left|]. simpl.
  destruct IH as [tl ->]; [intros; apply (H c0 s0); now right|].
  simpl. eauto.
Qed.

Lemma fused_copies_Forall2 fs (ar : list (pyval * Result)) copies :
  fused_copies fs ar = Some copies ->
  Forall2 (fun cs r' => exists r, od_get ar cs.1 = Some r /\ r' = set_rrf cs.2 r)
          fs copies.
Proof.
  revert copies. induction fs as [|[c s] fs IH]; intros copies H; simpl in H.
  - injection H as <-. constructor.
  - destruct (od_get ar c) as [r|] eqn:Er; [|discriminate]. simpl in H.
    destruct (fused_copies fs ar) as [tl|]; [|discriminate].
    simpl in H. injection H as <-. constructor; [|now apply IH].
    exists r. auto.
Qed.

Lemma rrf_entries_consistent k lists e :
  In e (concat (map (rrf_entries k) lists)) -> e.1.1 = chunk_id e.2.
Proof.
  intros He. apply in_concat in He as (es & Hes & He).
  apply in_map_iff in Hes as (l & <- & _).
  unfold rrf_entries in He. apply in_map_iff in He as (ir & <- & _).
  reflexivity.
Qed.

(** What [_reciprocal_rank_fusion] returns. *)
Lemma store_rank_fusion_spec lists k :
  exists out,
    _reciprocal_rank_fusion lists k = Some out
    /\ descending score out
    /\ NoDup (map chunk_id out)
    /\ (forall c, In c (map chunk_id out)
                  <-> exists l, In l lists /\ In c (map chunk_id l))
    /\ forall r', r' ∈ out ->
         exists s x,
           first_occurrence chunk_id (chunk_id r') lists = Some x
           /\ r' = set_rrf s x
           /\ (Forall (fun l => NoDup (map chunk_id l)) lists ->
               (s == fusion_score k (chunk_id r') (map (map chunk_id) lists))%Q).
Proof.
  unfold _reciprocal_rank_fusion.
  change (map (rrf_entries k) lists)
    with (map (positional_entries chunk_id k) lists).
  set (es := concat (map (positional_entries chunk_id k) lists)).
  pose proof (accumulate_accumulated es) as Hacc.
  destruct (accumulate es) as [fs ar] eqn:Eacc.
  assert (Hitem : forall c s, In (c, s) fs ->
            exists r, od_get ar c = Some r /\ first_result c es = Some r
                      /\ (s == Qsum (contributions c es))%Q /\ chunk_id r = c).
  { intros c s Hin.
    destruct (accumulated_item es (fs, ar) c s Hacc Hin) as (r & H1 & H2 & H3).
    exists r. repeat split; trivial.
    destruct (first_result_Some_In _ _ _ H2) as [s' Hs'].
    symmetry. exact (rrf_entries_consistent k lists _ Hs'). }
  destruct (fused_copies_total fs ar) as [copies Hcopies].
  { intros c s Hin. destruct (Hitem c s Hin) as (r & Hr & _). eauto. }
  rewrite Hcopies. simpl.
  set (out := sort_desc Qle_bool (fun r => default 0%Q (rrf_score r)) copies).
  assert (Hperm : Permutation out copies) by apply sort_desc_perm.
  pose proof (fused_copies_Forall2 _ _ _ Hcopies) as Hf2.
  assert (Hchar : forall r', r' ∈ copies ->
            exists c s r, In (c, s) fs /\ first_result c es = Some r
                          /\ (s == Qsum (contributions c es))%Q
                          /\ chunk_id r = c /\ r' = set_rrf s r).
  { intros r' Hr'. apply list_elem_of_lookup in Hr' as [j Hj].
    destruct (Forall2_lookup_r _ _ _ _ _ Hf2 Hj) as ([c s] & Hcs & r & Hr & ->).
    simpl in *.
    assert (Hin : In (c, s) fs).
    { apply list_elem_of_In. eapply list_elem_of_lookup_2; eauto. }
    destruct (Hitem c s Hin) as (r0 & Hr0 & Hfr & Hs & Hc).
    assert (r0 = r) as -> by congruence.
    exists c, s, r. auto 10. }
  assert (Hkeys : map chunk_id copies = od_keys fs).
  { clear -Hf2 Hitem. induction Hf2 as [|[c s] r' fs copies (r & Hr & ->) _ IH];
      simpl; [trivial|].
    f_equal.
    - destruct (Hitem c s) as (r0 & Hr0 & _ & _ & Hc); [now left|].
      simpl in Hr. congruence.
    - apply IH. intros c0 s0 Hin. apply Hitem. now right. }
  exists out. split; [reflexivity|]. split; [|split; [|split]].
  - apply (sorted_descending_key (fun r => default 0%Q (rrf_score r))).
    + apply sort_desc_sorted; [apply Qle_bool_total | apply Qle_bool_trans].
    + intros x Hx. rewrite Hperm in Hx.
      destruct (Hchar x Hx) as (c & s & r & _ & _ & _ & _ & ->). reflexivity.
  - rewrite Hperm, Hkeys. apply Hacc.
  - intros c. transitivity (In c (od_keys fs)).
    { rewrite <- Hkeys.
      split; apply Permutation_in; apply Permutation_map;
        [exact Hperm | symmetry; exact Hperm]. }
    rewrite (accumulated_key es (fs, ar) c Hacc). apply positional_key.
  - intros r' Hr'. rewrite Hperm in Hr'.
    destruct (Hchar r' Hr') as (c & s & r & Hin & Hfr & Hs & Hc & ->).
    exists s, r. simpl. rewrite Hc.
    unfold es in Hfr. rewrite first_result_concat in Hfr.
    repeat split; trivial.
    intros Hnd. etransitivity; [exact Hs|].
    apply (positional_sum chunk_id k c lists Hnd).
Qed.
End VectorStoreFusionFacts.

(** ** Reciprocal rank fusion: the claims *)

Module FusionClaims.
Import Py PyFacts Fusion FusionFacts.

(** C2.  Reciprocal rank fusion gives each chunk id the sum, over the input
    lists that hold it, of [1 / (k + rank)], [rank] being its 1-based rank in
    the list, and returns one result per chunk id, in descending order of that
    sum.  This holds for both implementations: [HybridSearchEngine]'s, which
    reads the [rank] field (equal to the position in the lists the engine
    builds), and [VectorStore]'s, which counts positions; the input lists are
    rankings (no chunk id twice in one list).  [_fuse_results] calls the
    fusion with its default constant, 60. *)
Theorem rrf_score_is_sum_of_reciprocal_ranks :
  (forall (Sc D : Type) (lists : list (list (HybridSearch.SearchResult Sc D))) (k : nat),
      Forall HybridSearch.ranked lists ->
      Forall (fun l => NoDup (map HybridSearch.chunk_id l)) lists ->
      exists out,
        HybridSearch._reciprocal_rank_fusion lists k = Some out
        /\ (forall r, r ∈ out ->
              (HybridSearch.score r
               == fusion_score k (HybridSearch.chunk_id r) (HybridSearch.id_lists lists))%Q)
        /\ descending HybridSearch.score out
        /\ NoDup (map HybridSearch.chunk_id out)
        /\ (forall c, In c (map HybridSearch.chunk_id out)
                      <-> exists l, In l lists /\ In c (map HybridSearch.chunk_id l)))
  /\ (forall (lists : list (list VectorStore.Result)) (k : nat),
         Forall (fun l => NoDup (map VectorStore.chunk_id l)) lists ->
         exists out,
           VectorStore._reciprocal_rank_fusion lists k = Some out
           /\ (forall r, r ∈ out ->
                 (VectorStore.score r
                  == fusion_score k (VectorStore.chunk_id r)
                                  (map (map VectorStore.chunk_id) lists))%Q)
           /\ descending VectorStore.score out
           /\ NoDup (map VectorStore.chunk_id out)
           /\ (forall c, In c (map VectorStore.chunk_id out)
                         <-> exists l, In l lists /\ In c (map VectorStore.chunk_id l)))
  /\ (forall (D : Type) (lists : list (list (HybridSearch.SearchResult Q D))) weights,
         HybridSearch._fuse_results lists weights "rrf"
         = HybridSearch._reciprocal_rank_fusion lists 60).
Proof.
  split; [|split].
  - intros Sc D lists k Hranked Hnd.
    destruct (HybridFusionFacts.reciprocal_rank_fusion_spec lists k Hranked)
      as (out & Hout & Hdesc & Hnodup & Hkeys & Hchar).
    exists out. repeat split; trivial; try apply Hkeys.
    intros r Hr. apply list_elem_of_lookup in Hr as [j Hj].
    destruct (Hchar j r Hj) as (s & x & _ & Hr & Hs).
    rewrite Hr at 1. simpl. now apply Hs.
  - intros lists k Hnd.
    destruct (VectorStoreFusionFacts.store_rank_fusion_spec lists k)
      as (out & Hout & Hdesc & Hnodup & Hkeys & Hchar).
    exists out. repeat split; trivial; try apply Hkeys.
    intros r Hr. destruct (Hchar r Hr) as (s & x & _ & Hrx & Hs).
    rewrite Hrx at 1. simpl. now apply Hs.
  - reflexivity.
Qed.

Lemma sample_lists_ranked : Forall HybridSearch.ranked HybridSearch.sample_lists.
Proof.
  repeat constructor; intros [|[|i]] x H; simplify_eq/=; reflexivity.
Defined.

Lemma sample_lists_NoDup :
  Forall (fun l => NoDup (map HybridSearch.chunk_id l)) HybridSearch.sample_lists.
Proof. apply (bool_decide_unpack _). vm_compute. reflexivity. Defined.

Lemma rrf_score_is_sum_of_reciprocal_ranks_witness :
  Forall HybridSearch.ranked HybridSearch.sample_lists
  /\ Forall (fun l => NoDup (map HybridSearch.chunk_id l)) HybridSearch.sample_lists
  /\ exists out,
       HybridSearch._reciprocal_rank_fusion HybridSearch.sample_lists 60 = Some out
       /\ (forall r, r ∈ out ->
             (HybridSearch.score r
              == fusion_score 60 (HybridSearch.chunk_id r)
                              (HybridSearch.id_lists HybridSearch.sample_lists))%Q)
       /\ descending HybridSearch.score out
       /\ NoDup (map HybridSearch.chunk_id out)
       /\ (forall c, In c (map HybridSearch.chunk_id out)
                     <-> exists l, In l HybridSearch.sample_lists
                                   /\ In c (map HybridSearch.chunk_id l)).
Proof.
  split; [exact sample_lists_ranked|]. split; [exact sample_lists_NoDup|].
  exact (proj1 rrf_score_is_sum_of_reciprocal_ranks Q string HybridSearch.sample_lists 60
           sample_lists_ranked sample_lists_NoDup).
Defined.

(** C10, as the code has it.  When a chunk id occurs more than once in
    the lists being fused, the fused result for it is built from its first
    occurrence in scan order (list by list, so the earlier list wins).  In
    [HybridSearchEngine] it is that result with [score], [source] and [rank]
    rewritten and nothing else: the source becomes ["hybrid"], the rank the
    position in the fused list, and chunk id, content, metadata and match
    details are the first occurrence's.  In [VectorStore], whose dicts carry
    no source label, it is a copy of the first occurrence in which fusion
    sets [score] and adds [rrf_score], both the fused score; chunk id,
    content, metadata, match count and the rerank fields are the first
    occurrence's. *)
Theorem fused_result_comes_from_first_occurrence :
  (forall (Sc D : Type) (lists : list (list (HybridSearch.SearchResult Sc D))) (k : nat)
          (out : list (HybridSearch.SearchResult Q D)),
      HybridSearch._reciprocal_rank_fusion lists k = Some out ->
      forall j r, out !! j = Some r ->
        exists s x,
          first_occurrence HybridSearch.chunk_id (HybridSearch.chunk_id r) lists = Some x
          /\ r = HybridSearch.fused x s j
          /\ HybridSearch.content r = HybridSearch.content x
          /\ HybridSearch.metadata r = HybridSearch.metadata x
          /\ HybridSearch.match_details r = HybridSearch.match_details x
          /\ HybridSearch.chunk_id r = HybridSearch.chunk_id x
          /\ HybridSearch.score r = s
          /\ HybridSearch.source r = "hybrid"
          /\ HybridSearch.rank r = j + 1)
  /\ (forall (lists : list (list VectorStore.Result)) (k : nat)
             (out : list VectorStore.Result),
         VectorStore._reciprocal_rank_fusion lists k = Some out ->
         forall r, r ∈ out ->
           exists x,
             first_occurrence VectorStore.chunk_id (VectorStore.chunk_id r) lists = Some x
             /\ VectorStore.chunk_id r = VectorStore.chunk_id x
             /\ VectorStore.content r = VectorStore.content x
             /\ VectorStore.metadata r = VectorStore.metadata x
             /\ VectorStore.match_count r = VectorStore.match_count x
             /\ VectorStore.original_score r = VectorStore.original_score x
             /\ VectorStore.rerank_score r = VectorStore.rerank_score x
             /\ VectorStore.rrf_score r = Some (VectorStore.score r)).
Proof.
  split.
  - intros Sc D lists k out H j r Hj.
    destruct (HybridFusionFacts.reciprocal_rank_fusion_first lists k out H j r Hj)
      as (s & x & Hx & ->).
    exists s, x. repeat split; trivial.
  - intros lists k out H r Hr.
    destruct (VectorStoreFusionFacts.store_rank_fusion_spec lists k)
      as (out' & Hout & _ & _ & _ & Hchar).
    rewrite Hout in H. injection H as <-.
    destruct (Hchar r Hr) as (s & x & Hx & -> & _).
    exists x. repeat split; trivial.
Qed.

Lemma fused_result_comes_from_first_occurrence_witness :
  HybridSearch._reciprocal_rank_fusion HybridSearch.sample_lists 60
    = Some (default [] (HybridSearch._reciprocal_rank_fusion HybridSearch.sample_lists 60))
  /\ (forall j r,
        default [] (HybridSearch._reciprocal_rank_fusion HybridSearch.sample_lists 60) !! j
          = Some r ->
        exists s x,
          first_occurrence HybridSearch.chunk_id (HybridSearch.chunk_id r)
                           HybridSearch.sample_lists = Some x
          /\ r = HybridSearch.fused x s j
          /\ HybridSearch.content r = HybridSearch.content x
          /\ HybridSearch.metadata r = HybridSearch.metadata x
          /\ HybridSearch.match_details r = HybridSearch.match_details x
          /\ HybridSearch.chunk_id r = HybridSearch.chunk_id x
          /\ HybridSearch.score r = s
          /\ HybridSearch.source r = "hybrid"
          /\ HybridSearch.rank r = j + 1)
  /\ VectorStore._reciprocal_rank_fusion VectorStore.sample_lists 60
     = Some (default [] (VectorStore._reciprocal_rank_fusion VectorStore.sample_lists 60))
  /\ forall r,
       r ∈ default [] (VectorStore._reciprocal_rank_fusion VectorStore.sample_lists 60) ->
       exists x,
         first_occurrence VectorStore.chunk_id (VectorStore.chunk_id r)
                          VectorStore.sample_lists = Some x
         /\ VectorStore.chunk_id r = VectorStore.chunk_id x
         /\ VectorStore.content r = VectorStore.content x
         /\ VectorStore.metadata r = VectorStore.metadata x
         /\ VectorStore.match_count r = VectorStore.match_count x
         /\ VectorStore.original_score r = VectorStore.original_score x
         /\ VectorStore.rerank_score r = VectorStore.rerank_score x
         /\ VectorStore.rrf_score r = Some (VectorStore.score r).
Proof.
  split; [vm_compute; reflexivity|]. split; [|split; [vm_compute; reflexivity|]].
  - apply (proj1 fused_result_comes_from_first_occurrence Q string
             HybridSearch.sample_lists 60).
    vm_compute; reflexivity.
  - apply (proj2 fused_result_comes_from_first_occurrence VectorStore.sample_lists 60).
    vm_compute; reflexivity.
Defined.

(** C10 fails in [VectorStore] as it is written: fusing the two sample
    rankings, the result for ["c-duracion"] (in both lists) is built from its
    occurrence in the first list, but fusion writes the key [rrf_score],
    which is none of score, source label and rank, and the fused list carries
    the ranks 2, 1, 2 of the first occurrences instead of positions. *)
Lemma store_fusion_writes_rrf_score :
  exists r1 r2 r3 x,
    VectorStore._reciprocal_rank_fusion VectorStore.sample_lists 60 = Some [r1; r2; r3]
    /\ VectorStore.chunk_id r1 = PStr "c-duracion"
    /\ first_occurrence VectorStore.chunk_id (VectorStore.chunk_id r1)
                        VectorStore.sample_lists = Some x
    /\ VectorStore.content r1 = "La duracion es de 5 anos"
    /\ VectorStore.rrf_score x = None
    /\ VectorStore.rrf_score r1 = Some (VectorStore.score r1)
    /\ ~ VectorStore.only_score_and_rank_rewritten x r1
    /\ map VectorStore.rank [r1; r2; r3] = [Some 2; Some 1; Some 2].
Proof.
  do 4 eexists. split; [vm_compute; reflexivity|].
  split; [reflexivity|]. split; [vm_compute; reflexivity|].
  split; [reflexivity|]. split; [reflexivity|]. split; [reflexivity|].
  split; [|reflexivity].
  intros (_ & _ & _ & _ & _ & _ & H). discriminate H.
Qed.
End FusionClaims.

(** ** Weighted fusion: the claim *)

Module WeightedFusionClaims.
Import Py PyFacts Fusion FusionFacts HybridSearch HybridFusionFacts.

Lemma list_min_attained x l :
  (list_min x l == x)%Q \/ exists y, In y l /\ (list_min x l == y)%Q.
Proof.
  revert x. induction l as [|z l IH]; intros x; [left; reflexivity|].
  unfold list_min in *. cbn [foldl].
  destruct (IH (Qmin x z)) as [H|(y & Hy & H)].
  - destruct (Q.min_dec x z) as [E|E].
    + left. now rewrite H.
    + right. exists z. split; [now left|now rewrite H].
  - right. exists y. split; [now right|exact H].
Qed.

Lemma list_max_attained x l :
  (list_max x l == x)%Q \/ exists y, In y l /\ (list_max x l == y)%Q.
Proof.
  revert x. induction l as [|z l IH]; intros x; [left; reflexivity|].
  unfold list_max in *. cbn [foldl].
  destruct (IH (Qmax x z)) as [H|(y & Hy & H)].
  - destruct (Q.max_dec x z) as [E|E].
    + left. now rewrite H.
    + right. exists z. split; [now left|now rewrite H].
  - right. exists y. split; [now right|exact H].
Qed.

Section Weighted.
Context {D : Type}.
Implicit Types (L : list (SearchResult Q D)) (lists : list (list (SearchResult Q D))).

(** The smallest and the largest score of a non-empty list, as the
    normalisation computes them. *)
Lemma list_range r0 (rs : list (SearchResult Q D)) :
  score_range (r0 :: rs) (list_min (score r0) (map score rs))
              (list_max (score r0) (map score rs)).
Proof.
  destruct (list_max_ge (score r0) (map score rs)) as [M1 M2].
  destruct (list_min_le (score r0) (map score rs)) as [N1 N2].
  split; [|split].
  - intros r Hr. apply elem_of_cons in Hr as [->|Hr]; [split; assumption|].
    apply list_elem_of_In in Hr. split; [apply N2|apply M2]; now apply in_map.
  - destruct (list_min_attained (score r0) (map score rs)) as [H|(y & Hy & H)].
    + exists r0. split; [left|now symmetry].
    + apply in_map_iff in Hy as (r & <- & Hr). exists r.
      split; [right; now apply list_elem_of_In|now symmetry].
  - destruct (list_max_attained (score r0) (map score rs)) as [H|(y & Hy & H)].
    + exists r0. split; [left|now symmetry].
    + apply in_map_iff in Hy as (r & <- & Hr). exists r.
      split; [right; now apply list_elem_of_In|now symmetry].
Qed.

(** A list with two different scores is min-max scaled, result by
    result. *)
Lemma normalize_scaled L a b :
  a ∈ L -> b ∈ L -> (score a < score b)%Q ->
  exists lo hi,
    score_range L lo hi /\ (lo < hi)%Q
    /\ Forall2 (fun x r => rescored (min_max lo hi (score x)) x r) L (normalize L).
Proof.
  destruct L as [|r0 rs]; [intros Ha; inversion Ha|]. intros Ha Hb Hab.
  pose proof (list_range r0 rs) as Hrange.
  set (mx := list_max (score r0) (map score rs)) in *.
  set (mn := list_min (score r0) (map score rs)) in *.
  assert (Hlt : (mn < mx)%Q).
  { destruct Hrange as (Hbounds & _).
    destruct (Hbounds a Ha) as [Ha1 _]. destruct (Hbounds b Hb) as [_ Hb2].
    eapply Qle_lt_trans; [exact Ha1|]. eapply Qlt_le_trans; eauto. }
  exists mn, mx. split; [exact Hrange|]. split; [exact Hlt|].
  unfold normalize. fold mx mn.
  destruct (Qlt_le_dec 0 (mx - mn)) as [_|Hle].
  - apply Forall2_fmap_r, Forall_Forall2_diag, Forall_forall.
    intros x _. repeat split.
  - exfalso. apply (Qlt_minus_iff mn mx) in Hlt. exact (Qlt_not_le _ _ Hlt Hle).
Qed.

Lemma normalize_ids L : map chunk_id (normalize L) = map chunk_id L.
Proof.
  unfold normalize. destruct L as [|r rs]; [reflexivity|].
  destruct (Qlt_le_dec 0 _); [|reflexivity]. now rewrite map_map.
Qed.

Lemma weighted_contributions c (L : list (SearchResult Q D)) (w : Q) :
  contributions c (map (fun result => (chunk_id result, (score result * w)%Q, result)) L)
  = map (fun x => (score x * w)%Q)
        (List.filter (fun x => bool_decide (chunk_id x = c)) L).
Proof.
  unfold contributions. induction L as [|x L IH]; [reflexivity|].
  cbn [map List.filter fst snd]. destruct (bool_decide (chunk_id x = c)); cbn [map fst snd];
    now rewrite IH.
Qed.

Lemma zip_normalize lists (ws : list Q) :
  zip (map normalize lists) ws
  = map (fun lw : list (SearchResult Q D) * Q => (normalize lw.1, lw.2)) (zip lists ws).
Proof.
  revert ws. induction lists as [|L lists IH]; intros [|w ws]; simpl; trivial.
  now rewrite IH.
Qed.

(** What [_weighted_fusion] returns: one result per chunk id of the lists
    that have a weight, scored with the weighted combination of the
    normalised lists. *)
Lemma weighted_fusion_spec lists weights out :
  _weighted_fusion lists weights = Some out ->
  exists ws,
    weights_in_force (length lists) weights ws
    /\ NoDup (map chunk_id out)
    /\ (forall c, In c (map chunk_id out)
                  <-> exists lw, In lw (zip lists ws) /\ In c (map chunk_id lw.1))
    /\ forall r, r ∈ out ->
         (score r == weighted_score (chunk_id r) (map normalize lists) ws)%Q.
Proof.
  unfold _weighted_fusion. intros H.
  destruct (default_weights (length lists) weights) as [ws|] eqn:Ew; [|discriminate].
  cbn [mbind option_bind] in H.
  assert (Hws : weights_in_force (length lists) weights ws).
  { unfold default_weights in Ew. unfold weights_in_force.
    destruct weights as [[|w ws']|]; [|congruence|];
      destruct (length lists =? 0)%nat; congruence. }
  exists ws. split; [exact Hws|].
  set (entries_of := fun lw : list (SearchResult Q D) * Q =>
                       map (fun result => (chunk_id result, (score result * lw.2)%Q, result))
                           lw.1) in *.
  set (es := concat (map entries_of (zip (map normalize lists) ws))) in *.
  assert (Hcons : forall e, In e es -> e.1.1 = chunk_id e.2).
  { intros e He. unfold es in He. apply in_concat in He as (l & Hl & He).
    apply in_map_iff in Hl as (lw & <- & _).
    apply in_map_iff in He as (r & <- & _). reflexivity. }
  destruct (fuse_accumulated es Hcons) as (out' & Hout & _ & Hperm & Hchar).
  pose proof (accumulate_accumulated es) as Hacc.
  destruct (accumulate es) as [fs ar]. cbn [fst snd] in *.
  rewrite Hout in H. injection H as <-.
  split; [rewrite Hperm; apply Hacc|]. split.
  - intros c. transitivity (In c (od_keys fs)).
    { split; apply Permutation_in; [exact Hperm|symmetry; exact Hperm]. }
    rewrite (accumulated_key es (fs, ar) c Hacc). unfold es.
    rewrite zip_normalize. split.
    + intros (e & He & <-). apply in_concat in He as (l & Hl & He).
      apply in_map_iff in Hl as (nlw & <- & Hlw).
      apply in_map_iff in Hlw as (lw & <- & Hlw).
      apply in_map_iff in He as (r & <- & Hr). cbn [fst snd] in *.
      exists lw. split; [exact Hlw|]. rewrite <- normalize_ids. now apply in_map.
    + intros (lw & Hlw & Hc). rewrite <- normalize_ids in Hc.
      apply in_map_iff in Hc as (r & <- & Hr).
      exists (chunk_id r, (score r * lw.2)%Q, r). split; [|reflexivity].
      apply in_concat. exists (entries_of (normalize lw.1, lw.2)). split.
      * apply in_map. apply in_map_iff. exists lw. auto.
      * unfold entries_of. cbn [fst snd].
        apply (in_map (fun result => (chunk_id result, (score result * lw.2)%Q, result))).
        exact Hr.
  - intros r Hr. apply list_elem_of_lookup in Hr as [j Hj].
    destruct (Hchar j r Hj) as (s & x & _ & Hs & ->). cbn [score chunk_id fused].
    rewrite Hs. unfold es. rewrite contributions_concat, Qsum_concat, !map_map.
    unfold weighted_score. apply Qsum_pointwise. intros lw _.
    unfold entries_of. now rewrite weighted_contributions.
Qed.

(** C8.  In weighted fusion a list whose scores all have one value (zero
    min-max range) is left unnormalized; fusing any non-empty collection of
    lists, such a list included, returns a result (no division by zero, with
    or without weights); a list holding two different scores (positive
    range) is min-max scaled, result by result, between its smallest and its
    largest score, so that every score lies in [0, 1]; and the fused list
    has one result per chunk id of the weighted lists, scored with the
    weighted sum of the scores of the lists so normalised. *)
Theorem weighted_fusion_zero_range_is_safe :
  (forall (L : list (SearchResult Q D)) (v : Q),
      (forall r, r ∈ L -> (score r == v)%Q) -> normalize L = L)
  /\ (forall (lists : list (list (SearchResult Q D))) (weights : option (list Q)),
         lists <> [] -> exists out, _weighted_fusion lists weights = Some out)
  /\ (forall (L : list (SearchResult Q D)) (a b : SearchResult Q D),
         a ∈ L -> b ∈ L -> (score a < score b)%Q ->
         length (normalize L) = length L
         /\ forall r, r ∈ normalize L -> (0 <= score r)%Q /\ (score r <= 1)%Q)
  /\ (forall (L : list (SearchResult Q D)) (a b : SearchResult Q D),
         a ∈ L -> b ∈ L -> (score a < score b)%Q ->
         exists lo hi,
           score_range L lo hi /\ (lo < hi)%Q
           /\ Forall2 (fun x r => rescored (min_max lo hi (score x)) x r)
                      L (normalize L))
  /\ (forall (lists : list (list (SearchResult Q D))) (weights : option (list Q))
             (out : list (SearchResult Q D)),
         _weighted_fusion lists weights = Some out ->
         exists ws,
           weights_in_force (length lists) weights ws
           /\ NoDup (map chunk_id out)
           /\ (forall c, In c (map chunk_id out)
                         <-> exists lw, In lw (zip lists ws)
                                        /\ In c (map chunk_id lw.1))
           /\ forall r, r ∈ out ->
                (score r
                 == weighted_score (chunk_id r) (map normalize lists) ws)%Q).
Proof.
  split; [|split; [|split; [|split]]].
  - apply normalize_constant.
  - apply weighted_fusion_total.
  - apply normalize_range.
  - apply normalize_scaled.
  - apply weighted_fusion_spec.
Qed.
End Weighted.

Lemma weighted_fusion_zero_range_is_safe_witness :
  (forall r, r ∈ sample_constant_list -> (score r == 1 # 2)%Q)
  /\ normalize sample_constant_list = sample_constant_list
  /\ [sample_constant_list; sample_constant_list] <> []
  /\ (exists out,
        _weighted_fusion [sample_constant_list; sample_constant_list]
                         (Some [6 # 10; 4 # 10]) = Some out)
  /\ (exists lo hi,
        score_range sample_spread_list lo hi /\ (lo < hi)%Q
        /\ Forall2 (fun x r => rescored (min_max lo hi (score x)) x r)
                   sample_spread_list (normalize sample_spread_list))
  /\ exists ws,
       weights_in_force 2 (Some [6 # 10; 4 # 10]) ws
       /\ forall r,
            r ∈ default [] (_weighted_fusion [sample_spread_list; sample_constant_list]
                                             (Some [6 # 10; 4 # 10])) ->
            (score r
             == weighted_score (chunk_id r)
                  (map normalize [sample_spread_list; sample_constant_list]) ws)%Q.
Proof.
  assert (H : forall r, r ∈ sample_constant_list -> (score r == 1 # 2)%Q).
  { intros r Hr. unfold sample_constant_list in Hr.
    apply elem_of_cons in Hr as [->|Hr]; [reflexivity|].
    apply elem_of_cons in Hr as [->|Hr]; [reflexivity|]. inversion Hr. }
  split; [exact H|]. split; [|split; [discriminate|split; [|split]]].
  - exact (proj1 (@weighted_fusion_zero_range_is_safe string) sample_constant_list
             (1 # 2) H).
  - apply (proj1 (proj2 (@weighted_fusion_zero_range_is_safe string))). discriminate.
  - apply (proj1 (proj2 (proj2 (proj2 (@weighted_fusion_zero_range_is_safe string))))
             sample_spread_list
             (sample_result "c-penal" "Penalizacion del 10% de interes" "keyword" (1 # 1) 2)
             (sample_result "c-renta" "La renta mensual es de 3000 euros" "keyword"
                            (3 # 1) 1)).
    + apply list_elem_of_In. simpl. auto.
    + apply list_elem_of_In. simpl. auto.
    + reflexivity.
  - destruct (proj2 (proj2 (proj2 (proj2 (@weighted_fusion_zero_range_is_safe string))))
                [sample_spread_list; sample_constant_list] (Some [6 # 10; 4 # 10])
                (default [] (_weighted_fusion [sample_spread_list; sample_constant_list]
                                              (Some [6 # 10; 4 # 10]))))
      as (ws & Hws & _ & _ & Hscore); [vm_compute; reflexivity|].
    exists ws. split; [exact Hws|exact Hscore].
Defined.
End WeightedFusionClaims.

(** ** The vector store *)

Module VectorStoreFacts.
Import Py PyFacts Fusion VectorStore.

Lemma filter_match_spec (f md : gmap string pyval) :
  filter_match f md = true
  <-> forall key value, f !! key = Some value -> default PNone (md !! key) = value.
Proof.
  unfold filter_match. rewrite forallb_forall. split.
  - intros H key value Hkv.
    specialize (H (key, value)). simpl in H.
    apply bool_decide_eq_true in H; [exact H|].
    apply list_elem_of_In. now apply elem_of_map_to_list.
  - intros H [key value] Hin. simpl. apply bool_decide_eq_true.
    apply H. apply elem_of_map_to_list. now apply list_elem_of_In.
Qed.

(** The filter is a conjunction of equalities, one per key it holds. *)
Lemma passes_spec (fd : option (gmap string pyval)) (md : gmap string pyval) :
  passes fd md = true
  <-> forall f key value,
        fd = Some f -> f !! key = Some value -> default PNone (md !! key) = value.
Proof.
  destruct fd as [f|]; simpl.
  - destruct (bool_decide_reflect (f = ∅)) as [->|Hne]; simpl.
    + split; [|trivial]. intros _ f key value [= <-] H.
      rewrite lookup_empty in H. discriminate.
    + rewrite filter_match_spec. split.
      * intros H f' key value [= <-]. apply H.
      * intros H key value. now apply H.
  - split; [|trivial]. intros _ f key value H. discriminate.
Qed.

Section Hits.
Context {Vec : Type}.
Implicit Types (st : Store Vec) (hits : list (nat * (Q * Z))).

Lemma format_hits_sound st fd hits out :
  format_hits st fd hits = Some out ->
  forall r, r ∈ out ->
    exists i dist idx,
      In (i, (dist, idx)) hits
      /\ index (faiss_metadata st) idx = Some (metadata r)
      /\ index (faiss_documents st) idx = Some (content r)
      /\ passes fd (metadata r) = true
      /\ rank r = Some (i + 1) /\ score r = dist
      /\ chunk_id r = default PNone (metadata r !! "chunk_id").
Proof.
  revert out. induction hits as [|[i [dist idx]] hits IH]; intros out H r Hr;
    simpl in H.
  - injection H as <-. inversion Hr.
  - destruct (idx =? -1)%Z; [injection H as <-; inversion Hr|].
    destruct (index (faiss_metadata st) idx) as [md|] eqn:Emd; [|discriminate].
    simpl in H. destruct (passes fd md) eqn:Ep; simpl in H.
    + destruct (index (faiss_documents st) idx) as [doc|] eqn:Edoc; [|discriminate].
      simpl in H. destruct (format_hits st fd hits) as [tl|]; [|discriminate].
      simpl in H. injection H as <-.
      apply elem_of_cons in Hr as [->|Hr].
      * exists i, dist, idx. simpl. repeat split; auto.
      * destruct (IH tl eq_refl r Hr) as (i' & d' & x' & Hin & Hrest).
        exists i', d', x'. split; [now right|exact Hrest].
    + destruct (IH out H r Hr) as (i' & d' & x' & Hin & Hrest).
      exists i', d', x'. split; [now right|exact Hrest].
Qed.

Lemma format_hits_complete st fd hits out :
  format_hits st fd hits = Some out ->
  forall n i dist idx md,
    hits !! n = Some (i, (dist, idx)) ->
    (forall m h, m <= n -> hits !! m = Some h -> h.2.2 <> (-1)%Z) ->
    index (faiss_metadata st) idx = Some md ->
    passes fd md = true ->
    exists r, r ∈ out /\ rank r = Some (i + 1) /\ metadata r = md /\ score r = dist.
Proof.
  revert out. induction hits as [|[i0 [d0 x0]] hits IH];
    intros out H n i dist idx md Hn Hcut Hmd Hp; [discriminate|].
  simpl in H.
  assert (Hx0 : x0 <> (-1)%Z) by exact (Hcut 0 (i0, (d0, x0)) ltac:(lia) eq_refl).
  destruct (Z.eqb_spec x0 (-1)); [contradiction|].
  destruct (index (faiss_metadata st) x0) as [md0|] eqn:Emd0; [|discriminate].
  simpl in H.
  destruct n as [|n].
  - injection Hn as -> -> ->. rewrite Hmd in Emd0. injection Emd0 as <-.
    rewrite Hp in H. simpl in H.
    destruct (index (faiss_documents st) idx) as [doc|]; [|discriminate].
    simpl in H. destruct (format_hits st fd hits) as [tl|]; [|discriminate].
    simpl in H. injection H as <-.
    eexists. split; [apply list_elem_of_here|]. simpl. auto.
  - simpl in Hn.
    assert (Hcut' : forall m h, m <= n -> hits !! m = Some h -> h.2.2 <> (-1)%Z).
    { intros m h Hm Hh. apply (Hcut (S m) h); [lia|exact Hh]. }
    destruct (passes fd md0); simpl in H.
    + destruct (index (faiss_documents st) x0) as [doc|]; [|discriminate].
      simpl in H. destruct (format_hits st fd hits) as [tl|] eqn:Etl; [|discriminate].
      simpl in H. injection H as <-.
      destruct (IH tl eq_refl n i dist idx md Hn Hcut' Hmd Hp) as (r & Hr & Hrest).
      exists r. split; [now apply list_elem_of_further|exact Hrest].
    + exact (IH out H n i dist idx md Hn Hcut' Hmd Hp).
Qed.
End Hits.

Lemma In_enumerate {A} (l : list A) i x : In (i, x) (enumerate l) <-> l !! i = Some x.
Proof.
  rewrite <- list_elem_of_In, list_elem_of_lookup. split.
  - intros [j Hj]. rewrite enumerate_lookup in Hj.
    destruct (l !! j) eqn:E; simpl in Hj; [|discriminate]. now injection Hj as -> ->.
  - intros H. exists i. now rewrite enumerate_lookup, H.
Qed.

Section AddChunks.
Context {Vec : Type} (embed_documents : list string -> list Vec).

Lemma zip_rows_metadata (chunks : list Chunk) :
  map (fun row : string * gmap string pyval * string =>
         <["chunk_id" := PStr row.2]> row.1.2)
      (zip (zip (map c_content chunks) (map c_metadata chunks)) (map c_chunk_id chunks))
  = map (fun c => <["chunk_id" := PStr (c_chunk_id c)]> (c_metadata c)) chunks.
Proof. induction chunks as [|c chunks IH]; simpl; [reflexivity|]. now rewrite IH. Qed.

Lemma zip_rows_documents (chunks : list Chunk) :
  map (fun row : string * gmap string pyval * string => row.1.1)
      (zip (zip (map c_content chunks) (map c_metadata chunks)) (map c_chunk_id chunks))
  = map c_content chunks.
Proof. induction chunks as [|c chunks IH]; simpl; [reflexivity|]. now rewrite IH. Qed.

Lemma add_chunks_rows (st : Store Vec) (chunks : list Chunk) :
  faiss_metadata (add_chunks embed_documents st chunks).1
  = faiss_metadata st
    ++ map (fun c => <["chunk_id" := PStr (c_chunk_id c)]> (c_metadata c)) chunks
  /\ faiss_documents (add_chunks embed_documents st chunks).1
     = faiss_documents st ++ map c_content chunks
  /\ (chunks <> [] ->
      faiss_index (add_chunks embed_documents st chunks).1
      = faiss_index st ++ embed_documents (map c_content chunks)).
Proof.
  destruct chunks as [|c chunks].
  - cbn. rewrite !app_nil_r. repeat split. intros H. now destruct H.
  - pose proof (zip_rows_metadata (c :: chunks)) as Hm.
    pose proof (zip_rows_documents (c :: chunks)) as Hd.
    unfold add_chunks, _add_to_faiss. simpl in Hm, Hd |- *.
    rewrite Hm, Hd. repeat split.
Qed.

(** The entries with a given id after an addition: those before it and
    one per added chunk with that id. *)
Lemma add_chunks_entries (st : Store Vec) (chunks : list Chunk) (cid : string) :
  entries_with_id (add_chunks embed_documents st chunks).1 cid
  = entries_with_id st cid
    + length (List.filter (fun c => bool_decide (c_chunk_id c = cid)) chunks).
Proof.
  destruct (add_chunks_rows st chunks) as (Hm & _ & _).
  unfold entries_with_id. rewrite Hm, List.filter_app, length_app. f_equal.
  clear Hm. induction chunks as [|c chunks IH]; [reflexivity|].
  cbn [map List.filter]. rewrite lookup_insert_eq.
  destruct (decide (c_chunk_id c = cid)) as [->|Hne].
  - rewrite (bool_decide_eq_true_2 (Some (PStr cid) = Some (PStr cid))) by reflexivity.
    rewrite (bool_decide_eq_true_2 (cid = cid)) by reflexivity.
    cbn [length]. now rewrite IH.
  - rewrite (bool_decide_eq_false_2 (Some (PStr (c_chunk_id c)) = Some (PStr cid)))
      by congruence.
    rewrite (bool_decide_eq_false_2 (c_chunk_id c = cid)) by exact Hne.
    exact IH.
Qed.
End AddChunks.
End VectorStoreFacts.

Module VectorStoreClaims.
Import Py PyFacts Fusion VectorStore VectorStoreFacts.

Section Claims.
Context {Vec : Type}.
Variable embed_documents : list string -> list Vec.
Variable embed_query : string -> Vec.
Variable index_search : list Vec -> Vec -> nat -> list (Q * Z).
Variable settings : SearchConfig.

Lemma search_candidates (st : Store Vec) query top_k fd :
  search embed_query index_search settings st query top_k fd
  = cands ← candidates embed_query index_search settings st query top_k fd;
    Some (take (or_default top_k (top_k_final settings))
               (List.filter (above_threshold settings) cands)).
Proof.
  unfold search, candidates.
  destruct (_search_faiss index_search st (embed_query query) _ fd); reflexivity.
Qed.

(** C1, as the code has it.  [search] drops every candidate below the
    similarity threshold and only then cuts the list to [top_k]: no result
    below the threshold is returned, whatever its rank among the candidates.
    [hybrid_search] applies the threshold inside its vector branch only (it
    calls [search]); the keyword results and the fused or reranked scores are
    not compared with the threshold, and the fused list is only cut to
    [top_k]. *)
Theorem search_filters_then_truncates (st : Store Vec) (query : string)
    (top_k : option nat) :
  (forall fd out,
      search embed_query index_search settings st query top_k fd = Some out ->
      exists cands,
        candidates embed_query index_search settings st query top_k fd = Some cands
        /\ out = take (or_default top_k (top_k_final settings))
                      (List.filter (above_threshold settings) cands)
        /\ (forall r, r ∈ out -> (similarity_threshold settings <= score r)%Q)
        /\ (forall r, r ∈ cands ->
              (score r < similarity_threshold settings)%Q -> r ∉ out))
  /\ (forall out,
         hybrid_search embed_query index_search settings st query top_k = Some out ->
         exists vector_results fused_results,
           search embed_query index_search settings st query
                  (Some (top_k_vector settings)) None = Some vector_results
           /\ (forall r, r ∈ vector_results ->
                 (similarity_threshold settings <= score r)%Q)
           /\ _reciprocal_rank_fusion
                [vector_results; _keyword_search st query (top_k_keyword settings)] 60
              = Some fused_results
           /\ out = take (or_default top_k (top_k_final settings))
                         (match reranker st with
                          | Some _ => _rerank_results st query fused_results
                          | None => fused_results
                          end)).
Proof.
  assert (Hsearch : forall k fd out,
            search embed_query index_search settings st query k fd = Some out ->
            exists cands,
              candidates embed_query index_search settings st query k fd = Some cands
              /\ out = take (or_default k (top_k_final settings))
                            (List.filter (above_threshold settings) cands)
              /\ (forall r, r ∈ out -> (similarity_threshold settings <= score r)%Q)
              /\ (forall r, r ∈ cands ->
                    (score r < similarity_threshold settings)%Q -> r ∉ out)).
  { intros k fd out H. rewrite search_candidates in H.
    destruct (candidates embed_query index_search settings st query k fd)
      as [cands|]; [|discriminate].
    simpl in H. injection H as <-. exists cands.
    assert (Habove : forall r,
              r ∈ take (or_default k (top_k_final settings))
                       (List.filter (above_threshold settings) cands) ->
              (similarity_threshold settings <= score r)%Q).
    { intros r Hr. apply elem_of_take in Hr as (i & Hi & _).
      apply list_elem_of_lookup_2, list_elem_of_In, filter_In in Hi as [_ Hi].
      now apply Qle_bool_iff in Hi. }
    repeat split; trivial.
    intros r _ Hlt Hr. apply Habove in Hr. exact (Qlt_not_le _ _ Hlt Hr). }
  split; [apply Hsearch|].
  intros out H. unfold hybrid_search in H.
  destruct (search embed_query index_search settings st query
              (Some (top_k_vector settings)) None) as [vector_results|] eqn:Ev;
    [|discriminate].
  simpl in H.
  destruct (_reciprocal_rank_fusion _ 60) as [fused_results|] eqn:Ef; [|discriminate].
  simpl in H. injection H as <-.
  exists vector_results, fused_results. repeat split; trivial.
  destruct (Hsearch _ _ _ Ev) as (cands & _ & _ & Habove & _). exact Habove.
Qed.

(** C3, as the code has it.  On the FAISS backend [add_chunks] appends one
    entry (vector, text and metadata carrying the chunk id) per chunk it is
    given and never looks at what is stored: every addition of a chunk adds
    one to the number of indexed entries with its id, and an addition of
    several chunks adds, for every id, as many entries as chunks carry it. *)
Theorem add_chunks_appends_an_entry (st : Store Vec) (chunk : Chunk) :
  entries_with_id (add_chunks embed_documents st [chunk]).1 (c_chunk_id chunk)
  = S (entries_with_id st (c_chunk_id chunk))
  /\ faiss_metadata (add_chunks embed_documents st [chunk]).1
     = faiss_metadata st
       ++ [<["chunk_id" := PStr (c_chunk_id chunk)]> (c_metadata chunk)]
  /\ faiss_documents (add_chunks embed_documents st [chunk]).1
     = faiss_documents st ++ [c_content chunk]
  /\ faiss_index (add_chunks embed_documents st [chunk]).1
     = faiss_index st ++ embed_documents [c_content chunk]
  /\ (add_chunks embed_documents st [chunk]).2 = Some 1
  /\ forall (chunks : list Chunk) (cid : string),
       entries_with_id (add_chunks embed_documents st chunks).1 cid
       = entries_with_id st cid
         + length (List.filter (fun c => bool_decide (c_chunk_id c = cid)) chunks)
       /\ faiss_metadata (add_chunks embed_documents st chunks).1
          = faiss_metadata st
            ++ map (fun c => <["chunk_id" := PStr (c_chunk_id c)]> (c_metadata c))
                   chunks
       /\ faiss_documents (add_chunks embed_documents st chunks).1
          = faiss_documents st ++ map c_content chunks
       /\ (chunks <> [] ->
           faiss_index (add_chunks embed_documents st chunks).1
           = faiss_index st ++ embed_documents (map c_content chunks)).
Proof.
  destruct (add_chunks_rows embed_documents st [chunk]) as (Hm & Hd & Hi).
  split; [|split; [exact Hm|split; [exact Hd|split; [now apply Hi|split]]]].
  - rewrite (add_chunks_entries embed_documents st [chunk] (c_chunk_id chunk)).
    cbn [List.filter]. rewrite bool_decide_eq_true_2 by reflexivity. simpl. lia.
  - reflexivity.
  - intros chunks cid.
    destruct (add_chunks_rows embed_documents st chunks) as (Hm' & Hd' & Hi').
    split; [apply add_chunks_entries|]. split; [exact Hm'|]. split; [exact Hd'|exact Hi'].
Qed.

(** C4, as the code has it.  The metadata filter is a conjunction of
    equalities, one per key of the filter.  [_search_faiss] applies it to the
    [window] nearest entries the index returns, i.e. after the index has cut
    its answer to [min (max (2 * top_k) 1) ntotal] entries: the results are
    exactly the hits among those that satisfy the filter (up to the first
    padding index [-1]), each with the rank of its position in the
    unfiltered answer. *)
Theorem faiss_filter_applies_within_window (st : Store Vec) (query_embedding : Vec)
    (top_k : nat) (fd : option (gmap string pyval)) (out : list Result) :
  _search_faiss index_search st query_embedding top_k fd = Some out ->
  (forall md,
      passes fd md = true
      <-> forall f key value,
            fd = Some f -> f !! key = Some value -> default PNone (md !! key) = value)
  /\ (forall r, r ∈ out ->
        exists i dist idx,
          index_search (faiss_index st) query_embedding (window st top_k) !! i
            = Some (dist, idx)
          /\ index (faiss_metadata st) idx = Some (metadata r)
          /\ passes fd (metadata r) = true
          /\ rank r = Some (i + 1) /\ score r = dist)
  /\ (forall i dist idx md,
        faiss_index st <> [] ->
        index_search (faiss_index st) query_embedding (window st top_k) !! i
          = Some (dist, idx) ->
        (forall j h, j <= i ->
           index_search (faiss_index st) query_embedding (window st top_k) !! j = Some h ->
           h.2 <> (-1)%Z) ->
        index (faiss_metadata st) idx = Some md ->
        passes fd md = true ->
        exists r, r ∈ out /\ rank r = Some (i + 1) /\ metadata r = md /\ score r = dist).
Proof.
  intros H. split; [intros md; apply passes_spec|].
  unfold _search_faiss in H.
  destruct (length (faiss_index st) =? 0)%nat eqn:E.
  - injection H as <-. apply Nat.eqb_eq in E. split.
    + intros r Hr. inversion Hr.
    + intros i dist idx md Hne. destruct (faiss_index st); [contradiction|discriminate].
  - split.
    + intros r Hr.
      destruct (format_hits_sound _ _ _ _ H r Hr)
        as (i & dist & idx & Hin & Hmd & _ & Hp & Hrank & Hscore & _).
      apply In_enumerate in Hin. exists i, dist, idx. auto.
    + intros i dist idx md _ Hi Hcut Hmd Hp.
      apply (format_hits_complete _ _ _ _ H i i dist idx md); trivial.
      * now rewrite enumerate_lookup, Hi.
      * intros m h Hm Hh. rewrite enumerate_lookup in Hh.
        destruct (index_search _ _ _ !! m) as [h'|] eqn:Eh; [|discriminate].
        simpl in Hh. injection Hh as <-. simpl. exact (Hcut m h' Hm Eh).
Qed.
End Claims.

(** C1 fails on the hybrid path: a chunk whose similarity (0) is below the
    threshold (0.15) is dropped by [search], comes back through the keyword
    branch and is returned by [hybrid_search] with a fused score of 1/61,
    still below the threshold; filtering after fusion would return nothing. *)
Lemma hybrid_search_returns_result_below_threshold :
  search sample_embed flat_ip_search default_settings store_penal "renta" None None
    = Some []
  /\ hybrid_filter_then_truncate sample_embed flat_ip_search default_settings
                                 store_penal "renta" None = Some []
  /\ exists r,
       hybrid_search sample_embed flat_ip_search default_settings store_penal
                     "renta" None = Some [r]
       /\ chunk_id r = PStr "c-penal"
       /\ (score r == 1 # 61)%Q
       /\ (score r < similarity_threshold default_settings)%Q.
Proof.
  split; [vm_compute; reflexivity|]. split; [vm_compute; reflexivity|].
  eexists. split; [vm_compute; reflexivity|]. repeat split.
Qed.

Lemma search_filters_then_truncates_witness :
  search sample_embed flat_ip_search default_settings store_three "renta" (Some 1) None
    = Some (default [] (search sample_embed flat_ip_search default_settings
                               store_three "renta" (Some 1) None))
  /\ exists cands,
       candidates sample_embed flat_ip_search default_settings store_three "renta"
                  (Some 1) None = Some cands
       /\ default [] (search sample_embed flat_ip_search default_settings
                             store_three "renta" (Some 1) None)
          = take (or_default (Some 1) (top_k_final default_settings))
                 (List.filter (above_threshold default_settings) cands)
       /\ (forall r,
             r ∈ default [] (search sample_embed flat_ip_search default_settings
                                    store_three "renta" (Some 1) None) ->
             (similarity_threshold default_settings <= score r)%Q)
       /\ (forall r, r ∈ cands ->
             (score r < similarity_threshold default_settings)%Q ->
             r ∉ default [] (search sample_embed flat_ip_search default_settings
                                    store_three "renta" (Some 1) None)).
Proof.
  split; [vm_compute; reflexivity|].
  apply (proj1 (search_filters_then_truncates sample_embed flat_ip_search
                  default_settings store_three "renta" (Some 1)) None).
  vm_compute; reflexivity.
Defined.

(** C3 fails on the FAISS backend: the same chunk added twice is indexed
    twice, and a search returns both entries. *)
Lemma add_same_chunk_twice_two_entries :
  store_twice
    = (add_chunks sample_embed_documents
         (add_chunks sample_embed_documents empty_store [chunk_renta]).1
         [chunk_renta]).1
  /\ entries_with_id store_twice (c_chunk_id chunk_renta) = 2
  /\ length (faiss_index store_twice) = 2
  /\ (map chunk_id
        <$> search sample_embed flat_ip_search default_settings store_twice
                   "renta" None None)
     = Some [PStr "c-renta"; PStr "c-renta"].
Proof. repeat split; vm_compute; reflexivity. Qed.

Lemma add_chunks_appends_an_entry_witness :
  [chunk_renta; chunk_penal; chunk_renta] <> []
  /\ entries_with_id
       (add_chunks sample_embed_documents store_three
                   [chunk_renta; chunk_penal; chunk_renta]).1 "c-renta"
     = entries_with_id store_three "c-renta" + 2
  /\ faiss_index (add_chunks sample_embed_documents store_three
                              [chunk_renta; chunk_penal; chunk_renta]).1
     = faiss_index store_three
       ++ sample_embed_documents
            (map c_content [chunk_renta; chunk_penal; chunk_renta]).
Proof.
  assert (Hne : [chunk_renta; chunk_penal; chunk_renta] <> []) by discriminate.
  split; [exact Hne|].
  destruct (add_chunks_appends_an_entry sample_embed_documents store_three chunk_renta)
    as (_ & _ & _ & _ & _ & H).
  destruct (H [chunk_renta; chunk_penal; chunk_renta] "c-renta") as (H1 & _ & _ & H2).
  split; [exact H1|exact (H2 Hne)].
Defined.

(** C4 fails on the FAISS backend: with [top_k = 1] the index is asked for
    its two nearest entries, neither satisfies the filter, and the search
    returns nothing although the third entry does; excluding the failing
    entries before the truncation would return it. *)
Lemma faiss_filter_misses_match_outside_window :
  _search_faiss flat_ip_search store_three (sample_embed "renta") 1 sample_filter
    = Some []
  /\ exists r,
       filter_then_truncate flat_ip_search store_three (sample_embed "renta") 1
                            sample_filter = Some [r]
       /\ chunk_id r = PStr "c-servicio"
       /\ passes sample_filter (metadata r) = true.
Proof.
  split; [vm_compute; reflexivity|].
  eexists. split; [vm_compute; reflexivity|]. split; vm_compute; reflexivity.
Qed.

Lemma faiss_filter_applies_within_window_witness :
  _search_faiss flat_ip_search store_three (sample_embed "servicio") 1 sample_filter
    = Some (default [] (_search_faiss flat_ip_search store_three
                                      (sample_embed "servicio") 1 sample_filter))
  /\ forall r,
       r ∈ default [] (_search_faiss flat_ip_search store_three
                                     (sample_embed "servicio") 1 sample_filter) ->
       exists i dist idx,
         flat_ip_search (faiss_index store_three) (sample_embed "servicio")
                        (window store_three 1) !! i = Some (dist, idx)
         /\ index (faiss_metadata store_three) idx = Some (metadata r)
         /\ passes sample_filter (metadata r) = true
         /\ rank r = Some (i + 1) /\ score r = dist.
Proof.
  split; [vm_compute; reflexivity|].
  apply (faiss_filter_applies_within_window flat_ip_search store_three
           (sample_embed "servicio") 1 sample_filter).
  vm_compute; reflexivity.
Defined.
End VectorStoreClaims.

(** ** Keyword search *)

Module LexicalFacts.
Import Py PyFacts HybridSearch.

Lemma tokenize_only_stopwords query :
  only_stopwords query -> _tokenize (lower query) = [].
Proof.
  unfold only_stopwords, _tokenize.
  induction (split (strip_punct (lower query))) as [|w ws IH]; intros H;
    cbn [List.filter]; [reflexivity|].
  apply Forall_cons in H as [Hw Hws]. rewrite Hw, andb_false_r. now apply IH.
Qed.

Lemma only_stopwords_empty : only_stopwords "".
Proof. constructor. Qed.

Section Scores.
Context {Vec : Type}.
Implicit Types (e : Engine Vec).

Lemma calculate_bm25_no_tokens e doc : (_calculate_bm25_score e [] doc).1 = 0%R.
Proof. unfold _calculate_bm25_score. reflexivity. Qed.

Lemma score_docs_cons e toks doc rest :
  score_docs e toks (doc :: rest)
  = let '(s, e') := _calculate_bm25_score e toks doc in
    let '(tl, e'') := score_docs e' toks rest in
    (if Rlt_dec 0 s then (doc, s) :: tl else tl, e'').
Proof. reflexivity. Qed.

Lemma score_docs_no_tokens e docs : (score_docs e [] docs).1 = [].
Proof.
  revert e. induction docs as [|doc docs IH]; intros e; [reflexivity|].
  rewrite score_docs_cons.
  pose proof (calculate_bm25_no_tokens e doc) as Hs.
  destruct (_calculate_bm25_score e [] doc) as [s e1]. simpl in Hs. subst s.
  specialize (IH e1). destruct (score_docs e1 [] docs) as [tl e2]. simpl in *.
  destruct (Rlt_dec 0 0) as [H|_]; [exfalso; lra|exact IH].
Qed.

Lemma keyword_search_no_tokens e query top_k filters boost :
  _tokenize (lower query) = [] -> no_boost boost ->
  (_keyword_search e query top_k filters boost).1 = [].
Proof.
  intros Htok Hboost. unfold _keyword_search.
  destruct (vector_store e); [|reflexivity].
  destruct (_get_all_documents e filters) as [|d ds] eqn:Edocs; [reflexivity|].
  rewrite Htok.
  assert (Hq : match boost with
               | Some (kw :: kws) => [] ++ map lower (kw :: kws)
               | _ => []
               end = ([] : list string)).
  { destruct Hboost as [-> | ->]; reflexivity. }
  rewrite Hq.
  pose proof (score_docs_no_tokens (_update_doc_stats e (d :: ds)) (d :: ds)) as Hs.
  destruct (score_docs (_update_doc_stats e (d :: ds)) [] (d :: ds)) as [scores e'].
  simpl in Hs. subst scores. simpl. now rewrite take_nil.
Qed.

(** A search whose first document scores above zero returns something. *)
Lemma keyword_search_hit e query top_k filters boost vs d ds :
  vector_store e = Some vs ->
  _get_all_documents e filters = d :: ds ->
  (0 < top_k)%nat ->
  (0 < (_calculate_bm25_score
          (_update_doc_stats e (d :: ds))
          (match boost with
           | Some (kw :: kws) => _tokenize (lower query) ++ map lower (kw :: kws)
           | _ => _tokenize (lower query)
           end) d).1)%R ->
  (_keyword_search e query top_k filters boost).1 <> [].
Proof.
  intros Hvs Hdocs Hk Hpos. unfold _keyword_search. rewrite Hvs, Hdocs.
  set (toks := match boost with Some (kw :: kws) => _ | _ => _ end) in *.
  set (e1 := _update_doc_stats e (d :: ds)) in *.
  rewrite score_docs_cons.
  destruct (_calculate_bm25_score e1 toks d) as [s e2]. simpl in Hpos.
  destruct (score_docs e2 toks ds) as [tl e3].
  destruct (Rlt_dec 0 s) as [_|Hn]; [|contradiction].
  cbn [fst]. intros Hnil. apply (f_equal (@length _)) in Hnil.
  unfold enumerate in Hnil.
  rewrite length_map, enumerate_from_length, length_take in Hnil.
  pose proof (insert_desc_perm Rleb snd (d, s) (sort_desc Rleb snd tl)) as Hp.
  apply Permutation_length in Hp. simpl in Hp, Hnil. lia.
Qed.
End Scores.

(** The results of a keyword search are ranked by position. *)
Lemma keyword_search_ranked {Vec} (e : Engine Vec) query top_k filters boost :
  ranked (_keyword_search e query top_k filters boost).1.
Proof.
  unfold _keyword_search.
  destruct (vector_store e); [|intros i x H; discriminate].
  destruct (_get_all_documents e filters) as [|d ds]; [intros i x H; discriminate|].
  destruct (score_docs _ _ (d :: ds)) as [scores e']. cbn [fst].
  intros i x H. rewrite list_lookup_fmap, enumerate_lookup in H.
  destruct (take top_k (sort_desc Rleb snd scores) !! i) as [[doc sc]|];
    [|discriminate].
  simpl in H. injection H as <-. reflexivity.
Qed.
End LexicalFacts.

Module LexicalClaims.
Import Py PyFacts HybridSearch LexicalFacts.

(** C9, as the code has it.  For every corpus (every engine state, filter
    and [top_k]), a keyword search whose query is empty or made of stopwords
    only, and which is given no boost keywords, returns the empty list; the
    search is a total function, so nothing is raised.  (Boost keywords are
    appended to the query tokens, so with them such a query can still
    match.) *)
Theorem keyword_search_stopword_query_is_empty {Vec : Type} (e : Engine Vec)
    (query : string) (top_k : nat) (filters : option (gmap string pyval))
    (boost_keywords : option (list string)) :
  query = "" \/ only_stopwords query ->
  no_boost boost_keywords ->
  (_keyword_search e query top_k filters boost_keywords).1 = [].
Proof.
  intros Hq Hb. apply keyword_search_no_tokens; [|exact Hb].
  apply tokenize_only_stopwords.
  destruct Hq as [->|H]; [apply only_stopwords_empty|exact H].
Qed.

Lemma sample_query_only_stopwords : only_stopwords "El de la".
Proof. repeat constructor. Defined.

Lemma keyword_search_stopword_query_is_empty_witness :
  ("El de la" = "" \/ only_stopwords "El de la")
  /\ no_boost None
  /\ (_keyword_search sample_engine "El de la" 5 None None).1 = [].
Proof.
  split; [right; exact sample_query_only_stopwords|]. split; [now left|].
  apply (keyword_search_stopword_query_is_empty sample_engine "El de la" 5 None None).
  - right. exact sample_query_only_stopwords.
  - now left.
Defined.

(** C9 fails when boost keywords are given: the stopword-only query
    "El de la" boosted with "renta" returns a result on a two-document
    corpus. *)
Lemma boosted_stopword_query_returns_result :
  only_stopwords "El de la"
  /\ (_keyword_search sample_engine "El de la" 5 None (Some ["renta"])).1 <> [].
Proof.
  split; [exact sample_query_only_stopwords|].
  eapply (keyword_search_hit sample_engine "El de la" 5 None (Some ["renta"])).
  - reflexivity.
  - vm_compute. reflexivity.
  - lia.
  - unfold _calculate_bm25_score.
    replace (_tokenize (lower "El de la") ++ map lower ["renta"])%list with ["renta"]
      by (vm_compute; reflexivity).
    match goal with
    | |- context [_tokenize (lower (d_content ?d))] =>
        replace (_tokenize (lower (d_content d)))
          with ["renta"; "mensual"; "3000"; "euros"] by (vm_compute; reflexivity)
    end.
    match goal with
    | |- context [_update_doc_stats ?e ?ds] =>
        replace (_update_doc_stats e ds) with (with_stats e (INR 10 / INR 2)%R 2)
          by (unfold _update_doc_stats; vm_compute; reflexivity)
    end.
    cbn [avg_doc_length with_stats].
    destruct (Req_dec_T (INR 10 / INR 2) 0) as [E|_]; [exfalso; simpl in E; lra|].
    unfold bm25_terms.
    replace (mem "renta" ["renta"; "mensual"; "3000"; "euros"]) with true
      by reflexivity.
    replace (count (String.eqb "renta") ["renta"; "mensual"; "3000"; "euros"])
      with 1%nat by reflexivity.
    cbn [negb]. unfold _get_idf.
    cbn [idf_cache with_stats sample_engine init od_get total_docs Nat.ltb Nat.leb
         with_idf bm25_k1 bm25_b avg_doc_length length].
    assert (Hden : (INR 1 + 12 / 10
                            * (1 - 75 / 100 + 75 / 100 * (INR 4 / (INR 10 / INR 2))))%R
                   = (202 / 100)%R) by (simpl; field).
    rewrite Hden.
    assert (Hln : (0 < ln ((INR 2 + 1) / 2))%R).
    { rewrite <- ln_1. apply ln_increasing; simpl; lra. }
    destruct (Rlt_dec 0 (202 / 100)) as [_|Hn]; [|exfalso; apply Hn; lra].
    cbn [fst]. rewrite Rplus_0_l.
    apply Rdiv_lt_0_compat; [|lra].
    apply Rmult_lt_0_compat; [|lra].
    apply Rmult_lt_0_compat; [exact Hln|simpl; lra].
Qed.
End LexicalClaims.

(** * Further properties of the code *)

(** ** [vector_store.py] *)

Module VectorStoreExtras.
Import Py PyFacts Fusion FusionFacts VectorStore VectorStoreFacts VectorStoreFusionFacts.

Lemma format_hits_length {Vec} (st : Store Vec) fd hits out :
  format_hits st fd hits = Some out -> length out <= length hits.
Proof.
  revert out. induction hits as [|[i [dist idx]] hits IH]; intros out H; simpl in H.
  - injection H as <-. simpl. lia.
  - destruct (idx =? -1)%Z; [injection H as <-; simpl; lia|].
    destruct (index (faiss_metadata st) idx) as [md|]; [|discriminate]. simpl in H.
    destruct (passes fd md); simpl in H.
    + destruct (index (faiss_documents st) idx) as [doc|]; [|discriminate].
      simpl in H. destruct (format_hits st fd hits) as [tl|]; [|discriminate].
      simpl in H. injection H as <-. simpl. specialize (IH tl eq_refl). lia.
    + specialize (IH out H). simpl. lia.
Qed.

(** With and without a filter the loop walks the same hits: the filtered
    answer is the unfiltered one with the failing entries taken out. *)
Lemma format_hits_filter {Vec} (st : Store Vec) fd hits out all :
  format_hits st fd hits = Some out ->
  format_hits st None hits = Some all ->
  out = List.filter (fun r => passes fd (metadata r)) all.
Proof.
  revert out all. induction hits as [|[i [dist idx]] hits IH]; intros out all H Ha;
    simpl in H, Ha.
  - injection H as <-. injection Ha as <-. reflexivity.
  - destruct (idx =? -1)%Z; [injection H as <-; injection Ha as <-; reflexivity|].
    destruct (index (faiss_metadata st) idx) as [md|]; [|discriminate].
    simpl in H, Ha.
    destruct (index (faiss_documents st) idx) as [doc|]; [|discriminate].
    simpl in Ha. destruct (format_hits st None hits) as [tla|]; [|discriminate].
    simpl in Ha. injection Ha as <-. simpl.
    destruct (passes fd md) eqn:Ep; simpl in H.
    + destruct (format_hits st fd hits) as [tl|]; [|discriminate].
      simpl in H. injection H as <-. f_equal. now apply IH.
    + now apply IH.
Qed.

Lemma index_in_range {A} (l : list A) (idx : Z) :
  (0 <= idx < Z.of_nat (length l))%Z -> exists x, index l idx = Some x.
Proof.
  intros H. unfold index. destruct (Z.leb_spec 0 idx); [|lia].
  apply lookup_lt_is_Some_2. lia.
Qed.

Lemma format_hits_total {Vec} (st : Store Vec) fd (hits : list (nat * (Q * Z))) :
  aligned st ->
  (forall i dist idx, In (i, (dist, idx)) hits ->
     (-1 <= idx < Z.of_nat (length (faiss_index st)))%Z) ->
  exists out, format_hits st fd hits = Some out.
Proof.
  intros [Hm Hd] Hr. induction hits as [|[i [dist idx]] hits IH]; simpl; [eauto|].
  destruct (Z.eqb_spec idx (-1)); [eauto|].
  assert (Hidx : (0 <= idx < Z.of_nat (length (faiss_index st)))%Z).
  { specialize (Hr i dist idx (or_introl eq_refl)). lia. }
  destruct (index_in_range (faiss_metadata st) idx) as [md ->]; [now rewrite Hm|].
  destruct (index_in_range (faiss_documents st) idx) as [doc ->]; [now rewrite Hd|].
  destruct IH as [tl ->]; [intros; eapply Hr; right; eauto|].
  simpl. destruct (passes fd md); simpl; eauto.
Qed.

Lemma combine_loop_identity results scores :
  map identity (combine_loop results scores).1 = map identity results.
Proof.
  revert scores. induction results as [|r rs IH]; intros [|s ss]; simpl; trivial.
  specialize (IH ss). destruct (combine_loop rs ss) as [rs' ok].
  cbn [fst map] in *. now rewrite IH.
Qed.

Lemma renumber_identity results : map identity (renumber results) = map identity results.
Proof.
  unfold renumber, enumerate. generalize 0. induction results as [|r rs IH];
    intros n; simpl; [reflexivity|]. now rewrite IH.
Qed.

Lemma rerank_results_identity {Vec} (st : Store Vec) query results :
  Permutation (map identity (_rerank_results st query results)) (map identity results).
Proof.
  unfold _rerank_results. destruct (reranker st) as [predict|]; [|reflexivity].
  destruct results as [|r rs]; [reflexivity|].
  destruct (predict _) as [scores|]; [|reflexivity].
  pose proof (combine_loop_identity (r :: rs) scores) as Hc.
  destruct (combine_loop (r :: rs) scores) as [rs' [|]]; cbn [fst] in Hc.
  - rewrite renumber_identity, <- Hc. apply Permutation_map, sort_desc_perm.
  - now rewrite Hc.
Qed.

(** A scorer that answers for every pair: every result is rescored. *)
Lemma combine_loop_success results scores :
  length results <= length scores ->
  (combine_loop results scores).2 = true
  /\ forall j r, (combine_loop results scores).1 !! j = Some r ->
       exists r0 s,
         results !! j = Some r0 /\ scores !! j = Some s
         /\ score r = ((7 # 10) * s + (3 # 10) * score r0)%Q
         /\ original_score r = Some (score r0) /\ rerank_score r = Some s
         /\ identity r = identity r0.
Proof.
  revert scores. induction results as [|r0 rs IH]; intros scores Hlen.
  - split; [reflexivity|]. intros j r H. destruct j; discriminate.
  - destruct scores as [|s ss]; [simpl in Hlen; lia|]. simpl in Hlen.
    destruct (IH ss ltac:(lia)) as [Hok Hlk]. simpl.
    destruct (combine_loop rs ss) as [rs' ok]. simpl in *. split; [exact Hok|].
    intros [|j] r H; simpl in H.
    + injection H as <-. exists r0, s. simpl. auto 10.
    + exact (Hlk j r H).
Qed.

Section Extras.
Context {Vec : Type}.
Variable embed_documents : list string -> list Vec.
Variable embed_query : string -> Vec.
Variable index_search : list Vec -> Vec -> nat -> list (Q * Z).
Variable settings : SearchConfig.

(** X1.  [hybrid_search] fails only when its vector search fails.  It
    returns at most [top_k] results ([top_k_final] when [top_k] is absent or
    zero), no chunk id twice, and every result is, by chunk id, content and
    metadata, a result of the vector search or of the keyword search. *)
Theorem hybrid_search_returns_distinct_chunks (st : Store Vec) (query : string)
    (top_k : option nat) :
  (hybrid_search embed_query index_search settings st query top_k = None
   <-> search embed_query index_search settings st query
              (Some (top_k_vector settings)) None = None)
  /\ forall out,
       hybrid_search embed_query index_search settings st query top_k = Some out ->
       length out <= or_default top_k (top_k_final settings)
       /\ NoDup (map chunk_id out)
       /\ forall r, r ∈ out ->
            exists vector_results r0,
              search embed_query index_search settings st query
                     (Some (top_k_vector settings)) None = Some vector_results
              /\ (r0 ∈ vector_results
                  \/ r0 ∈ _keyword_search st query (top_k_keyword settings))
              /\ identity r = identity r0.
Proof.
  unfold hybrid_search.
  destruct (search embed_query index_search settings st query
              (Some (top_k_vector settings)) None) as [vector_results|];
    [|split; [tauto|discriminate]].
  cbn [mbind option_bind].
  set (keyword_results := _keyword_search st query (top_k_keyword settings)).
  destruct (store_rank_fusion_spec [vector_results; keyword_results] 60)
    as (fused & -> & _ & Hnd & _ & Hfrom).
  cbn [mbind option_bind]. split; [split; discriminate|].
  intros out [= <-].
  set (final := match reranker st with
                | Some _ => _rerank_results st query fused
                | None => fused
                end).
  assert (Hperm : Permutation (map identity final) (map identity fused)).
  { unfold final. destruct (reranker st); [|reflexivity].
    apply rerank_results_identity. }
  assert (Hids : forall l : list Result, map chunk_id l = map (fun t => t.1.1) (map identity l)).
  { intros l. rewrite map_map. reflexivity. }
  split; [rewrite length_take; lia|]. split.
  - rewrite <- firstn_map.
    apply (sublist_NoDup _ (map chunk_id final)); [|apply sublist_take].
    rewrite Hids, Hperm, <- Hids. exact Hnd.
  - intros r Hr. apply elem_of_take in Hr as (i & Hi & _).
    apply list_elem_of_lookup_2 in Hi.
    assert (Hin : identity r ∈ map identity fused).
    { rewrite <- Hperm. apply list_elem_of_fmap. eauto. }
    apply list_elem_of_fmap in Hin as (r' & Hid & Hr').
    destruct (Hfrom r' Hr') as (s & x & Hx & -> & _).
    exists vector_results, x. split; [reflexivity|]. split; [|exact Hid].
    unfold first_occurrence in Hx. apply find_some in Hx as [Hx _].
    simpl in Hx. rewrite app_nil_r in Hx. apply in_app_or in Hx.
    destruct Hx as [Hx|Hx]; [left|right]; now apply list_elem_of_In.
Qed.

(** X2.  A query against an empty index returns the empty list, whatever
    the index service, the reranker and the filter; with no stored documents
    either, so does the hybrid search. *)
Theorem search_on_empty_index (st : Store Vec) (query : string)
    (top_k : option nat) (filter_dict : option (gmap string pyval)) :
  faiss_index st = [] ->
  search embed_query index_search settings st query top_k filter_dict = Some []
  /\ (faiss_documents st = [] ->
      hybrid_search embed_query index_search settings st query top_k = Some []).
Proof.
  intros He.
  assert (Hs : forall k fd,
             search embed_query index_search settings st query k fd = Some []).
  { intros k fd. unfold search, _search_faiss. rewrite He. simpl.
    destruct (reranker st); simpl; now rewrite take_nil. }
  split; [apply Hs|]. intros Hd.
  unfold hybrid_search. rewrite Hs. simpl.
  unfold _keyword_search. rewrite Hd. simpl. rewrite take_nil.
  unfold _reciprocal_rank_fusion. simpl.
  unfold _rerank_results. destruct (reranker st); simpl; now rewrite take_nil.
Qed.

(** X3.  [add_chunks] keeps the index, the metadata list and the document
    list the same length when the embedding provider returns one vector per
    text.  Given at least one chunk it reports the number of chunks given
    and adds it to [total_chunks] and to the size of the index; given none it
    raises and leaves the store as it was. *)
Theorem add_chunks_keeps_store_aligned (st : Store Vec) (chunks : list Chunk) :
  (forall texts, length (embed_documents texts) = length texts) ->
  aligned st ->
  aligned (add_chunks embed_documents st chunks).1
  /\ length (faiss_index (add_chunks embed_documents st chunks).1)
     = length (faiss_index st) + length chunks
  /\ total_chunks (add_chunks embed_documents st chunks).1
     = total_chunks st + length chunks
  /\ (chunks <> [] -> (add_chunks embed_documents st chunks).2 = Some (length chunks))
  /\ (chunks = [] -> add_chunks embed_documents st chunks = (st, None)).
Proof.
  intros Hemb [Hm Hd]. destruct chunks as [|c chunks].
  - cbn. unfold aligned. repeat split; trivial; try lia. intros H. now destruct H.
  - destruct (add_chunks_rows embed_documents st (c :: chunks)) as (Em & Ed & Ei).
    specialize (Ei ltac:(discriminate)).
    unfold aligned. rewrite Em, Ed, Ei, !length_app, !length_map, Hemb, length_map.
    repeat split; try lia; try reflexivity. discriminate.
Qed.

(** X4.  On an aligned store, when the index answers with entry numbers of
    the store (or the padding [-1]), [_search_faiss] and [search] raise
    nothing, and [_search_faiss] returns no more results than the index
    gave hits. *)
Theorem search_never_raises_on_aligned_store (st : Store Vec) (query : string)
    (top_k : option nat) (filter_dict : option (gmap string pyval)) :
  aligned st ->
  in_range st (index_search (faiss_index st) (embed_query query)
                 (window st (or_default top_k (top_k_final settings)))) ->
  (exists found,
      _search_faiss index_search st (embed_query query)
                    (or_default top_k (top_k_final settings)) filter_dict = Some found
      /\ length found
         <= length (index_search (faiss_index st) (embed_query query)
                      (window st (or_default top_k (top_k_final settings)))))
  /\ exists out,
       search embed_query index_search settings st query top_k filter_dict = Some out.
Proof.
  intros Ha Hr.
  assert (Hf : exists found,
             _search_faiss index_search st (embed_query query)
               (or_default top_k (top_k_final settings)) filter_dict = Some found
             /\ length found
                <= length (index_search (faiss_index st) (embed_query query)
                             (window st (or_default top_k (top_k_final settings))))).
  { unfold _search_faiss. destruct (length (faiss_index st) =? 0)%nat; [exists []; simpl; split; [reflexivity|lia]|].
    destruct (format_hits_total st filter_dict
                (enumerate (index_search (faiss_index st) (embed_query query)
                   (window st (or_default top_k (top_k_final settings))))) Ha)
      as [found Hfound].
    { intros i dist idx Hin. apply In_enumerate in Hin.
      apply (Hr dist idx). apply list_elem_of_In. eapply list_elem_of_lookup_2; eauto. }
    exists found. split; [exact Hfound|].
    apply format_hits_length in Hfound. unfold enumerate in Hfound.
    now rewrite enumerate_from_length in Hfound. }
  split; [exact Hf|]. destruct Hf as (found & Hfound & _).
  unfold search. rewrite Hfound. simpl. eauto.
Qed.

(** X5.  A metadata filter only removes results: what [_search_faiss]
    returns with a filter is what it returns without one, less the entries
    whose metadata fails the filter; ranks and scores are not changed. *)
Theorem filter_only_removes_results (st : Store Vec) (query_embedding : Vec)
    (top_k : nat) (filter_dict : option (gmap string pyval))
    (out all : list Result) :
  _search_faiss index_search st query_embedding top_k filter_dict = Some out ->
  _search_faiss index_search st query_embedding top_k None = Some all ->
  out = List.filter (fun r => passes filter_dict (metadata r)) all.
Proof.
  unfold _search_faiss. destruct (length (faiss_index st) =? 0)%nat.
  - intros [= <-] [= <-]. reflexivity.
  - apply format_hits_filter.
Qed.

(** X6.  [_rerank_results] never drops, adds or alters the identity of a
    result (chunk id, content, metadata), whether the reranker is absent,
    raises, answers short or succeeds. *)
Theorem rerank_results_keeps_the_results (st : Store Vec) (query : string)
    (results : list Result) :
  Permutation (map identity (_rerank_results st query results))
              (map identity results)
  /\ length (_rerank_results st query results) = length results.
Proof.
  pose proof (rerank_results_identity st query results) as H.
  split; [exact H|].
  apply Permutation_length in H. now rewrite !length_map in H.
Qed.

(** X7.  When the cross-encoder answers with a score for every result,
    [_rerank_results] returns the results in descending order of the new
    score [0.7 * rerank + 0.3 * original], ranked 1, 2, ... by position, each
    keeping its original score and the model's score beside it. *)
Theorem rerank_results_on_success (st : Store Vec) (query : string)
    (results : list Result) (predict : Predictor) (scores : list Q) :
  reranker st = Some predict ->
  predict (map (fun r => (query, content r)) results) = Some scores ->
  length results <= length scores ->
  descending score (_rerank_results st query results)
  /\ forall i r, _rerank_results st query results !! i = Some r ->
       rank r = Some (i + 1)
       /\ exists j r0 s,
            results !! j = Some r0 /\ scores !! j = Some s
            /\ score r = ((7 # 10) * s + (3 # 10) * score r0)%Q
            /\ original_score r = Some (score r0) /\ rerank_score r = Some s
            /\ identity r = identity r0.
Proof.
  intros Hr Hp Hlen. unfold _rerank_results. rewrite Hr.
  destruct results as [|r1 rs].
  { split; [intros i j a b Ha; destruct i; discriminate|].
    intros i r H. destruct i; discriminate. }
  rewrite Hp. destruct (combine_loop_success (r1 :: rs) scores Hlen) as [Hok Hlk].
  destruct (combine_loop (r1 :: rs) scores) as [rs' ok]. simpl in Hok, Hlk. subst ok.
  set (sorted := sort_desc Qle_bool score rs').
  assert (Hlook : forall i r, renumber sorted !! i = Some r ->
            exists r', sorted !! i = Some r' /\ r = set_rank i r').
  { intros i r H. unfold renumber in H. rewrite list_lookup_fmap, enumerate_lookup in H.
    destruct (sorted !! i) as [r'|]; [|discriminate]. simpl in H.
    injection H as <-. eauto. }
  split.
  - intros i j a b Ha Hb Hij.
    destruct (Hlook _ _ Ha) as (a' & Ha' & ->).
    destruct (Hlook _ _ Hb) as (b' & Hb' & ->). simpl.
    pose proof (sort_desc_sorted Qle_bool score Qle_bool_total Qle_bool_trans rs') as Hs.
    pose proof (StronglySorted_lookup _ _ _ _ _ _ Hs Ha' Hb' Hij) as H.
    unfold before in H. now apply Qle_bool_iff in H.
  - intros i r H. destruct (Hlook _ _ H) as (r' & Hr' & ->). split; [reflexivity|].
    assert (Hin : r' ∈ rs').
    { rewrite <- (sort_desc_perm Qle_bool score rs').
      eapply list_elem_of_lookup_2; eauto. }
    apply list_elem_of_lookup in Hin as [j Hj].
    destruct (Hlk j r' Hj) as (r0 & s & H1 & H2 & H3 & H4 & H5 & H6).
    exists j, r0, s. simpl. auto 10.
Qed.

(** X8.  The keyword search of the store returns at most [top_k] results,
    in descending order of score; every score lies in (0, 1], every result
    counts at least one query term found in its content, and a query without
    terms (empty or blank) returns nothing. *)
Theorem store_keyword_search_results (st : Store Vec) (query : string) (top_k : nat) :
  length (_keyword_search st query top_k) <= top_k
  /\ descending score (_keyword_search st query top_k)
  /\ (forall r, r ∈ _keyword_search st query top_k ->
        (0 < score r)%Q /\ (score r <= 1)%Q
        /\ exists m term,
             match_count r = Some m /\ 1 <= m
             /\ In term (split (lower query))
             /\ contains term (lower (content r)) = true)
  /\ (split (lower query) = [] -> _keyword_search st query top_k = []).
Proof.
  unfold _keyword_search.
  set (terms := split (lower query)).
  set (hit := fun dm : string * gmap string pyval => _).
  set (found := flat_map hit _).
  assert (Hfound : forall r, r ∈ found ->
            (0 < score r)%Q /\ (score r <= 1)%Q
            /\ exists m term, match_count r = Some m /\ 1 <= m /\ In term terms
                              /\ contains term (lower (content r)) = true).
  { intros r Hr. apply list_elem_of_In, in_flat_map in Hr as ([doc md] & _ & Hr).
    unfold hit in Hr. cbn [fst snd] in Hr.
    set (present := fun term => contains term (lower doc)) in *.
    destruct (Nat.ltb_spec 0 (count present terms)) as [Hpos|]; [|destruct Hr].
    destruct Hr as [<-|[]]. cbn [score match_count content].
    assert (Hle : count present terms <= length terms)
      by (unfold count; apply List.filter_length_le).
    split; [|split].
    - unfold Qlt. simpl. lia.
    - unfold Qle. cbn [Qnum Qden]. rewrite Z.mul_1_r, Z.mul_1_l.
      rewrite <- positive_nat_Z, Nat2Pos.id by lia. lia.
    - assert (Hex : exists term, In term (List.filter present terms)).
      { unfold count in Hpos. destruct (List.filter present terms) as [|term tl];
          [simpl in Hpos; lia|]. exists term. now left. }
      destruct Hex as [term Hin]. apply List.filter_In in Hin as [Hin Hp].
      exists (count present terms), term. repeat split; trivial. }
  split; [rewrite length_take; lia|]. split; [|split].
  - apply sorted_descending_key with (key := score); [|reflexivity].
    apply StronglySorted_take, sort_desc_sorted;
      [apply Qle_bool_total|apply Qle_bool_trans].
  - intros r Hr. apply Hfound. apply elem_of_take in Hr as (i & Hr & _).
    rewrite <- (sort_desc_perm Qle_bool score found).
    eapply list_elem_of_lookup_2; eauto.
  - intros He.
    assert (found = []) as ->; [|simpl; apply take_nil].
    destruct found as [|r tl] eqn:Ef; [reflexivity|].
    destruct (Hfound r (list_elem_of_here _ _)) as (_ & _ & m & term & _ & _ & Hin & _).
    rewrite He in Hin. destruct Hin.
Qed.
End Extras.

Lemma hybrid_search_returns_distinct_chunks_witness :
  hybrid_search sample_embed flat_ip_search default_settings store_three
                "renta anual" (Some 2)
    = Some (default [] (hybrid_search sample_embed flat_ip_search default_settings
                                      store_three "renta anual" (Some 2)))
  /\ NoDup (map chunk_id
              (default [] (hybrid_search sample_embed flat_ip_search default_settings
                                         store_three "renta anual" (Some 2)))).
Proof.
  split; [vm_compute; reflexivity|].
  apply (hybrid_search_returns_distinct_chunks sample_embed flat_ip_search
           default_settings store_three "renta anual" (Some 2)).
  vm_compute. reflexivity.
Defined.

Lemma search_on_empty_index_witness :
  faiss_index empty_store = []
  /\ search sample_embed flat_ip_search default_settings empty_store "renta"
            None sample_filter = Some [].
Proof.
  split; [reflexivity|].
  apply (proj1 (search_on_empty_index sample_embed flat_ip_search default_settings
                  empty_store "renta" None sample_filter eq_refl)).
Defined.

Lemma add_chunks_keeps_store_aligned_witness :
  aligned store_three
  /\ aligned (add_chunks sample_embed_documents store_three [chunk_penal]).1
  /\ (add_chunks sample_embed_documents store_three [chunk_penal]).2 = Some 1.
Proof.
  assert (Ha : aligned store_three) by (split; reflexivity).
  split; [exact Ha|].
  destruct (add_chunks_keeps_store_aligned sample_embed_documents store_three
              [chunk_penal]) as (H1 & _ & _ & H2 & _); [|exact Ha|].
  - intros texts. unfold sample_embed_documents. apply length_map.
  - split; [exact H1|]. apply H2. discriminate.
Defined.

Lemma filter_only_removes_results_witness :
  _search_faiss flat_ip_search store_three (sample_embed "servicio") 2 None
    = Some (default [] (_search_faiss flat_ip_search store_three
                                      (sample_embed "servicio") 2 None))
  /\ default [] (_search_faiss flat_ip_search store_three
                               (sample_embed "servicio") 2 sample_filter)
     = List.filter (fun r => passes sample_filter (metadata r))
         (default [] (_search_faiss flat_ip_search store_three
                                    (sample_embed "servicio") 2 None)).
Proof.
  split; [vm_compute; reflexivity|].
  apply (filter_only_removes_results flat_ip_search store_three
           (sample_embed "servicio") 2 sample_filter); vm_compute; reflexivity.
Defined.

Lemma rerank_results_on_success_witness :
  sample_predictor (map (fun r => ("renta", content r)) sample_hits)
    = Some [0; 1; 0]%Q
  /\ descending score (_rerank_results store_cross_encoder "renta" sample_hits).
Proof.
  split; [vm_compute; reflexivity|].
  apply (rerank_results_on_success store_cross_encoder "renta" sample_hits
           sample_predictor [0; 1; 0]%Q).
  - reflexivity.
  - vm_compute. reflexivity.
  - vm_compute. lia.
Defined.

Lemma store_keyword_search_results_witness :
  length (_keyword_search store_three "renta anual" 1) <= 1.
Proof. apply (store_keyword_search_results store_three "renta anual" 1). Defined.

(** The sample index answers within range on the three-chunk store. *)
Lemma search_never_raises_on_aligned_store_witness :
  aligned store_three
  /\ exists out,
       search sample_embed flat_ip_search default_settings store_three
              "renta" (Some 2) sample_filter = Some out.
Proof.
  assert (Ha : aligned store_three) by (split; reflexivity).
  split; [exact Ha|].
  apply (search_never_raises_on_aligned_store sample_embed flat_ip_search
           default_settings store_three "renta" (Some 2) sample_filter Ha).
  intros dist idx Hin. vm_compute in Hin.
  repeat (destruct Hin as [Hin|Hin]; [injection Hin as <- <-; vm_compute; split; [discriminate|reflexivity]|]).
  destruct Hin.
Defined.
End VectorStoreExtras.

(** ** [hybrid_search.py] *)

Module HybridSearchExtras.
Import Py PyFacts Fusion FusionFacts HybridSearch HybridFusionFacts LexicalFacts.

(** *** The tokenizer *)

Lemma chars_app a b : chars (a ++ b) = (chars a ++ chars b)%list.
Proof. induction a as [|c a IH]; simpl; [reflexivity|]. unfold chars in *. simpl. now rewrite IH. Qed.

Lemma split_go_chars (P : ascii -> Prop) s cur :
  Forall P (chars cur) ->
  Forall (fun c => is_space c = false -> P c) (chars s) ->
  Forall (fun t => t <> "" /\ Forall P (chars t)) (split_go s cur).
Proof.
  revert cur. induction s as [|c s IH]; intros cur Hcur Hs; simpl.
  - destruct cur; simpl; constructor; [|constructor]. split; [discriminate|exact Hcur].
  - unfold chars in Hs. simpl in Hs. apply Forall_cons in Hs as [Hc Hs].
    destruct (is_space c) eqn:Ec.
    + destruct cur as [|c0 cur]; simpl.
      * apply IH; [constructor|exact Hs].
      * constructor; [split; [discriminate|exact Hcur]|].
        apply IH; [constructor|exact Hs].
    + apply IH; [|exact Hs]. rewrite chars_app. apply Forall_app. split; [exact Hcur|].
      repeat constructor. now apply Hc.
Qed.

Lemma strip_punct_chars text :
  Forall (fun c => is_space c = false -> is_word c = true /\ is_space c = false)
         (chars (strip_punct text)).
Proof.
  induction text as [|c t IH]; [constructor|].
  unfold chars in *. simpl. constructor; [|exact IH].
  destruct (is_word c) eqn:Ew; simpl; [auto|].
  destruct (is_space c) eqn:Es; simpl; [congruence|].
  intros H. vm_compute in H. discriminate.
Qed.

(** X9.  Every token [_tokenize] returns is non-empty, is not a stopword
    and is made of word characters only: no whitespace and no punctuation
    reaches the scorer. *)
Theorem tokenize_returns_clean_tokens (text : string) :
  Forall (fun t => t <> ""
                   /\ mem t stopwords = false
                   /\ Forall (fun c => is_word c = true /\ is_space c = false) (chars t))
         (_tokenize text).
Proof.
  unfold _tokenize. apply Forall_forall. intros t Ht.
  apply list_elem_of_In, List.filter_In in Ht as [Ht Hf].
  apply andb_true_iff in Hf as [_ Hstop]. apply negb_true_iff in Hstop.
  pose proof (split_go_chars (fun c => is_word c = true /\ is_space c = false)
                (strip_punct text) "" (Forall_nil_2 _) (strip_punct_chars text)) as H.
  rewrite Forall_forall in H. destruct (H t) as [Hne Hch]; [now apply list_elem_of_In|].
  auto.
Qed.

(** *** The IDF cache *)

Section Cache.
Context {Vec : Type}.
Implicit Types (e : Engine Vec).

Lemma get_idf_keeps e term t v :
  cached e t v -> cached (_get_idf e term).2 t v.
Proof.
  unfold cached, _get_idf. intros H.
  destruct (od_get (idf_cache e) term) eqn:E; [exact H|].
  simpl. rewrite od_get_set. destruct (decide (t = term)) as [->|]; [congruence|exact H].
Qed.

Lemma bm25_terms_keeps e doc_tokens query_tokens s t v :
  cached e t v -> cached (bm25_terms e doc_tokens query_tokens s).2 t v.
Proof.
  revert e s. induction query_tokens as [|term rest IH]; intros e s H; simpl; [exact H|].
  destruct (negb (mem term doc_tokens)); [now apply IH|].
  pose proof (get_idf_keeps e term t v H) as H'.
  destruct (_get_idf e term) as [idf e']. simpl in H'.
  destruct (Rlt_dec 0 _); now apply IH.
Qed.

Lemma calculate_bm25_keeps e toks doc t v :
  cached e t v -> cached (_calculate_bm25_score e toks doc).2 t v.
Proof.
  intros H. unfold _calculate_bm25_score. apply bm25_terms_keeps.
  destruct (Req_dec_T (avg_doc_length e) 0); exact H.
Qed.

Lemma score_docs_keeps e toks docs t v :
  cached e t v -> cached (score_docs e toks docs).2 t v.
Proof.
  revert e. induction docs as [|doc rest IH]; intros e H; [exact H|].
  rewrite score_docs_cons.
  pose proof (calculate_bm25_keeps e toks doc t v H) as H1.
  destruct (_calculate_bm25_score e toks doc) as [s e']. simpl in H1.
  specialize (IH e' H1). destruct (score_docs e' toks rest) as [tl e'']. exact IH.
Qed.

Lemma update_doc_stats_cache e docs : idf_cache (_update_doc_stats e docs) = idf_cache e.
Proof. unfold _update_doc_stats. destruct (0 <? length docs)%nat; reflexivity. Qed.

(** X10.  The IDF cache is never refreshed: [_get_idf] caches the value it
    computes, a cached value survives every later keyword search and every
    update of the document statistics, and [_get_idf] goes on returning it,
    whatever the number of documents has become. *)
Theorem idf_cache_is_never_refreshed e (term : string) :
  od_get (idf_cache (_get_idf e term).2) term = Some (_get_idf e term).1
  /\ forall (t : string) (v : R),
       od_get (idf_cache e) t = Some v ->
       (forall term', od_get (idf_cache (_get_idf e term').2) t = Some v)
       /\ (forall query top_k filters boost_keywords,
             od_get (idf_cache (_keyword_search e query top_k filters boost_keywords).2) t
             = Some v)
       /\ (forall docs, (_get_idf (_update_doc_stats e docs) t).1 = v).
Proof.
  split.
  - unfold _get_idf. destruct (od_get (idf_cache e) term) eqn:E; simpl; [exact E|].
    rewrite od_get_set. now destruct (decide (term = term)).
  - intros t v H. split; [|split].
    + intros term'. now apply get_idf_keeps.
    + intros query top_k filters boost. unfold _keyword_search.
      destruct (vector_store e); [|exact H].
      destruct (_get_all_documents e filters) as [|d ds]; [exact H|].
      assert (H1 : cached (_update_doc_stats e (d :: ds)) t v).
      { unfold cached. now rewrite update_doc_stats_cache. }
      match goal with |- context [score_docs ?e0 ?tk ?dl] =>
        pose proof (score_docs_keeps e0 tk dl t v H1) as H2;
        destruct (score_docs e0 tk dl) as [scores e2] end.
      exact H2.
    + intros docs. unfold _get_idf. rewrite update_doc_stats_cache, H. reflexivity.
Qed.
End Cache.

(** *** Keyword search *)

Lemma Rleb_total a b : Rleb a b = true \/ Rleb b a = true.
Proof.
  unfold Rleb. destruct (Rle_dec a b); [now left|].
  destruct (Rle_dec b a); [now right|]. exfalso. lra.
Qed.

Lemma Rleb_trans a b c : Rleb a b = true -> Rleb b c = true -> Rleb a c = true.
Proof.
  unfold Rleb. destruct (Rle_dec a b); [|discriminate].
  destruct (Rle_dec b c); [|discriminate].
  destruct (Rle_dec a c); [reflexivity|]. exfalso. lra.
Qed.

Section Keyword.
Context {Vec : Type}.
Implicit Types (e : Engine Vec).

Lemma score_docs_positive e toks docs d s :
  In (d, s) (score_docs e toks docs).1 -> In d docs /\ (0 < s)%R.
Proof.
  revert e. induction docs as [|doc rest IH]; intros e H; [destruct H|].
  rewrite score_docs_cons in H.
  destruct (_calculate_bm25_score e toks doc) as [s0 e'].
  specialize (IH e'). destruct (score_docs e' toks rest) as [tl e''].
  cbn [fst] in *. destruct (Rlt_dec 0 s0) as [Hpos|].
  - destruct H as [[= <- <-]|H]; [split; [now left|exact Hpos]|].
    destruct (IH H). split; [now right|assumption].
  - destruct (IH H). split; [now right|assumption].
Qed.

(** X11.  A keyword search returns at most [top_k] results, ranked 1, 2,
    ... in descending order of BM25 score; every result has a score above
    zero, is marked ["keyword"], carries its score and the matched query
    terms as details, and is one of the documents [_get_all_documents] gives
    for the filter. *)
Theorem keyword_search_results e (query : string) (top_k : nat)
    (filters : option (gmap string pyval)) (boost_keywords : option (list string)) :
  let out := (_keyword_search e query top_k filters boost_keywords).1 in
  length out <= top_k
  /\ ranked out
  /\ (forall i j a b, out !! i = Some a -> out !! j = Some b -> i < j ->
        (score b <= score a)%R)
  /\ forall r, r ∈ out ->
       (0 < score r)%R
       /\ source r = "keyword"
       /\ match_details r
          = Some {| bm25_score := score r;
                    matched_terms :=
                      _get_matched_terms (search_tokens query boost_keywords)
                                         (content r) |}
       /\ exists d, In d (_get_all_documents e filters)
                    /\ d_chunk_id d = chunk_id r /\ d_content d = content r
                    /\ d_metadata d = metadata r.
Proof.
  intros out. split; [|split; [apply keyword_search_ranked|]].
  all: unfold out, _keyword_search; clear out.
  all: destruct (vector_store e);
    [|cbn [fst length]; first [lia | split; [intros [|?] ? a b H; discriminate
                                            | intros r H; now apply elem_of_nil in H]]].
  all: destruct (_get_all_documents e filters) as [|d ds] eqn:Edocs;
    [cbn [fst length]; first [lia | split; [intros [|?] ? a b H; discriminate
                                           | intros r H; now apply elem_of_nil in H]]|].
  all: fold (search_tokens query boost_keywords).
  all: match goal with |- context [score_docs ?e0 ?tk ?dl] =>
         pose proof (fun d s => score_docs_positive e0 tk dl d s) as Hpos;
         destruct (score_docs e0 tk dl) as [scores e2] end.
  all: cbn [fst] in *.
  - rewrite length_map. unfold enumerate. rewrite enumerate_from_length, length_take. lia.
  - set (sorted := take top_k (sort_desc Rleb snd scores)).
    assert (Hsorted : StronglySorted (before Rleb snd) sorted).
    { apply StronglySorted_take, sort_desc_sorted; [apply Rleb_total|apply Rleb_trans]. }
    assert (Hlook : forall i r,
              map (fun ids : nat * (Doc * R) =>
                     let '(i, (doc, s)) := ids in
                     {| chunk_id := d_chunk_id doc; content := d_content doc;
                        metadata := d_metadata doc; score := s; rank := i + 1;
                        source := "keyword";
                        match_details :=
                          Some {| bm25_score := s;
                                  matched_terms :=
                                    _get_matched_terms
                                      (search_tokens query boost_keywords)
                                      (d_content doc) |} |})
                  (enumerate sorted) !! i = Some r ->
              exists doc s, sorted !! i = Some (doc, s) /\ score r = s
                /\ source r = "keyword"
                /\ match_details r
                   = Some {| bm25_score := s;
                             matched_terms :=
                               _get_matched_terms (search_tokens query boost_keywords)
                                                  (content r) |}
                /\ d_chunk_id doc = chunk_id r /\ d_content doc = content r
                /\ d_metadata doc = metadata r).
    { intros i r H. rewrite list_lookup_fmap, enumerate_lookup in H.
      destruct (sorted !! i) as [[doc sc]|]; [|discriminate]. simpl in H.
      injection H as <-. exists doc, sc. simpl. auto 10. }
    split.
    + intros i j a b Ha Hb Hij.
      destruct (Hlook _ _ Ha) as (da & sa & Ha' & -> & _).
      destruct (Hlook _ _ Hb) as (db & sb & Hb' & -> & _).
      pose proof (StronglySorted_lookup _ _ _ _ _ _ Hsorted Ha' Hb' Hij) as H.
      unfold before, Rleb in H. simpl in H.
      destruct (Rle_dec sb sa); [assumption|discriminate].
    + intros r Hr. apply list_elem_of_lookup in Hr as [i Hi].
      destruct (Hlook _ _ Hi) as (doc & sc & Hs & Hsc & Hsrc & Hmd & H1 & H2 & H3).
      assert (Hin : In (doc, sc) scores).
      { apply list_elem_of_In. rewrite <- (sort_desc_perm Rleb snd scores).
        unfold sorted in Hs. apply lookup_take_Some in Hs as [Hs _].
        eapply list_elem_of_lookup_2; eauto. }
      destruct (Hpos doc sc Hin) as [Hd Hp].
      rewrite Hsc. repeat split; trivial. exists doc. auto.
Qed.

(** *** The documents of the store *)

Lemma get_all_documents_rows (vs : VectorStore.Store Vec) e filters :
  vector_store e = Some vs ->
  _get_all_documents e filters
  = flat_map
      (fun row : nat * (string * gmap string pyval) =>
         let '(i, (doc, meta)) := row in
         if VectorStore.passes filters meta
         then [ {| d_chunk_id := default (PStr (str_of_nat i)) (meta !! "chunk_id");
                   d_content := doc; d_metadata := meta |} ]
         else [])
      (enumerate (zip (VectorStore.faiss_documents vs) (VectorStore.faiss_metadata vs))).
Proof. intros H. unfold _get_all_documents. now rewrite H. Qed.

Lemma new_rows_documents filters (chunks : list VectorStore.Chunk) n :
  flat_map
    (fun row : nat * (string * gmap string pyval) =>
       let '(i, (doc, meta)) := row in
       if VectorStore.passes filters meta
       then [ {| d_chunk_id := default (PStr (str_of_nat i)) (meta !! "chunk_id");
                 d_content := doc; d_metadata := meta |} ]
       else [])
    (enumerate_from n
       (zip (map VectorStore.c_content chunks)
            (map (fun c => <["chunk_id" := PStr (VectorStore.c_chunk_id c)]>
                             (VectorStore.c_metadata c)) chunks)))
  = map doc_of_chunk
      (List.filter (fun c => VectorStore.passes filters (d_metadata (doc_of_chunk c)))
                   chunks).
Proof.
  revert n. induction chunks as [|c cs IH]; intros n; [reflexivity|].
  cbn [map zip zip_with enumerate_from flat_map List.filter].
  rewrite IH. cbn [doc_of_chunk d_metadata].
  destruct (VectorStore.passes filters _); [|reflexivity].
  cbn [app map]. f_equal. unfold doc_of_chunk. f_equal.
  now rewrite lookup_insert_eq.
Qed.

(** X12.  A chunk added with [VectorStore.add_chunks] comes back from
    [_get_all_documents] under its own chunk id, with its content and its
    metadata: on a store whose document and metadata lists are in step, the
    documents after the addition are the documents before it followed by one
    document per added chunk that passes the filter, in the order given. *)
Theorem added_chunks_are_listed (embed_documents : list string -> list Vec)
    (vs : VectorStore.Store Vec) e e' (chunks : list VectorStore.Chunk)
    (filters : option (gmap string pyval)) :
  length (VectorStore.faiss_documents vs) = length (VectorStore.faiss_metadata vs) ->
  vector_store e = Some vs ->
  vector_store e' = Some (VectorStore.add_chunks embed_documents vs chunks).1 ->
  _get_all_documents e' filters
  = (_get_all_documents e filters
     ++ map doc_of_chunk
          (List.filter
             (fun c => VectorStore.passes filters (d_metadata (doc_of_chunk c)))
             chunks))%list.
Proof.
  intros Hlen He He'.
  rewrite (get_all_documents_rows _ _ _ He), (get_all_documents_rows _ _ _ He').
  destruct (VectorStoreFacts.add_chunks_rows embed_documents vs chunks) as (-> & -> & _).
  rewrite zip_with_app by exact Hlen.
  unfold enumerate. rewrite enumerate_from_app, flat_map_app. f_equal.
  apply new_rows_documents.
Qed.
End Keyword.

(** *** Fusion *)

Section Fuse.
Context {D : Type}.
Implicit Types (lists : list (list (SearchResult Q D))).

(** What the two closing steps of a fusion routine build from the entries
    of its first loop. *)
Lemma fused_shape {Sc} (es : list (pyval * Q * SearchResult Sc D)) out :
  (forall e, In e es -> e.1.1 = chunk_id e.2) ->
  (let '(fs, ar) := accumulate es in fuse_loop (sort_desc Qle_bool snd fs) ar 0)
    = Some out ->
  ranked out /\ NoDup (map chunk_id out) /\ descending score out
  /\ forall r, r ∈ out ->
       source r = "hybrid"
       /\ exists s x, In (chunk_id r, s, x) es
                      /\ identity x = identity r /\ match_details x = match_details r.
Proof.
  intros Hcons H.
  destruct (fuse_accumulated es Hcons) as (out' & Hout & Hdesc & Hperm & Hchar).
  pose proof (accumulate_accumulated es) as Hacc.
  destruct (accumulate es) as [fs ar]. cbn [fst snd] in *.
  rewrite Hout in H. injection H as <-.
  split; [|split; [|split]].
  - intros j r Hj. destruct (Hchar j r Hj) as (s & x & _ & _ & ->). reflexivity.
  - rewrite Hperm. apply Hacc.
  - exact Hdesc.
  - intros r Hr. apply list_elem_of_lookup in Hr as [j Hj].
    destruct (Hchar j r Hj) as (s & x & Hx & _ & ->). split; [reflexivity|].
    destruct (first_result_Some_In _ _ _ Hx) as [s' Hs']. exists s', x. auto.
Qed.

Lemma mapM_rrf_entry_In {Sc} k (xs : list (SearchResult Sc D)) es :
  mapM (rrf_entry k) xs = Some es -> forall e, In e es -> In e.2 xs.
Proof.
  intros H. apply mapM_Some in H.
  induction H as [|x e xs es Hx _ IH]; intros e' He'; [destruct He'|].
  destruct He' as [<-|He']; [left|right; now apply IH].
  unfold rrf_entry in Hx. destruct (k + rank x =? 0)%nat; [discriminate|].
  now injection Hx as <-.
Qed.

Lemma normalize_In (L : list (SearchResult Q D)) r :
  In r (normalize L) ->
  exists x, In x L /\ identity x = identity r /\ match_details x = match_details r.
Proof.
  unfold normalize. destruct L as [|r0 rs]; [intros []|].
  destruct (Qlt_le_dec 0 _); [|eauto].
  intros H. apply in_map_iff in H as (x & <- & Hx). eauto.
Qed.

(** X13.  Whatever the method, the list [_fuse_results] returns holds no
    chunk id twice, is in descending order of fused score and is ranked 1, 2,
    ... by position; every result is marked ["hybrid"] and keeps the chunk
    id, content, metadata and match details of a result of the input lists. *)
Theorem fuse_results_output lists (weights : option (list Q)) (fusion_method : string)
    (out : list (SearchResult Q D)) :
  _fuse_results lists weights fusion_method = Some out ->
  ranked out /\ NoDup (map chunk_id out) /\ descending score out
  /\ forall r, r ∈ out ->
       source r = "hybrid"
       /\ exists x, In x (concat lists)
                    /\ identity x = identity r /\ match_details x = match_details r.
Proof.
  unfold _fuse_results. destruct (String.eqb fusion_method "rrf").
  - unfold _reciprocal_rank_fusion. intros H.
    destruct (mapM (rrf_entry 60) (concat lists)) as [es|] eqn:Ees; [|discriminate].
    cbn [mbind option_bind] in H.
    destruct (mapM_rrf_entry_inv _ _ _ Ees) as [Hcons _].
    destruct (fused_shape es out Hcons H) as (H1 & H2 & H3 & H4).
    split; [exact H1|]. split; [exact H2|]. split; [exact H3|].
    intros r Hr. destruct (H4 r Hr) as (Hs & s & x & Hin & Hid & Hmd).
    split; [exact Hs|].
    exists x. split; [|auto]. exact (mapM_rrf_entry_In _ _ _ Ees _ Hin).
  - destruct (String.eqb fusion_method "weighted"); [|discriminate].
    unfold _weighted_fusion. intros H.
    destruct (default_weights (length lists) weights) as [ws|]; [|discriminate].
    cbn [mbind option_bind] in H.
    set (es := concat _) in H.
    assert (Hes : forall e, In e es ->
              e.1.1 = chunk_id e.2
              /\ exists x, In x (concat lists) /\ identity x = identity e.2
                           /\ match_details x = match_details e.2).
    { intros e He. unfold es in He. apply in_concat in He as (l & Hl & He).
      apply in_map_iff in Hl as ([L w] & <- & HL).
      apply in_map_iff in He as (r & <- & Hr). split; [reflexivity|].
      cbn [fst snd] in *.
      apply list_elem_of_In, elem_of_zip_l, list_elem_of_In, in_map_iff in HL
        as (L0 & <- & HL0).
      destruct (normalize_In L0 r Hr) as (x & Hx & Hid & Hmd).
      exists x. split; [|auto]. apply in_concat. eauto. }
    destruct (fused_shape es out (fun e He => proj1 (Hes e He)) H) as (H1 & H2 & H3 & H4).
    split; [exact H1|]. split; [exact H2|]. split; [exact H3|].
    intros r Hr. destruct (H4 r Hr) as (Hs & s & x & Hin & Hid & Hmd).
    split; [exact Hs|].
    destruct (Hes _ Hin) as (_ & y & Hy & Hyid & Hymd). cbn [snd] in *.
    exists y. split; [exact Hy|]. split; congruence.
Qed.

(** X14.  [_fuse_results] raises in two cases only: the fusion method is
    neither ["rrf"] nor ["weighted"], or the method is ["weighted"] and there
    are no lists and no weights (the default weight divides by the number of
    lists). *)
Theorem fuse_results_raises_exactly lists (weights : option (list Q))
    (fusion_method : string) :
  _fuse_results lists weights fusion_method = None
  <-> (fusion_method <> "rrf" /\ fusion_method <> "weighted")
      \/ (fusion_method = "weighted" /\ lists = []
          /\ (weights = None \/ weights = Some [])).
Proof.
  unfold _fuse_results.
  destruct (String.eqb_spec fusion_method "rrf") as [->|Hrrf].
  - split; [|intros [[? _]|[? _]]; congruence].
    unfold _reciprocal_rank_fusion. intros H. exfalso.
    destruct (mapM_is_Some_2 (rrf_entry 60) (concat lists)) as [es Hes].
    { apply Forall_forall. intros x _. unfold compose, rrf_entry. simpl. eauto. }
    rewrite Hes in H. cbn [mbind option_bind] in H.
    destruct (mapM_rrf_entry_inv _ _ _ Hes) as [Hcons _].
    destruct (fuse_accumulated es Hcons) as (out & Hout & _).
    destruct (accumulate es) as [fs ar]. cbn [fst snd] in *. congruence.
  - destruct (String.eqb_spec fusion_method "weighted") as [->|Hw];
      [|split; [auto|reflexivity]].
    split.
    + intros H. right. split; [reflexivity|].
      destruct lists as [|l lists].
      * split; [reflexivity|]. destruct weights as [[|w ws]|]; auto.
        exfalso. vm_compute in H. discriminate.
      * exfalso. destruct (weighted_fusion_total (l :: lists) weights) as [out Hout];
          [discriminate|congruence].
    + intros [[_ H]|(_ & -> & [->| ->])]; [congruence|reflexivity|reflexivity].
Qed.

(** X15.  Weighted fusion pairs lists and weights one to one and stops at
    the shorter: with explicit weights, the lists beyond the number of
    weights are ignored, and so are the weights beyond the number of lists. *)
Theorem weighted_fusion_pairs_lists_and_weights lists (w : Q) (ws : list Q) :
  _weighted_fusion lists (Some (w :: ws))
  = _weighted_fusion (take (length (w :: ws)) lists) (Some (w :: ws))
  /\ (lists <> [] ->
      _weighted_fusion lists (Some (w :: ws))
      = _weighted_fusion lists (Some (take (length lists) (w :: ws)))).
Proof.
  split.
  - unfold _weighted_fusion. cbn [default_weights mbind option_bind].
    rewrite <- firstn_map.
    rewrite <- (zip_with_take_l pair (map normalize lists) (w :: ws)) at 1.
    reflexivity.
  - intros Hne. destruct lists as [|l lists]; [contradiction|].
    unfold _weighted_fusion.
    assert (Hw : default_weights (length (l :: lists))
                   (Some (take (length (l :: lists)) (w :: ws)))
                 = Some (take (length (l :: lists)) (w :: ws))) by reflexivity.
    rewrite Hw. cbn [default_weights mbind option_bind].
    rewrite <- (length_map normalize (l :: lists)), zip_with_take_r. reflexivity.
Qed.
End Fuse.

(** *** Vector search and reranking *)

Section Vector.
Context {Vec : Type}.
Variable embed_query : string -> Vec.
Variable index_search : list Vec -> Vec -> nat -> list (Q * Z).
Variable settings : VectorStore.SearchConfig.

(** X16.  [_vector_search] raises only when the search of the store does,
    and returns the empty list without a store.  It returns at most [top_k]
    results, ranked 1, 2, ... by position and marked ["vector"]; every score
    clears the similarity threshold and is repeated in the match details. *)
Theorem vector_search_results (e : Engine Vec) (query : string) (top_k : nat)
    (filters : option (gmap string pyval)) :
  (vector_store e = None ->
   _vector_search embed_query index_search settings e query top_k filters = Some [])
  /\ (_vector_search embed_query index_search settings e query top_k filters = None
      <-> exists vs, vector_store e = Some vs
                     /\ VectorStore.search embed_query index_search settings vs query
                                           (Some (top_k * 2)) filters = None)
  /\ forall out,
       _vector_search embed_query index_search settings e query top_k filters = Some out ->
       length out <= top_k /\ ranked out
       /\ forall r, r ∈ out ->
            source r = "vector"
            /\ (VectorStore.similarity_threshold settings <= score r)%Q
            /\ match_details r = Some {| vector_score := score r |}.
Proof.
  unfold _vector_search. destruct (vector_store e) as [vs|].
  2:{ split; [reflexivity|]. split; [split; [discriminate|intros (? & ? & _); discriminate]|].
      intros out [= <-]. split; [simpl; lia|]. split; [intros [|?] ? H; discriminate|].
      intros r H. now apply elem_of_nil in H. }
  split; [discriminate|].
  destruct (VectorStore.search embed_query index_search settings vs query
              (Some (top_k * 2)) filters) as [raw|] eqn:Eraw; cbn [mbind option_bind].
  2:{ split; [split; eauto|discriminate]. }
  split; [split; [discriminate|intros (? & [= <-] & ?); congruence]|].
  intros out [= <-].
  assert (Hlook : forall i r,
            map (fun ir : nat * VectorStore.Result =>
                   {| chunk_id := VectorStore.chunk_id ir.2;
                      content := VectorStore.content ir.2;
                      metadata := VectorStore.metadata ir.2;
                      score := VectorStore.score ir.2; rank := ir.1 + 1;
                      source := "vector";
                      match_details :=
                        Some {| vector_score := VectorStore.score ir.2 |} |})
                (enumerate (take top_k raw)) !! i = Some r ->
            exists x, raw !! i = Some x /\ rank r = i + 1 /\ source r = "vector"
                      /\ score r = VectorStore.score x
                      /\ match_details r = Some {| vector_score := score r |}).
  { intros i r H. rewrite list_lookup_fmap, enumerate_lookup in H.
    destruct (take top_k raw !! i) as [x|] eqn:Ex; [|discriminate]. simpl in H.
    injection H as <-. apply lookup_take_Some in Ex as [Ex _]. exists x. auto. }
  split; [|split].
  - rewrite length_map. unfold enumerate. rewrite enumerate_from_length, length_take. lia.
  - intros i r Hi. now destruct (Hlook i r Hi) as (x & _ & H & _).
  - intros r Hr. apply list_elem_of_lookup in Hr as [i Hi].
    destruct (Hlook i r Hi) as (x & Hx & _ & Hsrc & Hsc & Hmd).
    repeat split; trivial. rewrite Hsc.
    unfold VectorStore.search in Eraw.
    destruct (VectorStore._search_faiss _ _ _ _ _); [|discriminate].
    cbn [mbind option_bind] in Eraw. injection Eraw as <-.
    apply lookup_take_Some in Hx as [Hx _].
    apply list_elem_of_lookup_2, list_elem_of_In, List.filter_In in Hx as [_ Hx].
    now apply Qle_bool_iff in Hx.
Qed.
End Vector.

Lemma doc_for_rerank_identity {D} (results : list (SearchResult Q D)) :
  map VectorStore.identity (map doc_for_rerank results) = map identity results.
Proof. rewrite map_map. reflexivity. Qed.

(** X17.  With a store, [_rerank_results] returns as many results as it is
    given: the same chunks (id, content, metadata), possibly in another
    order, ranked 1, 2, ... by position and marked ["hybrid-reranked"].
    Without a store it raises on any non-empty list. *)
Theorem hybrid_rerank_keeps_the_results {Vec D : Type} (e : Engine Vec)
    (query : string) (results : list (SearchResult Q D)) :
  (forall vs, vector_store e = Some vs ->
     exists out,
       _rerank_results e query results = Some out
       /\ length out = length results
       /\ Permutation (map identity out) (map identity results)
       /\ ranked out
       /\ forall r, r ∈ out -> source r = "hybrid-reranked")
  /\ (vector_store e = None -> results <> [] -> _rerank_results e query results = None).
Proof.
  split.
  - intros vs Hvs. unfold _rerank_results. destruct results as [|r0 rs].
    { exists []. repeat split; trivial; [intros [|?] ? H; discriminate|].
      intros r H. now apply elem_of_nil in H. }
    rewrite Hvs. cbn [mbind option_bind].
    set (results := r0 :: rs).
    set (reranked := VectorStore._rerank_results vs query (map doc_for_rerank results)).
    pose proof (VectorStoreExtras.rerank_results_identity vs query
                  (map doc_for_rerank results)) as Hperm.
    fold reranked in Hperm. rewrite doc_for_rerank_identity in Hperm.
    eexists. split; [reflexivity|]. split; [|split; [|split]].
    + rewrite length_map. unfold enumerate. rewrite enumerate_from_length.
      apply Permutation_length in Hperm. now rewrite !length_map in Hperm.
    + rewrite <- Hperm. rewrite map_map. cbn [identity chunk_id content metadata].
      rewrite <- (enumerate_from_snd reranked 0) at 2. unfold enumerate.
      rewrite map_map. reflexivity.
    + intros i r H. rewrite list_lookup_fmap, enumerate_lookup in H.
      destruct (reranked !! i); [|discriminate]. simpl in H. now injection H as <-.
    + intros r H. apply list_elem_of_In, in_map_iff in H as (ir & <- & _). reflexivity.
  - intros Hvs Hne. unfold _rerank_results. destruct results; [contradiction|].
    now rewrite Hvs.
Qed.

(** *** The properties on the sample data *)

Lemma idf_cache_is_never_refreshed_witness :
  od_get (idf_cache (_get_idf sample_engine "renta").2) "renta" = Some 2%R
  /\ forall docs,
       (_get_idf (_update_doc_stats (_get_idf sample_engine "renta").2 docs) "renta").1
       = 2%R.
Proof.
  assert (H : od_get (idf_cache (_get_idf sample_engine "renta").2) "renta" = Some 2%R)
    by reflexivity.
  split; [exact H|].
  apply (proj2 (idf_cache_is_never_refreshed (_get_idf sample_engine "renta").2 "renta")
               "renta" 2%R H).
Defined.

Lemma keyword_search_results_witness :
  length (_keyword_search sample_engine "renta" 5 None None).1 <= 5.
Proof. apply (keyword_search_results sample_engine "renta" 5 None None). Defined.

Lemma added_chunks_are_listed_witness :
  _get_all_documents
    (init (Some (VectorStore.add_chunks VectorStore.sample_embed_documents
                   VectorStore.store_three [VectorStore.chunk_penal]).1))
    VectorStore.sample_filter
  = (_get_all_documents (init (Some VectorStore.store_three)) VectorStore.sample_filter
     ++ map doc_of_chunk
          (List.filter
             (fun c => VectorStore.passes VectorStore.sample_filter
                         (d_metadata (doc_of_chunk c)))
             [VectorStore.chunk_penal]))%list.
Proof.
  apply (added_chunks_are_listed VectorStore.sample_embed_documents
           VectorStore.store_three); reflexivity.
Defined.

Lemma fuse_results_output_witness :
  _fuse_results sample_lists (Some [6 # 10; 4 # 10]) "weighted"
    = Some (default [] (_fuse_results sample_lists (Some [6 # 10; 4 # 10]) "weighted"))
  /\ ranked (default [] (_fuse_results sample_lists (Some [6 # 10; 4 # 10]) "weighted")).
Proof.
  split; [vm_compute; reflexivity|].
  apply (fuse_results_output sample_lists (Some [6 # 10; 4 # 10]) "weighted").
  vm_compute. reflexivity.
Defined.

Lemma fuse_results_raises_exactly_witness :
  _fuse_results ([] : list (list (SearchResult Q string))) None "weighted" = None.
Proof.
  apply (proj2 (fuse_results_raises_exactly [] None "weighted")).
  right. auto.
Defined.

Lemma weighted_fusion_pairs_lists_and_weights_witness :
  sample_lists <> []
  /\ _weighted_fusion sample_lists (Some [1; 1; 1]%Q)
     = _weighted_fusion sample_lists (Some (take (length sample_lists) [1; 1; 1]%Q)).
Proof.
  assert (H : sample_lists <> []) by discriminate.
  split; [exact H|].
  apply (proj2 (weighted_fusion_pairs_lists_and_weights sample_lists 1 [1; 1]%Q) H).
Defined.

Lemma vector_search_results_witness :
  _vector_search VectorStore.sample_embed VectorStore.flat_ip_search
                 VectorStore.default_settings sample_engine "renta" 1 None
    = Some (default [] (_vector_search VectorStore.sample_embed VectorStore.flat_ip_search
                          VectorStore.default_settings sample_engine "renta" 1 None))
  /\ length (default [] (_vector_search VectorStore.sample_embed
                           VectorStore.flat_ip_search VectorStore.default_settings
                           sample_engine "renta" 1 None)) <= 1.
Proof.
  split; [vm_compute; reflexivity|].
  apply (vector_search_results VectorStore.sample_embed VectorStore.flat_ip_search
           VectorStore.default_settings sample_engine "renta" 1 None).
  vm_compute. reflexivity.
Defined.

Lemma hybrid_rerank_keeps_the_results_witness :
  exists out,
    _rerank_results sample_engine "renta" (concat sample_lists) = Some out
    /\ length out = length (concat sample_lists).
Proof.
  destruct (proj1 (hybrid_rerank_keeps_the_results sample_engine "renta"
                     (concat sample_lists)) _ eq_refl) as (out & H1 & H2 & _).
  exists out. split; [exact H1|exact H2].
Defined.
End HybridSearchExtras.

(** ** [reranker.py] *)

Module RerankerExtras.
Import Py PyFacts Reranker RerankerFacts.

(** *** The state a call leaves *)

Lemma with_cache_same st : with_cache st (cache st) = st.
Proof. now destruct st. Qed.

Lemma update_cache_state st key s :
  exists c, _update_cache st key s = with_cache st c.
Proof. unfold _update_cache. eauto. Qed.

Section State.
Variable hash : string -> Z.

Lemma store_scores_state st query use_cache documents todo :
  exists c, (store_scores hash st query use_cache documents todo).1 = with_cache st c.
Proof.
  revert st. induction todo as [|[idx s] rest IH]; intros st; simpl.
  - exists (cache st). now rewrite with_cache_same.
  - destruct (documents !! idx) as [doc|]; simpl;
      [|exists (cache st); now rewrite with_cache_same].
    destruct use_cache; [|apply IH].
    destruct (IH (_update_cache st (_get_cache_key hash query (d_content doc)) s))
      as [c ->].
    unfold _update_cache. eauto.
Qed.

Lemma rerank_state st query documents top_k return_all use_cache :
  exists c, (rerank hash st query documents top_k return_all use_cache).2
            = with_cache st c.
Proof.
  assert (Hst : exists c, st = with_cache st c)
    by (exists (cache st); now rewrite with_cache_same).
  unfold rerank. destruct (model st) as [predict|]; [|exact Hst].
  destruct documents as [|d ds]; [exact Hst|].
  destruct (scan hash st query use_cache (enumerate (d :: ds))) as [[cs ps] us].
  set (scored := match ps with [] => _ | _ :: _ => _ end).
  assert (Hscored : exists c, scored.2 = with_cache st c).
  { unfold scored. destruct ps as [|p ps]; [exact Hst|].
    destruct (batch_size st =? 0)%nat; [exact Hst|].
    destruct (predict_batches predict _) as [all_scores|]; [|exact Hst].
    pose proof (store_scores_state st query use_cache (d :: ds) (zip us all_scores))
      as Hb.
    destruct (store_scores hash st query use_cache (d :: ds) (zip us all_scores))
      as [st1 ok]. exact Hb. }
  destruct scored as [[all_scores|] st1]; simpl in Hscored; [|exact Hscored].
  destruct (build st1 cs us all_scores (enumerate (d :: ds))); exact Hscored.
Qed.
End State.

Lemma combine_scores_cache st c o r :
  _combine_scores (with_cache st c) o r = _combine_scores st o r.
Proof. reflexivity. Qed.

(** *** The results and the documents *)

Lemma made_from_presents st (P : nat * Document -> RerankResult -> Prop)
    (documents : list Document) rs :
  (forall id r, P id r -> made_from st id r) ->
  Forall2 P (enumerate documents) rs ->
  map original_rank rs = seq 1 (length documents)
  /\ Forall (presents st documents) rs.
Proof.
  intros HP H. split.
  - assert (Hgen : forall i rs, Forall2 P (enumerate_from i documents) rs ->
              map original_rank rs = seq (i + 1) (length documents)).
    { clear H rs. induction documents as [|d ds IH]; intros i rs H; simpl in H.
      - inversion H. reflexivity.
      - inversion H as [|? r ? rs' Hr Hrs]; subst. simpl. f_equal.
        + apply HP in Hr. apply Hr.
        + replace (S (i + 1)) with (S i + 1) by lia. now apply IH. }
    exact (Hgen 0 rs H).
  - apply Forall_forall. intros r Hr.
    apply list_elem_of_lookup in Hr as [j Hj].
    destruct (Forall2_lookup_r _ _ _ _ _ H Hj) as ([i doc] & Hid & Hm).
    rewrite enumerate_lookup in Hid.
    destruct (documents !! j) as [doc'|] eqn:Ed; [|discriminate].
    simpl in Hid. injection Hid as <- <-.
    apply HP in Hm. destruct Hm as (H1 & H2 & H3 & H4 & H5 & H6). simpl in *.
    exists doc'. rewrite H1. replace (j + 1 - 1) with j by lia.
    repeat split; trivial. lia.
Qed.

Lemma sort_and_rank_perm rs :
  Permutation (map original_rank (sort_and_rank rs)) (map original_rank rs)
  /\ forall P : RerankResult -> Prop,
       (forall n r, P r -> P (set_new_rank n r)) ->
       Forall P rs -> Forall P (sort_and_rank rs).
Proof.
  unfold sort_and_rank. split.
  - rewrite map_map. cbn [set_new_rank original_rank].
    rewrite <- (sort_desc_perm Qle_bool combined_score rs) at 2.
    rewrite <- (enumerate_from_snd (sort_desc Qle_bool combined_score rs) 0) at 2.
    unfold enumerate. now rewrite map_map.
  - intros P HP H. apply Forall_forall. intros r Hr.
    apply list_elem_of_In, in_map_iff in Hr as ([i r0] & <- & Hin).
    apply HP. rewrite Forall_forall in H. apply H.
    rewrite <- (sort_desc_perm Qle_bool combined_score rs).
    apply VectorStoreFacts.In_enumerate in Hin. eapply list_elem_of_lookup_2; eauto.
Qed.

Lemma presents_set_new_rank st documents n r :
  presents st documents r -> presents st documents (set_new_rank n r).
Proof. intros H. exact H. Qed.

Lemma made_from_cache st c id r : made_from (with_cache st c) id r -> made_from st id r.
Proof. intros H. exact H. Qed.

Lemma fallback_presents st query documents top_k out :
  _fallback_rerank st query documents top_k = Some out ->
  exists full,
    out = truncate top_k full
    /\ Permutation (map original_rank full) (seq 1 (length documents))
    /\ Forall (presents st documents) full.
Proof.
  unfold _fallback_rerank. intros H.
  destruct (fallback_loop st query _ (enumerate documents)) as [rs|] eqn:E;
    [|discriminate].
  cbn [mbind option_bind] in H. injection H as <-.
  pose proof (fallback_loop_made _ _ _ _ _ E) as Hmade.
  destruct (made_from_presents st _ documents rs (fun id r H => proj1 H) Hmade)
    as [Hranks Hpres].
  destruct (sort_and_rank_perm rs) as [Hperm Hall].
  exists (sort_and_rank rs). split; [reflexivity|]. split.
  - now rewrite Hperm, Hranks.
  - apply Hall; [apply presents_set_new_rank|exact Hpres].
Qed.

Lemma rerank_presents hash st query documents top_k return_all use_cache out st' :
  rerank hash st query documents top_k return_all use_cache = (Some out, st') ->
  exists full,
    (out = truncate top_k full \/ (return_all = true /\ out = full))
    /\ Permutation (map original_rank full) (seq 1 (length documents))
    /\ Forall (presents st documents) full.
Proof.
  assert (Hfb : forall c out,
            _fallback_rerank (with_cache st c) query documents top_k = Some out ->
            exists full,
              (out = truncate top_k full \/ (return_all = true /\ out = full))
              /\ Permutation (map original_rank full) (seq 1 (length documents))
              /\ Forall (presents st documents) full).
  { intros c out0 H. destruct (fallback_presents _ _ _ _ _ H) as (full & H1 & H2 & H3).
    exists full. split; [now left|]. split; [exact H2|exact H3]. }
  assert (Hfb0 : forall out,
            _fallback_rerank st query documents top_k = Some out ->
            exists full,
              (out = truncate top_k full \/ (return_all = true /\ out = full))
              /\ Permutation (map original_rank full) (seq 1 (length documents))
              /\ Forall (presents st documents) full).
  { intros out0 H. apply (Hfb (cache st)). now rewrite with_cache_same. }
  unfold rerank. intros H.
  destruct (model st) as [predict|];
    [|apply (f_equal fst) in H; cbn [fst] in H; now apply Hfb0].
  destruct documents as [|d ds];
    [apply (f_equal fst) in H; cbn [fst] in H; now apply Hfb0|].
  destruct (scan hash st query use_cache (enumerate (d :: ds))) as [[cs ps] us].
  set (scored := match ps with [] => _ | _ :: _ => _ end) in H.
  assert (Hscored : exists c, scored.2 = with_cache st c).
  { unfold scored. destruct ps as [|p ps];
      [exists (cache st); now rewrite with_cache_same|].
    destruct (batch_size st =? 0)%nat;
      [exists (cache st); now rewrite with_cache_same|].
    destruct (predict_batches predict _) as [all_scores|];
      [|exists (cache st); now rewrite with_cache_same].
    pose proof (store_scores_state hash st query use_cache (d :: ds)
                  (zip us all_scores)) as Hb.
    destruct (store_scores hash st query use_cache (d :: ds) (zip us all_scores))
      as [st1 ok]. exact Hb. }
  destruct scored as [[scores|] st1]; destruct Hscored as [c Hc]; cbn [snd] in Hc;
    subst st1.
  - destruct (build (with_cache st c) cs us scores (enumerate (d :: ds))) as [rs|] eqn:E;
      [|discriminate].
    apply (f_equal fst) in H; cbn [fst] in H. injection H as <-.
    pose proof (build_made _ _ _ _ _ _ E) as Hmade.
    destruct (made_from_presents st _ (d :: ds) rs (made_from_cache st c) Hmade)
      as [Hranks Hpres].
    destruct (sort_and_rank_perm rs) as [Hperm Hall].
    exists (sort_and_rank rs). split; [|split].
    + destruct return_all; auto.
    + now rewrite Hperm, Hranks.
    + apply Hall; [apply presents_set_new_rank|exact Hpres].
  - apply (f_equal fst) in H; cbn [fst] in H. now apply (Hfb c).
Qed.

Lemma truncate_sublist {A} top_k (l : list A) : truncate top_k l `sublist_of` l.
Proof. destruct top_k as [[|n]|]; simpl; try reflexivity. apply sublist_take. Qed.

Section Results.
Variable hash : string -> Z.

(** X18.  Every list [rerank] returns, through the model or through the
    fallback, presents each document at most once: it is the full ranking,
    which has exactly one result per document (original ranks 1 to n), cut
    to [top_k] unless the model path is told to return all; each result
    carries the content, the chunk id (or the position as a string), the
    metadata and the score of the document at its original rank, and the
    combination of that score with its rerank score. *)
Theorem rerank_presents_each_document_once (st st' : AdvancedReranker)
    (query : string) (documents : list Document) (top_k : option nat)
    (return_all use_cache : bool) (out : list RerankResult) :
  rerank hash st query documents top_k return_all use_cache = (Some out, st') ->
  NoDup (map original_rank out)
  /\ length out <= length documents
  /\ Forall (presents st documents) out
  /\ exists full,
       (out = truncate top_k full \/ (return_all = true /\ out = full))
       /\ Permutation (map original_rank full) (seq 1 (length documents)).
Proof.
  intros H. destruct (rerank_presents _ _ _ _ _ _ _ _ _ H) as (full & Hout & Hperm & Hpres).
  assert (Hsub : out `sublist_of` full).
  { destruct Hout as [->|[_ ->]]; [apply truncate_sublist|reflexivity]. }
  assert (Hnd : NoDup (map original_rank full)).
  { rewrite Hperm. apply NoDup_ListNoDup, seq_NoDup. }
  split; [|split; [|split]].
  - eapply sublist_NoDup; [exact Hnd|]. now apply (fmap_sublist original_rank).
  - apply sublist_length in Hsub. apply Permutation_length in Hperm.
    rewrite length_map, length_seq in Hperm. lia.
  - destruct Hout as [->|[_ ->]]; [|exact Hpres].
    destruct top_k as [[|n]|]; simpl; trivial. now apply Forall_take.
  - exists full. auto.
Qed.

Lemma combine_reciprocal_zero st o r :
  combine_method st = "rrf" -> (o == 0)%Q -> _combine_scores st o r = None.
Proof.
  intros Hm Ho. unfold _combine_scores. rewrite Hm. cbn [String.eqb Ascii.eqb Bool.eqb].
  unfold recip. apply Qeq_bool_iff in Ho. now rewrite Ho.
Qed.

(** X19.  With the combination method ["rrf"], [rerank] raises on every
    list that holds a document without score, or with score zero: the
    combination divides by the original score, and that loop is not guarded. *)
Theorem reciprocal_mode_raises_on_scoreless_document (st : AdvancedReranker)
    (query : string) (documents : list Document) (top_k : option nat)
    (return_all use_cache : bool) (doc : Document) :
  combine_method st = "rrf" ->
  doc ∈ documents ->
  scoreless doc ->
  (rerank hash st query documents top_k return_all use_cache).1 = None.
Proof.
  intros Hm Hdoc Hzero.
  destruct (rerank hash st query documents top_k return_all use_cache)
    as [[out|] st'] eqn:E; [exfalso|reflexivity].
  destruct (rerank_presents _ _ _ _ _ _ _ _ _ E) as (full & _ & Hperm & Hpres).
  apply list_elem_of_lookup in Hdoc as [j Hj].
  assert (Hin : In (j + 1) (map original_rank full)).
  { eapply Permutation_in; [symmetry; exact Hperm|]. apply in_seq.
    apply lookup_lt_Some in Hj. lia. }
  apply in_map_iff in Hin as (r & Hr & Hin).
  rewrite Forall_forall in Hpres.
  destruct (Hpres r) as (doc' & Hd & _ & _ & _ & _ & Hos & Hc);
    [now apply list_elem_of_In|].
  rewrite Hr in Hd. replace (j + 1 - 1) with j in Hd by lia.
  assert (doc' = doc) as -> by congruence.
  rewrite (combine_reciprocal_zero st _ _ Hm) in Hc; [discriminate|].
  rewrite Hos. exact Hzero.
Qed.
End Results.

(** *** The cache *)

(** X20.  A score stored with [_update_cache] is what the cache returns
    for its key; while the cache is not full the insertion changes no other
    key. *)
Theorem cache_returns_the_stored_score (st : AdvancedReranker) (key : CacheKey)
    (score : Q) :
  od_get (cache (_update_cache st key score)) key = Some score
  /\ (length (cache st) < max_cache_size st ->
      forall key', key' <> key ->
        od_get (cache (_update_cache st key score)) key' = od_get (cache st) key').
Proof.
  split.
  - unfold _update_cache. cbn [cache with_cache]. rewrite od_get_set.
    now destruct (decide (key = key)).
  - intros Hlt key' Hne. rewrite (RerankerClaims.update_cache_keeps st key score Hlt).
    rewrite od_get_set. now destruct (decide (key' = key)).
Qed.

Section CachedCalls.
Variable hash : string -> Z.

Lemma scan_cached st query docs n :
  (forall doc, doc ∈ docs ->
     is_Some (od_get (cache st) (_get_cache_key hash query (d_content doc)))) ->
  scan hash st query true (enumerate_from n docs)
  = (map (fun id : nat * Document => (id.1, cached_score hash st query (d_content id.2)))
         (enumerate_from n docs), [], []).
Proof.
  revert n. induction docs as [|d ds IH]; intros n H; [reflexivity|].
  cbn [enumerate_from scan]. rewrite IH by (intros; apply H; now right).
  destruct (H d) as [s Hs]; [now left|].
  assert (Hcs : cached_score hash st query (d_content d) = s)
    by (unfold cached_score; now rewrite Hs).
  rewrite Hs. cbn [map fst snd]. rewrite Hcs. reflexivity.
Qed.

Lemma od_get_enumerated {V} (f : Document -> V) docs n j doc :
  docs !! j = Some doc ->
  od_get (map (fun id : nat * Document => (id.1, f id.2)) (enumerate_from n docs))
         (n + j) = Some (f doc).
Proof.
  revert n j. induction docs as [|d ds IH]; intros n [|j] H; try discriminate.
  - injection H as ->. cbn. destruct (decide (n + 0 = n)); [reflexivity|lia].
  - cbn [enumerate_from map od_get fst snd].
    destruct (decide (n + S j = n)); [lia|].
    replace (n + S j) with (S n + j) by lia. now apply IH.
Qed.

Lemma build_cached st cs us scores (v : string -> Q) docs rs :
  (forall i doc, In (i, doc) docs -> od_get cs i = Some (v (d_content doc))) ->
  build st cs us scores docs = Some rs ->
  Forall (fun r => exists id, In id docs /\ content r = d_content id.2
                              /\ rerank_score r = v (content r)) rs.
Proof.
  revert rs. induction docs as [|[i doc] rest IH]; intros rs Hcs H; simpl in H.
  - injection H as <-. constructor.
  - rewrite (Hcs i doc) in H by now left. cbn [mbind option_bind] in H.
    destruct (_combine_scores st _ _) as [c|]; [|discriminate].
    cbn [mbind option_bind] in H.
    destruct (build st cs us scores rest) as [tl|]; [|discriminate].
    cbn [mbind option_bind] in H. injection H as <-. constructor.
    + exists (i, doc). simpl. auto.
    + eapply Forall_impl; [apply IH; [intros; apply Hcs; now right|reflexivity]|].
      simpl. intros r (id & Hid & ?). exists id. split; [now right|assumption].
Qed.

Lemma build_ext st1 st2 cs us scores docs :
  (forall o r, _combine_scores st1 o r = _combine_scores st2 o r) ->
  build st1 cs us scores docs = build st2 cs us scores docs.
Proof.
  intros Hc. induction docs as [|[i doc] rest IH]; [reflexivity|].
  simpl. rewrite IH. destruct (match od_get cs i with Some _ => _ | None => _ end);
    [|reflexivity].
  cbn [mbind option_bind]. now rewrite Hc.
Qed.

Lemma rerank_all_cached st predict query d ds top_k return_all :
  model st = Some predict ->
  all_cached hash st query (d :: ds) ->
  rerank hash st query (d :: ds) top_k return_all true
  = (match build st
             (map (fun id : nat * Document =>
                     (id.1, cached_score hash st query (d_content id.2)))
                  (enumerate (d :: ds)))
             [] [] (enumerate (d :: ds)) with
     | Some rs => Some (if return_all then sort_and_rank rs
                        else truncate top_k (sort_and_rank rs))
     | None => None
     end, st).
Proof.
  intros Hm Hall. unfold rerank. rewrite Hm. unfold enumerate.
  rewrite (scan_cached st query (d :: ds) 0 Hall).
  destruct (build st _ [] [] _); reflexivity.
Qed.

(** X21.  A call whose documents all have a cached score for the query
    does not reach the model: the result is the same whatever the model
    would answer, the cache is left as it was, and every result carries as
    rerank score the value cached under its key (the hashes of the query and
    of the first 100 characters of the content). *)
Theorem fully_cached_call_skips_the_model (st : AdvancedReranker)
    (predict : VectorStore.Predictor) (query : string) (documents : list Document)
    (top_k : option nat) (return_all : bool) :
  model st = Some predict ->
  all_cached hash st query documents ->
  (rerank hash st query documents top_k return_all true).2 = st
  /\ (forall predict',
        (rerank hash (with_model st (Some predict')) query documents top_k
                return_all true).1
        = (rerank hash st query documents top_k return_all true).1)
  /\ forall out,
       (rerank hash st query documents top_k return_all true).1 = Some out ->
       forall r, r ∈ out ->
         od_get (cache st) (_get_cache_key hash query (content r))
         = Some (rerank_score r).
Proof.
  intros Hm Hall. destruct documents as [|d ds].
  { unfold rerank. rewrite Hm. cbn [model with_model].
    split; [reflexivity|]. split; [reflexivity|].
    intros out [= <-] r Hr.
    destruct top_k as [[|n]|]; cbn in Hr; now apply elem_of_nil in Hr. }
  rewrite (rerank_all_cached st predict query d ds top_k return_all Hm Hall).
  split; [reflexivity|]. split.
  - intros predict'.
    rewrite (rerank_all_cached (with_model st (Some predict')) predict' query d ds
               top_k return_all eq_refl Hall).
    cbn [fst]. unfold cached_score. cbn [cache with_model].
    now rewrite (build_ext (with_model st (Some predict')) st) by reflexivity.
  - cbn [fst]. intros out H r Hr.
    destruct (build st _ [] [] (enumerate (d :: ds))) as [rs|] eqn:E; [|discriminate].
    injection H as <-.
    assert (Hrs : Forall (fun r => exists id, In id (enumerate (d :: ds))
                                      /\ content r = d_content id.2
                                      /\ rerank_score r
                                         = cached_score hash st query (content r)) rs).
    { apply (build_cached _ _ _ _ (cached_score hash st query) _ _ ) in E; [exact E|].
      intros i doc Hin. apply VectorStoreFacts.In_enumerate in Hin.
      exact (od_get_enumerated (fun doc => cached_score hash st query (d_content doc))
               (d :: ds) 0 i doc Hin). }
    destruct (sort_and_rank_perm rs) as [_ Hsr].
    apply Hsr in Hrs; [|intros n r0 H0; exact H0].
    assert (Hin : r ∈ sort_and_rank rs).
    { destruct return_all; [exact Hr|].
      destruct top_k as [[|n]|]; simpl in Hr; trivial.
      apply elem_of_take in Hr as (i & Hi & _). eapply list_elem_of_lookup_2; eauto. }
    rewrite Forall_forall in Hrs. destruct (Hrs r Hin) as ([i doc] & Hid & Hc & Hs).
    rewrite Hs. unfold cached_score.
    apply VectorStoreFacts.In_enumerate in Hid. simpl in Hc.
    destruct (Hall doc) as [s Hdoc]; [eapply list_elem_of_lookup_2; eauto|].
    rewrite Hc, Hdoc. reflexivity.
Qed.

(** *** Calls that bypass the cache *)

Lemma scan_without_cache st c query docs :
  scan hash (with_cache st c) query false docs = scan hash st query false docs.
Proof.
  induction docs as [|[i doc] rest IH]; [reflexivity|]. simpl. now rewrite IH.
Qed.

Lemma store_scores_without_cache query documents todo :
  exists ok, forall st, store_scores hash st query false documents todo = (st, ok).
Proof.
  induction todo as [|[idx s] rest [ok IH]]; simpl; [eauto|].
  destruct (documents !! idx); eauto.
Qed.

Lemma fallback_loop_ext st1 st2 query terms docs :
  (forall o r, _combine_scores st1 o r = _combine_scores st2 o r) ->
  fallback_loop st1 query terms docs = fallback_loop st2 query terms docs.
Proof.
  intros Hc. induction docs as [|[i doc] rest IH]; [reflexivity|].
  simpl. now rewrite IH, Hc.
Qed.

(** X22.  With [use_cache=False] the cache is neither read nor written:
    the call leaves the reranker as it was, and its result does not depend
    on what the cache holds. *)
Theorem rerank_without_cache_ignores_it (st : AdvancedReranker) (query : string)
    (documents : list Document) (top_k : option nat) (return_all : bool) :
  (rerank hash st query documents top_k return_all false).2 = st
  /\ forall c,
       (rerank hash (with_cache st c) query documents top_k return_all false).1
       = (rerank hash st query documents top_k return_all false).1.
Proof.
  assert (Hfb : forall c, _fallback_rerank (with_cache st c) query documents top_k
                          = _fallback_rerank st query documents top_k).
  { intros c. unfold _fallback_rerank.
    now rewrite (fallback_loop_ext (with_cache st c) st) by reflexivity. }
  assert (Hgen : forall st0 : AdvancedReranker,
            (forall o r, _combine_scores st0 o r = _combine_scores st o r) ->
            model st0 = model st -> batch_size st0 = batch_size st ->
            scan hash st0 query false (enumerate documents)
            = scan hash st query false (enumerate documents) ->
            _fallback_rerank st0 query documents top_k
            = _fallback_rerank st query documents top_k ->
            (rerank hash st0 query documents top_k return_all false).2 = st0
            /\ (rerank hash st0 query documents top_k return_all false).1
               = (rerank hash st query documents top_k return_all false).1).
  { intros st0 Hc Hm Hb Hscan Hfall. unfold rerank. rewrite Hm, Hb, Hscan, Hfall.
    destruct (model st) as [predict|]; [|split; reflexivity].
    destruct documents as [|d ds]; [split; reflexivity|].
    destruct (scan hash st query false (enumerate (d :: ds))) as [[cs ps] us].
    destruct ps as [|p ps].
    - rewrite (build_ext st0 st) by exact Hc.
      destruct (build st cs us [] _); split; reflexivity.
    - destruct (batch_size st =? 0)%nat; [split; [reflexivity|exact Hfall]|].
      destruct (predict_batches predict _) as [all_scores|];
        [|split; [reflexivity|exact Hfall]].
      destruct (store_scores_without_cache query (d :: ds) (zip us all_scores))
        as [ok Hok].
      rewrite (Hok st0), (Hok st). destruct ok; [|split; [reflexivity|exact Hfall]].
      rewrite (build_ext st0 st) by exact Hc.
      destruct (build st cs us all_scores _); split; reflexivity. }
  split.
  - apply (Hgen st); trivial.
  - intros c. apply (Hgen (with_cache st c)); trivial.
    apply scan_without_cache.
Qed.
End CachedCalls.

(** *** Batches *)

Lemma batches_fuel_spec {A} fuel n (l : list A) :
  1 <= n -> length l <= fuel ->
  concat (batches_fuel fuel n l) = l
  /\ Forall (fun b => 1 <= length b <= n) (batches_fuel fuel n l).
Proof.
  intros Hn. revert l. induction fuel as [|fuel IH]; intros l Hl.
  - destruct l; [|simpl in Hl; lia]. split; [reflexivity|constructor].
  - destruct l as [|x l']; [split; [reflexivity|constructor]|].
    cbn [batches_fuel].
    destruct (IH (drop n (x :: l'))) as [Hc Hf].
    { rewrite length_drop. simpl in *. lia. }
    split.
    + cbn [concat]. rewrite Hc. apply take_drop.
    + constructor; [|exact Hf]. rewrite length_take. simpl. lia.
Qed.

Lemma predict_batches_pointwise (f : string * string -> Q) bs :
  predict_batches (fun b => Some (map f b)) bs = Some (map f (concat bs)).
Proof.
  induction bs as [|b bs IH]; [reflexivity|].
  simpl. rewrite IH. cbn [mbind option_bind]. now rewrite map_app.
Qed.

(** X23.  Cutting the pairs into batches loses nothing: for a batch size
    of at least one the batches are non-empty, no longer than the batch size
    and, taken together, the pairs in their order; a model that scores each
    pair on its own therefore gives the same scores whatever the batch
    size. *)
Theorem batches_cover_the_pairs (n : nat) (pairs : list (string * string)) :
  1 <= n ->
  concat (batches n pairs) = pairs
  /\ Forall (fun b => 1 <= length b <= n) (batches n pairs)
  /\ forall f : string * string -> Q,
       predict_batches (fun b => Some (map f b)) (batches n pairs)
       = Some (map f pairs).
Proof.
  intros Hn. unfold batches.
  destruct (batches_fuel_spec (length pairs) n pairs Hn (le_n _)) as [Hc Hf].
  split; [exact Hc|]. split; [exact Hf|].
  intros f. now rewrite predict_batches_pointwise, Hc.
Qed.

Section BatchRerank.
Variable hash : string -> Z.

Lemma batch_loop_spec st todo top_k out st' :
  batch_loop hash st todo top_k = (Some out, st') ->
  Forall2 (fun qd ranking =>
             rank_order ranking
             /\ NoDup (map original_rank ranking)
             /\ length ranking <= length qd.2
             /\ Forall (presents st qd.2) ranking)
          todo out.
Proof.
  revert st out. induction todo as [|[query docs] rest IH]; intros st out H.
  - injection H as <- <-. constructor.
  - cbn [batch_loop] in H.
    destruct (rerank hash st query docs top_k false true) as [[reranked|] st1] eqn:E;
      [|discriminate].
    destruct (rerank_state hash st query docs top_k false true) as [c Hc].
    rewrite E in Hc. cbn [snd] in Hc. subst st1.
    specialize (IH (with_cache st c)).
    destruct (batch_loop hash (with_cache st c) rest top_k) as [[results|] st2];
      [|discriminate].
    injection H as <- <-. constructor.
    + destruct (rerank_presents _ _ _ _ _ _ _ _ _ E) as (full & Hout & Hperm & Hpres).
      assert (Hfull : reranked = truncate top_k full)
        by (destruct Hout as [->|[? _]]; [reflexivity|discriminate]).
      subst reranked. cbn [snd].
      assert (Hnd : NoDup (map original_rank full)).
      { rewrite Hperm. apply NoDup_ListNoDup, seq_NoDup. }
      split; [eapply rerank_order; exact E|]. split; [|split].
      * eapply sublist_NoDup; [exact Hnd|].
        apply (fmap_sublist original_rank), truncate_sublist.
      * pose proof (sublist_length _ _ (truncate_sublist top_k full)) as Hl.
        apply Permutation_length in Hperm. rewrite length_map, length_seq in Hperm. lia.
      * destruct top_k as [[|n]|]; simpl; trivial. now apply Forall_take.
    + eapply Forall2_impl; [exact (IH results eq_refl)|].
      intros qd ranking H. exact H.
Qed.

(** X24.  [batch_rerank] pairs queries and document lists one to one and
    stops at the shorter of the two.  When it returns, the ranking at
    position [j] is for the [j]-th query and its documents: it is in rank
    order, presents each of those documents at most once and none other, and
    the cache, threaded through the calls, stays within its bound.  Without a
    model (and outside the ["rrf"] combination) it always returns and leaves
    the reranker as it was. *)
Theorem batch_rerank_results (st : AdvancedReranker) (queries : list string)
    (document_lists : list (list Document)) (top_k : option nat) :
  (forall out st',
      batch_rerank hash st queries document_lists top_k = (Some out, st') ->
      length out = Nat.min (length queries) (length document_lists)
      /\ (forall j ranking, out !! j = Some ranking ->
            exists docs,
              document_lists !! j = Some docs
              /\ rank_order ranking
              /\ NoDup (map original_rank ranking)
              /\ length ranking <= length docs
              /\ Forall (presents st docs) ranking)
      /\ forall n, 5 <= n -> cache_ok n st -> cache_ok n st')
  /\ (model st = None -> combine_method st <> "rrf" ->
      exists out, batch_rerank hash st queries document_lists top_k = (Some out, st)).
Proof.
  unfold batch_rerank. split.
  - intros out st' H. pose proof (batch_loop_spec _ _ _ _ _ H) as Hspec.
    split; [|split].
    + rewrite <- (Forall2_length _ _ _ Hspec). apply length_zip_with.
    + intros j ranking Hj.
      destruct (Forall2_lookup_r _ _ _ _ _ Hspec Hj) as ([q docs] & Hqd & Hr).
      apply lookup_zip_with_Some in Hqd as (q' & docs' & [= <- <-] & _ & Hd).
      exists docs. split; [exact Hd|exact Hr].
    + intros n Hn. clear Hspec. revert st out H.
      induction (zip queries document_lists) as [|[q docs] rest IH]; intros st out H Hok.
      * now injection H as <- <-.
      * cbn [batch_loop] in H.
        pose proof (RerankerClaims.rerank_bounded hash n st q docs top_k false true
                      Hn Hok) as Hb.
        destruct (rerank hash st q docs top_k false true) as [[reranked|] st1];
          [|discriminate].
        cbn [snd] in Hb.
        destruct (batch_loop hash st1 rest top_k) as [[results|] st2] eqn:E;
          [|discriminate].
        injection H as <- <-. exact (IH st1 results E Hb).
  - intros Hm Hrrf.
    induction (zip queries document_lists) as [|[q docs] rest [out IH]];
      [exists []; reflexivity|].
    cbn [batch_loop]. unfold rerank at 1. rewrite Hm.
    unfold _fallback_rerank.
    destruct (fallback_loop_total st q (dedup (split (lower q))) (enumerate docs) Hrrf)
      as [rs ->].
    cbn [mbind option_bind]. rewrite IH. eexists. reflexivity.
Qed.
End BatchRerank.

(** *** The fallback *)

Lemma fallback_score_bounds query terms content :
  (0 <= fallback_score query terms content)%Q
  /\ (fallback_score query terms content <= 2)%Q
  /\ (contains (lower query) (lower content) = false ->
      (fallback_score query terms content <= 1)%Q)
  /\ (terms = [] -> fallback_score query terms content = 0%Q).
Proof.
  unfold fallback_score.
  set (m := count _ terms).
  assert (Hm : m <= length terms) by (unfold m, count; apply List.filter_length_le).
  destruct terms as [|t ts]; [repeat split; try discriminate; reflexivity|].
  set (L := length (t :: ts)) in *.
  assert (HL : 1 <= L) by (unfold L; simpl; lia).
  assert (Hpos : Zpos (Pos.of_nat L) = Z.of_nat L)
    by (rewrite <- positive_nat_Z, Nat2Pos.id; lia).
  destruct (contains (lower query) (lower content)); unfold Qle; cbn [Qnum Qden];
    rewrite ?Hpos; repeat split; try discriminate; try lia.
Qed.

(** X25.  In the ranking of the fallback every rerank score lies between 0
    and 2; it exceeds 1 only for a content that contains the whole query
    phrase, and it is 0 for every document when the query has no terms. *)
Theorem fallback_scores_are_bounded (st : AdvancedReranker) (query : string)
    (documents : list Document) (top_k : option nat) (out : list RerankResult) :
  _fallback_rerank st query documents top_k = Some out ->
  forall r, r ∈ out ->
    (0 <= rerank_score r)%Q /\ (rerank_score r <= 2)%Q
    /\ (phrase_contained query (content r) = false -> (rerank_score r <= 1)%Q)
    /\ (query_terms query = [] -> rerank_score r = 0%Q).
Proof.
  unfold _fallback_rerank. intros H r Hr.
  destruct (fallback_loop st query _ (enumerate documents)) as [rs|] eqn:E;
    [|discriminate].
  cbn [mbind option_bind] in H. injection H as <-.
  pose proof (fallback_loop_made _ _ _ _ _ E) as Hmade.
  assert (Hrs : Forall (fun r => rerank_score r
                                 = fallback_score query (query_terms query) (content r))
                       rs).
  { apply Forall_forall. intros r0 Hr0. apply list_elem_of_lookup in Hr0 as [j Hj].
    destruct (Forall2_lookup_r _ _ _ _ _ Hmade Hj) as (id & _ & Hm & Hs).
    destruct Hm as (_ & _ & Hc & _). rewrite Hc. exact Hs. }
  destruct (sort_and_rank_perm rs) as [_ Hsr].
  apply Hsr in Hrs; [|intros n r0 H0; exact H0].
  assert (Hin : r ∈ sort_and_rank rs).
  { destruct top_k as [[|n]|]; simpl in Hr; trivial.
    apply elem_of_take in Hr as (i & Hi & _). eapply list_elem_of_lookup_2; eauto. }
  rewrite Forall_forall in Hrs. rewrite (Hrs r Hin).
  apply fallback_score_bounds.
Qed.

(** *** Feature scores *)

Lemma find_contains a b : find a b = None <-> contains a b = false.
Proof.
  induction b as [|c b IH]; cbn [find contains].
  - destruct (String.prefix a ""); cbn [orb]; split; congruence.
  - destruct (String.prefix a (String c b)); cbn [orb]; [split; congruence|].
    rewrite <- IH. destruct (find a b); cbn; split; congruence.
Qed.

Lemma first_match_step_spec doc acc t :
  match first_match_step doc acc t with
  | None => acc = None /\ find t doc = None
  | Some x =>
      (forall a, acc = Some a -> x <= a)
      /\ (forall p, find t doc = Some p -> x <= p)
      /\ (acc = Some x \/ find t doc = Some x)
  end.
Proof.
  unfold first_match_step. destruct (find t doc) as [pos|], acc as [a|].
  - destruct (Nat.ltb_spec pos a).
    + split; [intros ? [= <-]; lia|]. split; [intros ? [= <-]; lia|auto].
    + split; [intros ? [= <-]; lia|]. split; [intros ? [= <-]; lia|auto].
  - split; [discriminate|]. split; [intros ? [= <-]; lia|auto].
  - split; [intros ? [= <-]; lia|]. split; [discriminate|auto].
  - auto.
Qed.

Lemma first_match_fold doc terms acc :
  match foldl (first_match_step doc) acc terms with
  | None => acc = None /\ forall t, In t terms -> find t doc = None
  | Some m =>
      (forall a, acc = Some a -> m <= a)
      /\ (forall t p, In t terms -> find t doc = Some p -> m <= p)
      /\ (acc = Some m \/ exists t, In t terms /\ find t doc = Some m)
  end.
Proof.
  revert acc. induction terms as [|t ts IH]; intros acc; cbn [foldl].
  - destruct acc as [a|]; [|split; [reflexivity|intros t []]].
    split; [intros ? [= <-]; lia|]. split; [intros t p []|auto].
  - specialize (IH (first_match_step doc acc t)).
    pose proof (first_match_step_spec doc acc t) as Hstep.
    destruct (foldl (first_match_step doc) (first_match_step doc acc t) ts) as [m|].
    + destruct IH as (Hacc & Hts & Hex).
      destruct (first_match_step doc acc t) as [x|].
      * destruct Hstep as (Hxa & Hxt & Hx). specialize (Hacc x eq_refl).
        split; [intros a Ha; specialize (Hxa a Ha); lia|]. split.
        -- intros t' p [<-|Hin] Hp; [specialize (Hxt p Hp); lia|eauto].
        -- destruct Hex as [[= <-]|(t' & Hin & Hf)].
           ++ destruct Hx as [Hx|Hx]; [now left|right; exists t; split; [now left|exact Hx]].
           ++ right. exists t'. split; [now right|exact Hf].
      * destruct Hstep as [-> Hnone]. split; [discriminate|]. split.
        -- intros t' p [<-|Hin] Hp; [congruence|eauto].
        -- destruct Hex as [Hex|(t' & Hin & Hf)]; [discriminate|].
           right. exists t'. split; [now right|exact Hf].
    + destruct IH as [Hacc Hts]. rewrite Hacc in Hstep. destruct Hstep as [-> Hnone].
      split; [reflexivity|]. intros t' [<-|Hin]; [exact Hnone|eauto].
Qed.

Lemma Zpos_of_nat_S k : Zpos (Pos.of_nat (k + 1)) = Z.of_nat (k + 1).
Proof. rewrite <- positive_nat_Z, Nat2Pos.id; lia. Qed.

(** X26.  The feature scores of [get_feature_scores]: the term overlap
    and the first-match score lie between 0 and 1 and the length ratio is not
    negative; the first-match score is 0 exactly when no term of the query
    occurs in the lower-cased document, and otherwise it is at least
    [1 / (p + 1)] for every position [p] at which a query term is first
    found. *)
Theorem feature_scores_are_bounded (query document : string) :
  let features := get_feature_scores query document in
  (0 <= length_ratio features)%Q
  /\ (0 <= term_overlap features)%Q /\ (term_overlap features <= 1)%Q
  /\ (0 <= first_match_position features)%Q /\ (first_match_position features <= 1)%Q
  /\ ((first_match_position features == 0)%Q
      <-> forall term, In term (query_terms query) ->
            contains term (lower document) = false)
  /\ forall term p,
       In term (query_terms query) -> find term (lower document) = Some p ->
       (1 # Pos.of_nat (p + 1) <= first_match_position features)%Q.
Proof.
  unfold get_feature_scores, query_terms.
  cbn [length_ratio term_overlap first_match_position exact_match].
  set (terms := dedup (split (lower query))).
  split; [unfold Qle; simpl; lia|]. split; [|split].
  - destruct terms; [apply Qle_refl|]. unfold Qle. simpl. lia.
  - set (m := count _ terms).
    assert (Hm : m <= length terms) by (unfold m, count; apply List.filter_length_le).
    clearbody m. destruct terms as [|t ts]; [unfold Qle; simpl; lia|].
    unfold Qle. cbn [Qnum Qden].
    replace (length (t :: ts)) with (length ts + 1) in * by (simpl; lia).
    rewrite Zpos_of_nat_S. lia.
  - pose proof (first_match_fold (lower document) terms None) as Hfold.
    destruct (foldl (first_match_step (lower document)) None terms) as [m|].
    + destruct Hfold as (_ & Hmin & Hex).
      split; [unfold Qle; simpl; lia|]. split; [|split].
      * unfold Qle. cbn [Qnum Qden]. rewrite Zpos_of_nat_S. lia.
      * split; [intros H; unfold Qeq in H; simpl in H; lia|].
        intros Hnone. exfalso.
        destruct Hex as [Hex|(t & Hin & Hf)]; [discriminate|].
        apply Hnone, find_contains in Hin. congruence.
      * intros term p Hin Hp. specialize (Hmin term p Hin Hp).
        unfold Qle. cbn [Qnum Qden]. rewrite !Zpos_of_nat_S. lia.
    + destruct Hfold as [_ Hnone].
      split; [apply Qle_refl|]. split; [unfold Qle; simpl; lia|]. split.
      * split; [|reflexivity]. intros _ term Hin. apply find_contains. now apply Hnone.
      * intros term p Hin Hp. rewrite (Hnone term Hin) in Hp. discriminate.
Qed.

(** *** The properties on the sample data *)

Lemma rerank_presents_each_document_once_witness :
  rerank sample_hash sample_reranker "renta mensual" sample_documents (Some 2)
         false true
    = (Some (default [] sample_reranked.1), sample_reranked.2)
  /\ NoDup (map original_rank (default [] sample_reranked.1)).
Proof.
  split; [vm_compute; reflexivity|].
  apply (rerank_presents_each_document_once sample_hash sample_reranker
           sample_reranked.2 "renta mensual" sample_documents (Some 2) false true).
  vm_compute. reflexivity.
Defined.

Lemma reciprocal_mode_raises_on_scoreless_document_witness :
  combine_method reciprocal_reranker = "rrf"
  /\ (rerank sample_hash reciprocal_reranker "renta mensual" sample_documents None
             false true).1 = None.
Proof.
  split; [reflexivity|].
  apply (reciprocal_mode_raises_on_scoreless_document sample_hash reciprocal_reranker
           "renta mensual" sample_documents None false true
           {| d_content := "Penalizacion del 10% de interes"; d_score := None;
              d_chunk_id := None; d_metadata := None |}).
  - reflexivity.
  - apply list_elem_of_In. simpl. auto.
  - reflexivity.
Defined.

Lemma cache_returns_the_stored_score_witness :
  length (cache sample_reranker) < max_cache_size sample_reranker
  /\ od_get (cache (_update_cache sample_reranker (1, 1)%Z (1 # 2))) (2, 2)%Z
     = od_get (cache sample_reranker) (2, 2)%Z.
Proof.
  assert (H : length (cache sample_reranker) < max_cache_size sample_reranker)
    by (vm_compute; lia).
  split; [exact H|].
  apply (proj2 (cache_returns_the_stored_score sample_reranker (1, 1)%Z (1 # 2)) H).
  discriminate.
Defined.

Lemma warm_reranker_all_cached :
  all_cached sample_hash warm_reranker "renta mensual" sample_documents.
Proof.
  intros doc Hdoc. apply list_elem_of_In in Hdoc. simpl in Hdoc.
  destruct Hdoc as [<-|[<-|[<-|[]]]]; vm_compute; eauto.
Defined.

Lemma fully_cached_call_skips_the_model_witness :
  model warm_reranker = Some sample_model
  /\ (rerank sample_hash warm_reranker "renta mensual" sample_documents (Some 2)
             false true).2 = warm_reranker
  /\ (rerank sample_hash (with_model warm_reranker (Some failing_model))
             "renta mensual" sample_documents (Some 2) false true).1
     = (rerank sample_hash warm_reranker "renta mensual" sample_documents (Some 2)
               false true).1.
Proof.
  split; [reflexivity|].
  destruct (fully_cached_call_skips_the_model sample_hash warm_reranker sample_model
              "renta mensual" sample_documents (Some 2) false eq_refl
              warm_reranker_all_cached) as (H1 & H2 & _).
  split; [exact H1|exact (H2 failing_model)].
Defined.

Lemma batches_cover_the_pairs_witness :
  1 <= 2
  /\ concat (batches 2 [("q", "a"); ("q", "b"); ("q", "c")])
     = [("q", "a"); ("q", "b"); ("q", "c")].
Proof.
  split; [lia|].
  apply (batches_cover_the_pairs 2 [("q", "a"); ("q", "b"); ("q", "c")]). lia.
Defined.

Lemma batch_rerank_results_witness :
  exists out,
    batch_rerank sample_hash (init None) ["renta mensual"; "interes"]
                 [sample_documents] None = (Some out, init None)
    /\ length out = 1.
Proof.
  destruct (proj2 (batch_rerank_results sample_hash (init None)
                     ["renta mensual"; "interes"] [sample_documents] None)
                  eq_refl) as [out Hout]; [discriminate|].
  exists out. split; [exact Hout|].
  apply (proj1 (batch_rerank_results sample_hash (init None)
                  ["renta mensual"; "interes"] [sample_documents] None) out _ Hout).
Defined.

Lemma fallback_scores_are_bounded_witness :
  _fallback_rerank (init None) "renta mensual" sample_documents None
    = Some (default [] (_fallback_rerank (init None) "renta mensual"
                                         sample_documents None))
  /\ forall r,
       r ∈ default [] (_fallback_rerank (init None) "renta mensual"
                                        sample_documents None) ->
       (rerank_score r <= 2)%Q.
Proof.
  split; [vm_compute; reflexivity|].
  intros r Hr.
  apply (fallback_scores_are_bounded (init None) "renta mensual" sample_documents None
           _ eq_refl r Hr).
Defined.

Lemma feature_scores_are_bounded_witness :
  (term_overlap (get_feature_scores "renta anual" "La renta mensual") <= 1)%Q.
Proof. apply (feature_scores_are_bounded "renta anual" "La renta mensual"). Defined.
End RerankerExtras.
